(** * TinyTracer: transition classifier, probes, timer and watch list

    A shallow embedding of [TinyTracer.cpp] and [FuncWatch.cpp].  Machine
    integers are [Z] with their wrap-around written out, the tool's global
    and function-static variables are fields of an explicit state that is
    threaded through the analysis routines, and calls of the trace log are
    recorded as values appended to the log.  What the two files call without
    defining it ([ProcessInfo], [Util], the instrumentation engine, the
    stream library) is a parameter, or is modelled from the spec and marked
    so. *)

From Stdlib Require Import ZArith List String Ascii Bool Lia.
From Stdlib Require DecimalString HexadecimalString.
Import ListNotations.

Open Scope Z_scope.

(** ** Data *)

Definition ADDRINT := Z.

(** [t_shellc_options] is a C enumeration: an integer with three named
    values, and [SHELLC_OPTIONS_COUNT] closing the list. *)
Definition t_shellc_options := Z.
Definition SHELLC_DO_NOT_FOLLOW : t_shellc_options := 0.
Definition SHELLC_FOLLOW_FIRST : t_shellc_options := 1.
Definition SHELLC_FOLLOW_RECURSIVE : t_shellc_options := 2.
Definition SHELLC_OPTIONS_COUNT : t_shellc_options := 3.

(** A section of the traced module: a named range of offsets, the end
    excluded. *)
Record s_module := mk_section {
  name : string;
  start : ADDRINT;
  end_ : ADDRINT
}.

(** A loaded module image. *)
Record IMG := mk_img {
  IMG_Name : string;
  IMG_LowAddress : ADDRINT;
  IMG_Size : Z;
  IMG_Sections : list s_module;
  isTraced : bool
}.

(** What the analysis routines consult and never change: the values of
    [Util.h] that are not part of the sources at hand ([UNKNOWN_ADDR],
    [GetPageOfAddr], [get_func_at]), the images loaded so far, and the
    follow mode chosen on the command line. *)
Record Env := mk_env {
  UNKNOWN_ADDR : ADDRINT;
  GetPageOfAddr : ADDRINT -> ADDRINT;
  get_func_at : ADDRINT -> string;
  images : list IMG;
  m_FollowShellcode : t_shellc_options
}.

(** One value per method of [TraceLog] that the routines call; the two
    overloads of [logCall] are [logCall] (target in a module) and
    [logCallPage] (target in a page outside every module). *)
Inductive TraceRecord :=
| logCall (prevModuleBase prevAddr : ADDRINT) (isRVA : bool)
          (module func : string)
| logCallPage (prevBase prevAddr calledPageBase callAddr : ADDRINT)
| logNewSectionCalled (prevAddr : ADDRINT) (prevSection currSection : string)
| logSectionChange (addr : ADDRINT) (sectionName : string)
| logLine (line : string).

(** The mutable state: the static [lastShellc] of [_SaveTransitions], the
    section cursor of [pInfo] and the lines written to [traceLog]. *)
Record State := mk_state {
  lastShellc : ADDRINT;
  lastKnownSectionOffset : ADDRINT;
  traceLog : list TraceRecord
}.

Definition set_lastShellc (p : ADDRINT) (st : State) : State :=
  mk_state p (lastKnownSectionOffset st) (traceLog st).

Definition set_cursor (rva : ADDRINT) (st : State) : State :=
  mk_state (lastShellc st) rva (traceLog st).

Definition append_log (r : TraceRecord) (st : State) : State :=
  mk_state (lastShellc st) (lastKnownSectionOffset st) (traceLog st ++ [r]).

(** ** A state monad for the analysis routines *)

Definition M (A : Type) : Type := State -> A * State.

Definition ret {A} (a : A) : M A := fun st => (a, st).

Definition bind {A B} (c : M A) (k : A -> M B) : M B :=
  fun st => let (a, st') := c st in k a st'.

Declare Scope tracer_scope.
Delimit Scope tracer_scope with tracer.
Notation "x <- c ;; k" := (bind c (fun x => k))
  (at level 61, c at next level, right associativity) : tracer_scope.
Notation "c ;; k" := (bind c (fun _ => k))
  (at level 61, right associativity) : tracer_scope.
Open Scope tracer_scope.

Definition when (b : bool) (c : M unit) : M unit :=
  if b then c else ret tt.

Definition get_lastShellc : M ADDRINT := fun st => (lastShellc st, st).
Definition put_lastShellc (p : ADDRINT) : M unit :=
  fun st => (tt, set_lastShellc p st).
Definition log (r : TraceRecord) : M unit := fun st => (tt, append_log r st).

Definition exec {A} (c : M A) (st : State) : State := snd (c st).

(** ** The module and section registry *)

Definition img_contains (a : ADDRINT) (m : IMG) : bool :=
  (IMG_LowAddress m <=? a) && (a <? IMG_LowAddress m + IMG_Size m).

(** Modelled from the spec: [IMG_FindByAddress] of the instrumentation
    engine, as [ModuleOf]: the image that contains the address, none when the
    address is outside every known image. *)
Definition IMG_FindByAddress (E : Env) (a : ADDRINT) : option IMG :=
  find (img_contains a) (images E).

Definition IMG_Valid (m : option IMG) : bool :=
  match m with Some _ => true | None => false end.

Definition traced_at (a : ADDRINT) (m : IMG) : bool :=
  isTraced m && img_contains a m.

(** Modelled from the spec: [ProcessInfo::isMyAddress], which is not part of
    the sources at hand, as [isTracedAddress]: the address lies within
    [base, base+size) of the traced module. *)
Definition isMyAddress (E : Env) (a : ADDRINT) : bool :=
  existsb (traced_at a) (images E).

(** Modelled from the spec: [addr_to_rva] of [Util.h], as [toOffset]: the
    address relative to the base of the traced module, the sentinel for an
    address outside it. *)
Definition addr_to_rva (E : Env) (a : ADDRINT) : ADDRINT :=
  match find (traced_at a) (images E) with
  | Some m => a - IMG_LowAddress m
  | None => UNKNOWN_ADDR E
  end.

Definition sec_contains (off : ADDRINT) (s : s_module) : bool :=
  (start s <=? off) && (off <? end_ s).

Definition traced_sections (E : Env) : list s_module :=
  match find isTraced (images E) with
  | Some m => IMG_Sections m
  | None => []
  end.

(** Modelled from the spec: [ProcessInfo::getSecByAddr], as [sectionAt]: a
    linear lookup by range containment in the sections of the traced module,
    none when no section covers the offset. *)
Definition getSecByAddr (E : Env) (off : ADDRINT) : option s_module :=
  find (sec_contains off) (traced_sections E).

Definition s_module_eq_dec (a b : s_module) : {a = b} + {a <> b}.
Proof.
  decide equality; first [apply Z.eq_dec | apply string_dec].
Defined.

Definition same_section (a b : option s_module) : bool :=
  match a, b with
  | Some x, Some y => if s_module_eq_dec x y then true else false
  | None, None => true
  | _, _ => false
  end.

(** Modelled from the spec: [ProcessInfo::updateTracedModuleSection], as
    [noteExecutionOffset]: the section of the offset is compared with the
    section of the cursor; when they differ the cursor moves to the offset
    and the answer is true, otherwise nothing changes and it is false. *)
Definition updateTracedModuleSection (E : Env) (rva : ADDRINT) : M bool :=
  fun st =>
    if same_section (getSecByAddr E rva)
                    (getSecByAddr E (lastKnownSectionOffset st))
    then (false, st)
    else (true, set_cursor rva st).

(** The name of a section, ["?"] when there is none. *)
Definition sec_name (sec : option s_module) : string :=
  match sec with Some s => name s | None => "?"%string end.

(** ** TinyTracer.cpp *)

Definition ConvertShcOption (value : Z) : t_shellc_options :=
  if value >=? SHELLC_OPTIONS_COUNT then SHELLC_FOLLOW_RECURSIVE
  else value.

(** A C integer used as a condition. *)
Definition truthy (v : Z) : bool := negb (v =? 0).

Definition _SaveTransitions (E : Env) (addrFrom addrTo : ADDRINT) : M unit :=
  let isTargetMy := isMyAddress E addrTo in
  let isCallerMy := isMyAddress E addrFrom in
  let targetModule := IMG_FindByAddress E addrTo in
  let callerModule := IMG_FindByAddress E addrFrom in
  let pageFrom := GetPageOfAddr E addrFrom in
  let pageTo := GetPageOfAddr E addrTo in
  (* is it a transition from the traced module to a foreign module? *)
  when (isCallerMy && negb isTargetMy) (
    let RvaFrom := addr_to_rva E addrFrom in
    match targetModule with
    | Some img =>
        let func := get_func_at E addrTo in
        let dll_name := IMG_Name img in
        log (logCall 0 RvaFrom true dll_name func)
    | None =>
        (* not in any of the mapped modules *)
        put_lastShellc pageTo ;;
        shc <- get_lastShellc ;;
        log (logCallPage 0 RvaFrom shc addrTo)
    end) ;;
  (* calls from within the last shellcode called from the traced module *)
  when (truthy (m_FollowShellcode E) && negb (IMG_Valid callerModule)) (
    let callerPage := pageFrom in
    shc <- get_lastShellc ;;
    when (negb (callerPage =? UNKNOWN_ADDR E) && (callerPage =? shc)) (
      match targetModule with
      | Some img =>
          let func := get_func_at E addrTo in
          let dll_name := IMG_Name img in
          log (logCall callerPage addrFrom false dll_name func)
      | None =>
          when (negb (pageFrom =? pageTo)
                && (m_FollowShellcode E =? SHELLC_FOLLOW_RECURSIVE))
            (put_lastShellc pageTo)
      end)) ;;
  (* is the address within the traced module? *)
  when isTargetMy (
    let rva := addr_to_rva E addrTo in
    changed <- updateTracedModuleSection E rva ;;
    when changed (
      let sec := getSecByAddr E rva in
      let curr_name := sec_name sec in
      when isCallerMy (
        let rvaFrom := addr_to_rva E addrFrom in
        let prev_sec := getSecByAddr E rvaFrom in
        let prev_name := sec_name prev_sec in
        log (logNewSectionCalled rvaFrom prev_name curr_name)) ;;
      log (logSectionChange rva curr_name))).

(** *** The timer *)

(** The registers of a captured context that the routines read. *)
Record CONTEXT := mk_context {
  REG_INST_PTR : ADDRINT;
  REG_GAX : ADDRINT;
  REG_GDX : ADDRINT
}.

(** A value stored in a [UINT64]. *)
Definition UINT64 (z : Z) : Z := z mod 2 ^ 64.

(** [_setTimer], with its static [Timer] passed in and handed back next to
    the result. *)
Definition _setTimer (ctxt : CONTEXT) (isEax : bool) (Timer : Z)
  : ADDRINT * Z :=
  let Timer' :=
    if Timer =? 0 then
      let edx := REG_GDX ctxt in
      let eax := REG_GAX ctxt in
      Z.lor (UINT64 (Z.shiftl (UINT64 edx) 32)) (UINT64 eax)
    else UINT64 (Timer + 100) in
  let result :=
    if isEax then Z.shiftr (UINT64 (Z.shiftl Timer' 32)) 32
    else Z.shiftr Timer' 32 in
  (result, Timer').

Definition AlterRdtscValueEdx (ctxt : CONTEXT) (Timer : Z) : ADDRINT * Z :=
  _setTimer ctxt false Timer.

Definition AlterRdtscValueEax (ctxt : CONTEXT) (Timer : Z) : ADDRINT * Z :=
  _setTimer ctxt true Timer.

(** What [InstrumentInstruction] arranges after one [rdtsc]: the routine for
    [REG_GDX] runs first and its result goes to that register, then the
    routine for [REG_GAX] runs and its result goes to that register. *)
Definition rdtsc_after (ctxt : CONTEXT) (Timer : Z) : CONTEXT * Z :=
  let (edx, Timer1) := AlterRdtscValueEdx ctxt Timer in
  let ctxt1 := mk_context (REG_INST_PTR ctxt) (REG_GAX ctxt) edx in
  let (eax, Timer2) := AlterRdtscValueEax ctxt1 Timer1 in
  (mk_context (REG_INST_PTR ctxt1) eax (REG_GDX ctxt1), Timer2).

(** *** The arguments of watched functions *)

Definition isWatchedAddress (E : Env) (Address : ADDRINT) : bool :=
  let currModule := IMG_FindByAddress E Address in
  let isCurrMy := isMyAddress E Address in
  if isCurrMy then true
  else if truthy (m_FollowShellcode E) && negb (IMG_Valid currModule) then
    let start := GetPageOfAddr E Address in
    if negb (start =? UNKNOWN_ADDR E) then true else false
  else false.

(** Wide strings are lists of 16-bit code units. *)
Definition wchar_t := Z.
Definition wstring := list wchar_t.

Definition widen_char (c : ascii) : wchar_t := Z.of_N (N_of_ascii c).
Definition narrow_char (w : wchar_t) : ascii := ascii_of_N (Z.to_N (w mod 256)).

(** A narrow literal or string written to a wide stream. *)
Definition L (s : string) : wstring := map widen_char (list_ascii_of_string s).

(** [std::string s(w.begin(), w.end())]: every unit cut to a byte. *)
Definition narrow (w : wstring) : string :=
  string_of_list_ascii (map narrow_char w).

(** The memory of the process, as the engine lets the tool see it: the bytes
    that can be read from an address on, up to the first one that cannot;
    none when the address itself is not readable. *)
Definition Memory := ADDRINT -> list Z.

Definition PIN_CheckReadAccess (mem : Memory) (a : ADDRINT) : bool :=
  match mem a with [] => false | _ :: _ => true end.

(** The same bytes read as 16-bit units, low byte first. *)
Fixpoint wchars_of (bytes : list Z) : list wchar_t :=
  match bytes with
  | lo :: hi :: rest => (lo + 256 * hi) :: wchars_of rest
  | _ => []
  end.

(** Modelled from the spec: the printable characters that
    [util::getAsciiLen] and [util::getAsciiLenW] of [Util.cpp] count, taken
    as the printable ASCII range. *)
Definition is_printable (c : Z) : bool := (32 <=? c) && (c <? 127).

(** Modelled from the spec: [util::getAsciiLen] and [util::getAsciiLenW],
    as the length of the maximal leading run of printable units, capped at
    [maxInp]; none when the scan meets a unit that cannot be read. *)
Fixpoint getAsciiLen (inp : list Z) (maxInp : nat) : option nat :=
  match maxInp with
  | O => Some O
  | S n =>
      match inp with
      | [] => None
      | c :: rest =>
          if is_printable c then option_map S (getAsciiLen rest n)
          else Some O
      end
  end.

Definition getAsciiLenW (inp : list wchar_t) (maxInp : nat) : option nat :=
  getAsciiLen inp maxInp.

(** A zero-terminated string written to a stream: the units before the
    first zero; none when there is no zero among the readable units. *)
Fixpoint c_str (units : list Z) : option (list Z) :=
  match units with
  | [] => None
  | c :: rest => if c =? 0 then Some [] else option_map (cons c) (c_str rest)
  end.

Definition kMaxStr : nat := 300.

(** The double quote written around a string. *)
Definition dquote : wstring := [34].

(** [paramToStr].  [hex] is what the stream library writes for a pointer
    under [std::hex]; a result of none is a read outside readable memory. *)
Definition paramToStr (hex : ADDRINT -> wstring) (mem : Memory)
  (arg1 : ADDRINT) : option wstring :=
  if arg1 =? 0 then Some (L "0")
  else
    let isReadableAddr := PIN_CheckReadAccess mem arg1 in
    if negb isReadableAddr then
      (* single value *)
      Some (hex arg1)
    else
      let val := mem arg1 in
      match getAsciiLen val kMaxStr with
      | None => None
      | Some len =>
          if (len =? 1)%nat then
            (* possible wide string *)
            let wval := wchars_of (mem arg1) in
            match getAsciiLenW wval kMaxStr with
            | None => None
            | Some wLen =>
                if (len <=? wLen)%nat then
                  option_map (fun s => L "L" ++ dquote ++ s ++ dquote)%list
                             (c_str wval)
                else Some (L "ptr " ++ hex arg1)%list
            end
          else if (1 <? len)%nat then
            (* ASCII string *)
            option_map (fun s => dquote ++ s ++ dquote)%list (c_str val)
          else
            (* none of the above, possible pointer to some structure *)
            Some (L "ptr " ++ hex arg1)%list
      end.

Definition argsMax : nat := 10.

(** What [operator<<] writes for an index. *)
Definition dec (i : nat) : wstring :=
  L (DecimalString.NilZero.string_of_uint (Nat.to_uint i)).

Definition tab : wstring := [9].
Definition newline : wstring := [10].

(** The loop of [_LogFunctionArgs] from index [i] on, over the arguments it
    still has to write. *)
Fixpoint args_lines (hex : ADDRINT -> wstring) (mem : Memory) (i : nat)
  (args : list ADDRINT) : option wstring :=
  match args with
  | [] => Some []
  | a :: rest =>
      match paramToStr hex mem a with
      | None => None
      | Some s =>
          option_map
            (fun tl => tab ++ L "Arg[" ++ dec i ++ L "] = " ++ s ++ newline
                       ++ tl)%list
            (args_lines hex mem (S i) rest)
      end
  end.

(** [_LogFunctionArgs]; none is a read outside readable memory while an
    argument is written. *)
Definition _LogFunctionArgs (E : Env) (hex : ADDRINT -> wstring)
  (mem : Memory) (Address : ADDRINT) (name : string) (argCount : Z)
  (arg1 arg2 arg3 arg4 arg5 arg6 arg7 arg8 arg9 arg10 : ADDRINT)
  : State -> option State :=
  fun st =>
    if negb (isWatchedAddress E Address) then Some st
    else
      let args :=
        [arg1; arg2; arg3; arg4; arg5; arg6; arg7; arg8; arg9; arg10] in
      (* i < argCount && i < argsMax *)
      let written := firstn (Nat.min (Z.to_nat argCount) argsMax) args in
      match args_lines hex mem 0 written with
      | None => None
      | Some argsLineW => Some (append_log (logLine (narrow argsLineW)) st)
      end.

(** *** Strings without case *)

Definition tolower (c : ascii) : ascii :=
  let n := nat_of_ascii c in
  if ((65 <=? n) && (n <=? 90))%nat then ascii_of_nat (n + 32) else c.

Fixpoint chars_equal_i (str1 str2 : string) : bool :=
  match str1, str2 with
  | String a r1, String b r2 =>
      if Ascii.eqb (tolower a) (tolower b) then chars_equal_i r1 r2
      else false
  | _, _ => true
  end.

Definition isStrEqualI (str1 str2 : string) : bool :=
  if negb (String.length str1 =? String.length str2)%nat then false
  else chars_equal_i str1 str2.

(** Modelled from the spec: [util::iequals] of [Util.cpp], a comparison
    that ignores case by ASCII ordinal folding. *)
Definition iequals (a b : string) : bool := isStrEqualI a b.

(** ** FuncWatch.cpp *)

(** An input stream: the characters not yet read and the two state bits the
    loops test.  A stream is good when neither bit is set. *)
Record istream := mk_istream {
  unread : list ascii;
  eofbit : bool;
  failbit : bool
}.

Definition open_stream (content : string) : istream :=
  mk_istream (list_ascii_of_string content) false false.

Definition good (f : istream) : bool := negb (eofbit f) && negb (failbit f).

(** How an extraction ended: at the end of the input, at the delimiter
    (which is taken out and dropped), or because the buffer is full. *)
Inductive extraction_end := at_eof | at_delimiter | at_capacity.

(** The extraction loop of [getline]: at most [room] characters are stored;
    the tests are made in the order end of input, delimiter, room. *)
Fixpoint extract_line (delim : ascii) (room : option nat) (l : list ascii)
  : string * list ascii * extraction_end :=
  match l with
  | [] => (EmptyString, [], at_eof)
  | c :: r =>
      if Ascii.eqb c delim then (EmptyString, r, at_delimiter)
      else
        match room with
        | Some O => (EmptyString, l, at_capacity)
        | _ =>
            let room' := match room with
                         | Some (S k) => Some k
                         | _ => None
                         end in
            let '(s, r', e) := extract_line delim room' r in
            (String c s, r', e)
        end
  end.

(** [std::getline(f, s, delimiter)] and [f.getline(buffer, count)], the
    latter with [room = Some (count - 1)].  A stream that is not good fails
    and nothing is read; an extraction that takes no character at all, or
    that stops on a full buffer, sets the fail bit. *)
Definition getline (f : istream) (delim : ascii) (room : option nat)
  : string * istream :=
  if negb (good f) then (EmptyString, mk_istream (unread f) (eofbit f) true)
  else
    let '(s, r, e) := extract_line delim room (unread f) in
    match e with
    | at_eof =>
        (s, mk_istream r true
              (match s with EmptyString => true | _ => false end))
    | at_delimiter => (s, mk_istream r false false)
    | at_capacity => (s, mk_istream r false true)
    end.

(** The loop of [split_list]: one iteration for each unit of [fuel]. *)
Fixpoint split_loop (fuel : nat) (f : istream) (delimiter : ascii)
  (args : list string) : option (list string) :=
  match fuel with
  | O => None
  | S n =>
      let (s, f') := getline f delimiter None in
      if failbit f' then Some args
      else split_loop n f' delimiter (args ++ [s])
  end.

(** [split_list], which hands back the vector it filled; the loop ends
    within [length sline + 2] iterations ([split_loop_ends] below). *)
Definition split_list (sline : string) (delimiter : ascii)
  (args : list string) : list string :=
  match split_loop (String.length sline + 2) (open_stream sline) delimiter
                   args with
  | Some args' => args'
  | None => args
  end.

Record WFuncInfo := mk_func {
  dllName : string;
  funcName : string;
  paramCount : Z
}.

Definition is_space (c : ascii) : bool :=
  let n := nat_of_ascii c in ((n =? 32) || ((9 <=? n) && (n <=? 13)))%nat.

Definition digit_value (c : ascii) : option Z :=
  let n := nat_of_ascii c in
  if ((48 <=? n) && (n <=? 57))%nat then Some (Z.of_nat n - 48) else None.

Fixpoint skip_spaces (s : string) : string :=
  match s with
  | String c r => if is_space c then skip_spaces r else s
  | EmptyString => s
  end.

Fixpoint read_digits (acc : Z) (s : string) : Z :=
  match s with
  | String c r =>
      match digit_value c with
      | Some d => read_digits (10 * acc + d) r
      | None => acc
      end
  | EmptyString => acc
  end.

(** Modelled from the spec: the extraction [ss >> this->paramCount], into a
    field whose declaration is in [FuncWatch.h], as the reading of a decimal
    non-negative integer that yields zero when there is none to read.  This
    is what the extraction stores for a field that, after its leading
    spaces, starts with a run of digits whose value fits the type of the
    field, and for one that starts with neither a digit nor a sign.  A field
    that starts with a sign, which the extraction accepts, and a run of
    digits too large for the type, which the extraction cuts to the largest
    value of the type, depend on the declaration that is missing and are
    read here as the spec has them: a sign as no number, and a number of any
    size as itself. *)
Definition parse_paramCount (field : string) : Z :=
  read_digits 0 (skip_spaces field).

(** [WFuncInfo::load]: the answer and the object after the call. *)
Definition load (this : WFuncInfo) (sline : string) (delimiter : ascii)
  : bool * WFuncInfo :=
  let args := split_list sline delimiter [] in
  if (List.length args <? 3)%nat then (false, this)
  else
    (true, mk_func (nth 0 args EmptyString) (nth 1 args EmptyString)
                   (parse_paramCount (nth 2 args EmptyString))).

(** [WFuncInfo::update]. *)
Definition update (this func_info : WFuncInfo) : bool * WFuncInfo :=
  if paramCount this <? paramCount func_info then
    (true, mk_func (dllName this) (funcName this) (paramCount func_info))
  else (false, this).

(** [FuncWatchList::findFunc]: the position of the entry found, for the
    pointer into the vector. *)
Fixpoint findFunc (funcs : list WFuncInfo) (dllName' funcName' : string)
  : option nat :=
  match funcs with
  | [] => None
  | info :: rest =>
      if iequals (dllName info) dllName' && iequals (funcName info) funcName'
      then Some O
      else option_map S (findFunc rest dllName' funcName')
  end.

(** The vector with the entry at a position replaced. *)
Fixpoint set_nth (i : nat) (x : WFuncInfo) (l : list WFuncInfo)
  : list WFuncInfo :=
  match l, i with
  | [], _ => []
  | _ :: r, O => x :: r
  | y :: r, S k => y :: set_nth k x r
  end.

(** [FuncWatchList::appendFunc].  [isValid] is [WFuncInfo::isValid], whose
    body is in [FuncWatch.h]. *)
Definition appendFunc (isValid : WFuncInfo -> bool)
  (funcs : list WFuncInfo) (func_info : WFuncInfo)
  : bool * list WFuncInfo :=
  if negb (isValid func_info) then (false, funcs)
  else
    match findFunc funcs (dllName func_info) (funcName func_info) with
    | None => (true, funcs ++ [func_info])
    | Some i =>
        match nth_error funcs i with
        | Some found => (true, set_nth i (snd (update found func_info)) funcs)
        | None => (true, funcs)
        end
    end.

Definition MAX_LINE : nat := 300.

(** The buffer handed to [load]: a C string, which ends at its first zero
    character. *)
Fixpoint string_of_buffer (s : string) : string :=
  match s with
  | String c r =>
      if Ascii.eqb c zero then EmptyString else String c (string_of_buffer r)
  | EmptyString => EmptyString
  end.

(** A newly constructed [WFuncInfo]; [load] sets all its fields or leaves
    it to be dropped, so the values here are never seen. *)
Definition new_WFuncInfo : WFuncInfo := mk_func EmptyString EmptyString 0.

(** The loop of [loadList]: one iteration for each unit of [fuel]; none when
    the fuel is used up before the stream reports its end. *)
Fixpoint loadList_loop (isValid : WFuncInfo -> bool) (fuel : nat)
  (myfile : istream) (funcs : list WFuncInfo) : option (list WFuncInfo) :=
  match fuel with
  | O => None
  | S n =>
      if eofbit myfile then Some funcs
      else
        let (line, myfile') := getline myfile "010"%char (Some (MAX_LINE - 1)%nat) in
        let (loaded, func_info) :=
          load new_WFuncInfo (string_of_buffer line) ";"%char in
        let funcs' :=
          if loaded then snd (appendFunc isValid funcs func_info)
          else funcs in
        loadList_loop isValid n myfile' funcs'
  end.

(** [FuncWatchList::loadList]: the file is its content, none when it cannot
    be opened; the answer is the count returned and the list after. *)
Definition loadList (isValid : WFuncInfo -> bool) (fuel : nat)
  (file : option string) (funcs : list WFuncInfo)
  : option (nat * list WFuncInfo) :=
  match file with
  | None => Some (O, funcs)
  | Some content =>
      option_map (fun fs => (List.length fs, fs))
                 (loadList_loop isValid fuel (open_stream content) funcs)
  end.

(** ** What one edge adds to the log *)

(** The records a routine appends when run from a state. *)
Definition emitted {A} (c : M A) (st : State) : list TraceRecord :=
  skipn (List.length (traceLog st)) (traceLog (exec c st)).

Definition is_call (r : TraceRecord) : bool :=
  match r with
  | logCall _ _ _ _ _ | logCallPage _ _ _ _ => true
  | _ => false
  end.

Definition is_section_change (r : TraceRecord) : bool :=
  match r with logSectionChange _ _ => true | _ => false end.

Definition is_section_entry (r : TraceRecord) : bool :=
  match r with logNewSectionCalled _ _ _ => true | _ => false end.

Definition count (p : TraceRecord -> bool) (l : list TraceRecord) : nat :=
  List.length (filter p l).

(** The two places of [_SaveTransitions] that assign [lastShellc], as
    conditions on the edge and on the state it meets: the call from the
    traced module to an address outside every image, and the hop from the
    page that is followed to another page outside every image, under
    [SHELLC_FOLLOW_RECURSIVE]. *)
Definition leaves_to_unmapped (E : Env) (addrFrom addrTo : ADDRINT) : bool :=
  isMyAddress E addrFrom && negb (isMyAddress E addrTo)
  && negb (IMG_Valid (IMG_FindByAddress E addrTo)).

Definition hops_from_followed (E : Env) (st : State)
  (addrFrom addrTo : ADDRINT) : bool :=
  (m_FollowShellcode E =? SHELLC_FOLLOW_RECURSIVE)
  && negb (IMG_Valid (IMG_FindByAddress E addrFrom))
  && negb (GetPageOfAddr E addrFrom =? UNKNOWN_ADDR E)
  && (GetPageOfAddr E addrFrom =? lastShellc st)
  && negb (IMG_Valid (IMG_FindByAddress E addrTo))
  && negb (GetPageOfAddr E addrFrom =? GetPageOfAddr E addrTo).

Definition assigns (E : Env) (st : State) (addrFrom addrTo : ADDRINT) : bool :=
  leaves_to_unmapped E addrFrom addrTo
  || hops_from_followed E st addrFrom addrTo.

(** A session: the edges are handled one after the other. *)
Fixpoint run (E : Env) (edges : list (ADDRINT * ADDRINT)) (st : State)
  : State :=
  match edges with
  | [] => st
  | (addrFrom, addrTo) :: rest =>
      run E rest (exec (_SaveTransitions E addrFrom addrTo) st)
  end.

(** The condition under which the transition classifier acts on an edge
    that starts at an address, read off [_SaveTransitions]: the address is in
    the traced module, or following is on and the address is outside every
    image, on a known page that is the page followed. *)
Definition classifier_eligible (E : Env) (st : State) (a : ADDRINT) : bool :=
  isMyAddress E a
  || (truthy (m_FollowShellcode E)
      && negb (IMG_Valid (IMG_FindByAddress E a))
      && negb (GetPageOfAddr E a =? UNKNOWN_ADDR E)
      && (GetPageOfAddr E a =? lastShellc st)).

(** ** A session used in the examples

    The traced module at [0x400000] with [.text] and [.data], a library at
    [0x70000000], pages of [0x1000] bytes. *)

Definition sec_text : s_module := mk_section ".text" 0 0x1000.
Definition sec_data : s_module := mk_section ".data" 0x1000 0x2000.

Definition img_target : IMG :=
  mk_img "target.exe" 0x400000 0x2000 [sec_text; sec_data] true.

Definition img_kernel32 : IMG :=
  mk_img "kernel32.dll" 0x70000000 0x10000 [] false.

Definition demo_page (a : ADDRINT) : ADDRINT := Z.shiftl (Z.shiftr a 12) 12.

Definition demo_func (a : ADDRINT) : string :=
  if a =? 0x70001000 then "CreateFileW"%string else "?"%string.

Definition demo_env (follow : t_shellc_options) : Env :=
  mk_env (2 ^ 64 - 1) demo_page demo_func [img_target; img_kernel32] follow.

Definition demo_state : State := mk_state (2 ^ 64 - 1) 0 [].

(** A state in which the page at [0x5000] is the one followed. *)
Definition following_0x5000 : State := mk_state 0x5000 0 [].

(** A stream that writes a pointer as [0x] and lower-case digits. *)
Definition demo_hex (a : ADDRINT) : wstring :=
  L ("0x" ++ HexadecimalString.NilZero.string_of_uint
               (N.to_hex_uint (Z.to_N a))).

(** The bytes of a narrow string. *)
Definition bytes_of (s : string) : list Z :=
  map widen_char (list_ascii_of_string s).

(** A memory with [C:\a.txt] and its final zero at [0x1000], the wide
    string [ab] and its final zero unit at [0x2000], and nothing else. *)
Definition demo_mem : Memory :=
  fun a =>
    if a =? 0x1000 then (bytes_of "C:\a.txt" ++ [0])%list
    else if a =? 0x2000 then [0x61; 0; 0x62; 0; 0; 0]
    else [].

(** The value of the register pair that seeds the timer. *)
Definition timer_seed (ctxt : CONTEXT) : Z :=
  Z.lor (UINT64 (Z.shiftl (UINT64 (REG_GDX ctxt)) 32)) (UINT64 (REG_GAX ctxt)).

(** Register contents used in the examples: a pair that reads
    [0x10000009C], a pair of zeros, and a pair that reads 7. *)
Definition demo_ctxt : CONTEXT := mk_context 0x400500 0x9C 0x1.
Definition ctxt_zero : CONTEXT := mk_context 0x400500 0 0.
Definition ctxt_seven : CONTEXT := mk_context 0x400600 7 0.

(** The key of an entry matches the key of another, as [findFunc] tests
    it. *)
Definition same_key (info func_info : WFuncInfo) : bool :=
  iequals (dllName info) (dllName func_info)
  && iequals (funcName info) (funcName func_info).

(** A string with its capital letters folded. *)
Fixpoint lower (s : string) : string :=
  match s with
  | String c r => String (tolower c) (lower r)
  | EmptyString => EmptyString
  end.

(** The names of the entries, in order. *)
Definition names (funcs : list WFuncInfo) : list (string * string) :=
  map (fun w => (dllName w, funcName w)) funcs.

(** An entry is kept or widened: same names, and a count that is not
    smaller. *)
Definition widened (x x' : WFuncInfo) : Prop :=
  dllName x' = dllName x /\ funcName x' = funcName x
  /\ paramCount x <= paramCount x'.

(** Entries and files used in the examples. *)
Definition CreateFileW_3 : WFuncInfo := mk_func "k32.dll" "CreateFileW" 3.
Definition CreateFileW_7 : WFuncInfo := mk_func "k32.dll" "CreateFileW" 7.

Definition newline_char : string := String "010"%char EmptyString.

(** A validity test that asks for a module name and a function name. *)
Definition has_names (w : WFuncInfo) : bool :=
  negb (String.length (dllName w) =? 0)%nat
  && negb (String.length (funcName w) =? 0)%nat.

(** A line of 300 letters, without a delimiter. *)
Definition long_line : string := string_of_list_ascii (repeat "x"%char 300).

Definition file_with_short_line : string :=
  ("no fields here" ++ newline_char
   ++ "k32.dll;CreateFileW;3" ++ newline_char)%string.

Definition file_with_long_line : string :=
  (long_line ++ newline_char
   ++ "k32.dll;CreateFileW;3" ++ newline_char)%string.

(** One iteration of the loop of [loadList] on a line already read. *)
Definition load_line (isValid : WFuncInfo -> bool) (funcs : list WFuncInfo)
  (line : string) : list WFuncInfo :=
  let (loaded, func_info) :=
    load new_WFuncInfo (string_of_buffer line) ";"%char in
  if loaded then snd (appendFunc isValid funcs func_info) else funcs.

(** A file made of lines, each closed by a newline. *)
Definition file_of_lines (lines : list string) : string :=
  fold_right (fun line rest => (line ++ newline_char ++ rest)%string)
             EmptyString lines.

(** A line that fits the buffer of [loadList] with its final zero. *)
Definition fits_buffer (line : string) : Prop :=
  (String.length line < MAX_LINE)%nat
  /\ ~ In "010"%char (list_ascii_of_string line).

(** ** The rest of the two files *)

(** [SaveTransitions] and [OnCtxChange]: the same routine, run under the
    client lock, which a run of one event at a time does not see.  The second
    takes the two addresses from the contexts and does nothing when one of
    them is null. *)
Definition SaveTransitions (E : Env) (prevVA Address : ADDRINT) : M unit :=
  _SaveTransitions E prevVA Address.

Definition OnCtxChange (E : Env) (ctxtFrom ctxtTo : option CONTEXT) : M unit :=
  match ctxtTo, ctxtFrom with
  | Some to, Some from =>
      let addrFrom := REG_INST_PTR from in
      let addrTo := REG_INST_PTR to in
      _SaveTransitions E addrFrom addrTo
  | _, _ => ret tt
  end.

(** The records of [logRdtsc] and [logCpuid], which [RdtscCalled] and
    [CpuidCalled] write and no other routine does. *)
Inductive TimingRecord :=
| logRdtsc (base rva : ADDRINT)
| logCpuid (base rva param : ADDRINT).

(** The difference of two addresses in an [ADDRINT] of [bits] bits. *)
Definition sub_addr (bits : Z) (a b : ADDRINT) : ADDRINT :=
  (a - b) mod 2 ^ bits.

(** [RdtscCalled]: the records it writes. *)
Definition RdtscCalled (bits : Z) (E : Env) (ctxt : CONTEXT)
  : list TimingRecord :=
  let Address := REG_INST_PTR ctxt in
  let currModule := IMG_FindByAddress E Address in
  let isCurrMy := isMyAddress E Address in
  ((if isCurrMy then
      let rva := addr_to_rva E Address in
      [logRdtsc 0 rva]
    else [])
   ++
   (if truthy (m_FollowShellcode E) && negb (IMG_Valid currModule) then
      let start := GetPageOfAddr E Address in
      let rva := sub_addr bits Address start in
      if negb (start =? UNKNOWN_ADDR E) then [logRdtsc start rva] else []
    else []))%list.

(** [CpuidCalled]: the records it writes. *)
Definition CpuidCalled (bits : Z) (E : Env) (ctxt : CONTEXT)
  : list TimingRecord :=
  let Address := REG_INST_PTR ctxt in
  let Param := REG_GAX ctxt in
  let currModule := IMG_FindByAddress E Address in
  let isCurrMy := isMyAddress E Address in
  ((if isCurrMy then
      let rva := addr_to_rva E Address in
      [logCpuid 0 rva Param]
    else [])
   ++
   (if truthy (m_FollowShellcode E) && negb (IMG_Valid currModule) then
      let start := GetPageOfAddr E Address in
      let rva := sub_addr bits Address start in
      if negb (start =? UNKNOWN_ADDR E) then [logCpuid start rva Param]
      else []
    else []))%list.

(** The environment with another follow mode. *)
Definition with_follow (mode : t_shellc_options) (E : Env) : Env :=
  mk_env (UNKNOWN_ADDR E) (GetPageOfAddr E) (get_func_at E) (images E) mode.

(** A run of reads of the timer, each with the context it sees and the
    register it is for. *)
Fixpoint timer_reads (reads : list (CONTEXT * bool)) (Timer : Z) : Z :=
  match reads with
  | [] => Timer
  | (ctxt, isEax) :: rest => timer_reads rest (snd (_setTimer ctxt isEax Timer))
  end.

(** A probe put at the entry of a routine by [MonitorFunctionArgs]: the
    routine, the name handed to [LogFunctionArgs] and the count, which is
    passed as a 32-bit value. *)
Record Probe := mk_probe {
  probe_rtn : ADDRINT;
  probe_name : string;
  probe_argCount : Z
}.

(** [MonitorFunctionArgs]: the probes it inserts.  [RTN_FindByName] is the
    engine's lookup of a routine by name in an image, none when the routine
    is not valid. *)
Definition MonitorFunctionArgs (isValid : WFuncInfo -> bool)
  (RTN_FindByName : IMG -> string -> option ADDRINT)
  (Image : IMG) (funcInfo : WFuncInfo) : list Probe :=
  let fName := funcName funcInfo in
  let argNum := paramCount funcInfo in
  match RTN_FindByName Image fName with
  | None => []
  | Some funcRtn =>
      if negb (isValid funcInfo) then []
      else [mk_probe funcRtn fName (argNum mod 2 ^ 32)]
  end.

(** The loop of [ImageLoad] over the watch list.  [getDllName] is
    [util::getDllName], whose body is in [Util.cpp]. *)
Definition ImageLoad (isValid : WFuncInfo -> bool)
  (getDllName : string -> string)
  (RTN_FindByName : IMG -> string -> option ADDRINT)
  (funcs : list WFuncInfo) (Image : IMG) : list Probe :=
  flat_map
    (fun w =>
       let dllName' := getDllName (IMG_Name Image) in
       if iequals dllName' (dllName w)
       then MonitorFunctionArgs isValid RTN_FindByName Image w
       else [])
    funcs.

(** The loop of [main] that looks for the name of the application: from
    [argv[i]] on, with [argv[i + 1]] still in the array. *)
Fixpoint app_after_dashes (args : list string) : string :=
  match args with
  | a :: ((b :: _) as rest) =>
      if String.eqb a "--" then b else app_after_dashes rest
  | _ => EmptyString
  end.

(** The [app_name] that [main] hands to [pInfo.init]. *)
Definition app_name_of (KnobModuleName : string) (argv : list string)
  : string :=
  if (String.length KnobModuleName =? 0)%nat then app_after_dashes (tl argv)
  else KnobModuleName.

(** The fields of a line put together again, with the delimiter between
    them. *)
Fixpoint join (delimiter : ascii) (fields : list string) : string :=
  match fields with
  | [] => EmptyString
  | f :: rest =>
      match rest with
      | [] => f
      | _ :: _ => (f ++ String delimiter (join delimiter rest))%string
      end
  end.

(** A string without the delimiter. *)
Definition lacks (delimiter : ascii) (s : string) : Prop :=
  ~ In delimiter (list_ascii_of_string s).

(** No entry of the list has the key of an earlier one. *)
Definition unique_keys (funcs : list WFuncInfo) : Prop :=
  ForallOrdPairs (fun x y => same_key x y = false) funcs.

(** An image that exports [CreateFileW] and nothing else, and a watch list
    with one entry the image has and one it has not. *)
Definition demo_exports (Image : IMG) (fName : string) : option ADDRINT :=
  if String.eqb fName "CreateFileW" then Some 0x70001000 else None.

Definition demo_watch : list WFuncInfo :=
  [mk_func "KERNEL32.DLL" "CreateFileW" 3; mk_func "kernel32.dll" "ReadFile" 2].

(** A memory whose last three readable bytes are [41 42 01], at the end of
    the page at [0x10000]. *)
Definition last_bytes : Memory :=
  fun a =>
    if a =? 0x10FFD then [0x41; 0x42; 0x01]
    else if a =? 0x10FFE then [0x42; 0x01]
    else if a =? 0x10FFF then [0x01]
    else [].

(** A traced image whose last page belongs to no section, and a run over
    it. *)
Definition img_gap : IMG :=
  mk_img "packed.exe" 0x400000 0x3000 [sec_text; sec_data] true.

Definition gap_env : Env :=
  mk_env (2 ^ 64 - 1) demo_page demo_func [img_gap; img_kernel32] 0.

(** The call-out that the second block of [_SaveTransitions] writes for an
    edge: the one of an origin outside every image, on the page followed,
    into a known image, while following is on; nothing otherwise. *)
Definition followed_call (E : Env) (st : State) (addrFrom addrTo : ADDRINT)
  : list TraceRecord :=
  if truthy (m_FollowShellcode E)
     && negb (IMG_Valid (IMG_FindByAddress E addrFrom))
     && negb (GetPageOfAddr E addrFrom =? UNKNOWN_ADDR E)
     && (GetPageOfAddr E addrFrom =? lastShellc st)
  then
    match IMG_FindByAddress E addrTo with
    | Some img =>
        [logCall (GetPageOfAddr E addrFrom) addrFrom false
                 (IMG_Name img) (get_func_at E addrTo)]
    | None => []
    end
  else [].

(** * Properties *)

(** ** The follow mode *)

(** C10: [ConvertShcOption] sends every value from [SHELLC_OPTIONS_COUNT]
    (3) on to [SHELLC_FOLLOW_RECURSIVE] and leaves 0, 1 and 2 as they are, so
    a flag out of range turns recursive following on. *)
Theorem ConvertShcOption_clamps :
  (forall value, SHELLC_OPTIONS_COUNT <= value ->
     ConvertShcOption value = SHELLC_FOLLOW_RECURSIVE)
  /\ ConvertShcOption 0 = SHELLC_DO_NOT_FOLLOW
  /\ ConvertShcOption 1 = SHELLC_FOLLOW_FIRST
  /\ ConvertShcOption 2 = SHELLC_FOLLOW_RECURSIVE
  /\ SHELLC_OPTIONS_COUNT = 3.
Proof.
  repeat split; try reflexivity.
  intros value Hge. unfold ConvertShcOption.
  destruct (value >=? SHELLC_OPTIONS_COUNT) eqn:Hcmp; [reflexivity|].
  rewrite Z.geb_leb in Hcmp. apply Z.leb_gt in Hcmp. lia.
Qed.

(** A negative value is below the bound and passes through as it is: it is
    no named mode, and it counts as following since it is not 0. *)
Example ConvertShcOption_negative :
  ConvertShcOption (-1) = -1 /\ truthy (ConvertShcOption (-1)) = true.
Proof. split; reflexivity. Qed.

Lemma ConvertShcOption_clamps_witness :
  SHELLC_OPTIONS_COUNT <= 7 /\ ConvertShcOption 7 = SHELLC_FOLLOW_RECURSIVE.
Proof.
  split.
  - unfold SHELLC_OPTIONS_COUNT. lia.
  - apply (proj1 ConvertShcOption_clamps). unfold SHELLC_OPTIONS_COUNT. lia.
Defined.

(** ** The registry *)

Section Registry.
Variable E : Env.

Lemma isMyAddress_mapped (a : ADDRINT) :
  isMyAddress E a = true -> IMG_Valid (IMG_FindByAddress E a) = true.
Proof.
  unfold isMyAddress, IMG_FindByAddress. intros H.
  apply existsb_exists in H. destruct H as [m [Hin Hm]].
  destruct (find (img_contains a) (images E)) eqn:Hf; [reflexivity|].
  pose proof (find_none _ _ Hf m Hin) as Hn.
  unfold traced_at in Hm. apply andb_true_iff in Hm. destruct Hm as [_ Hc].
  congruence.
Qed.

Lemma same_section_true (a b : option s_module) :
  same_section a b = true <-> a = b.
Proof.
  destruct a as [x|], b as [y|]; simpl; try (split; congruence).
  destruct (s_module_eq_dec x y); split; congruence.
Qed.

Lemma same_section_refl (a : option s_module) : same_section a a = true.
Proof. apply same_section_true. reflexivity. Qed.

Lemma same_section_false (a b : option s_module) :
  a <> b -> same_section a b = false.
Proof.
  intros H. destruct (same_section a b) eqn:Hs; [|reflexivity].
  apply same_section_true in Hs. contradiction.
Qed.
End Registry.

Lemma skipn_length_app {A} (l k : list A) : skipn (List.length l) (l ++ k) = k.
Proof. induction l; simpl; auto. Qed.

(** Unfolds one run of [_SaveTransitions] into its branches. *)
Ltac unfold_step :=
  unfold emitted, exec, _SaveTransitions, bind, when, ret, log,
    put_lastShellc, get_lastShellc, updateTracedModuleSection; simpl.

(** The first test of a compound condition. *)
Ltac atom_of b :=
  lazymatch b with
  | (?x && _)%bool => atom_of x
  | (?x || _)%bool => atom_of x
  | negb ?x => atom_of x
  | IMG_Valid ?x => x
  | _ => b
  end.

(** Splits on the first condition or image lookup met in the goal. *)
Ltac split_cond :=
  match goal with
  | |- context [match ?b with _ => _ end] =>
      lazymatch type of b with
      | bool => let a := atom_of b in destruct a eqn:?; simpl
      | option IMG => destruct b eqn:?; simpl
      end
  end.

(** ** The transition classifier *)

Section Classifier.
Variable E : Env.

Lemma call_out_step
  (st : State) (addrFrom addrTo : ADDRINT) (img : IMG) :
  isMyAddress E addrFrom = true ->
  isMyAddress E addrTo = false ->
  IMG_FindByAddress E addrTo = Some img ->
  _SaveTransitions E addrFrom addrTo st =
    (tt, append_log (logCall 0 (addr_to_rva E addrFrom) true
                             (IMG_Name img) (get_func_at E addrTo)) st).
Proof.
  intros Hfrom Hto Himg.
  pose proof (isMyAddress_mapped E addrFrom Hfrom) as Hmapped.
  unfold_step. rewrite Hfrom, Hto, Himg. simpl.
  rewrite Hmapped. simpl. rewrite andb_false_r. reflexivity.
Qed.

(** C1: an edge from the traced module to an address outside it that lies
    in a known image adds exactly one record to the log, the call-out made
    by the module overload of [logCall] with the offset of the origin, the
    name of the image and the symbol at the target; no section record is
    written and the rest of the state stays as it was. *)
Theorem call_out_to_known_module
  (st : State) (addrFrom addrTo : ADDRINT) (img : IMG) :
  isMyAddress E addrFrom = true ->
  isMyAddress E addrTo = false ->
  IMG_FindByAddress E addrTo = Some img ->
  let record := logCall 0 (addr_to_rva E addrFrom) true
                        (IMG_Name img) (get_func_at E addrTo) in
  emitted (_SaveTransitions E addrFrom addrTo) st = [record]
  /\ count is_call (emitted (_SaveTransitions E addrFrom addrTo) st) = 1%nat
  /\ count is_section_change
        (emitted (_SaveTransitions E addrFrom addrTo) st) = 0%nat
  /\ count is_section_entry
        (emitted (_SaveTransitions E addrFrom addrTo) st) = 0%nat
  /\ exec (_SaveTransitions E addrFrom addrTo) st = append_log record st.
Proof.
  intros Hfrom Hto Himg record.
  pose proof (call_out_step st addrFrom addrTo img Hfrom Hto Himg) as Hrun.
  assert (Hout : emitted (_SaveTransitions E addrFrom addrTo) st = [record]).
  { unfold emitted, exec. rewrite Hrun. simpl. apply skipn_length_app. }
  rewrite Hout. unfold exec. rewrite Hrun.
  repeat split.
Qed.

(** Every run only appends to the log. *)
Lemma SaveTransitions_appends (st : State) (addrFrom addrTo : ADDRINT) :
  traceLog (exec (_SaveTransitions E addrFrom addrTo) st) =
    (traceLog st ++ emitted (_SaveTransitions E addrFrom addrTo) st)%list.
Proof.
  assert (Hpre : exists k, traceLog (exec (_SaveTransitions E addrFrom addrTo) st)
                           = (traceLog st ++ k)%list).
  { unfold_step.
    repeat split_cond;
      repeat rewrite <- app_assoc; eexists; try reflexivity;
      symmetry; apply app_nil_r. }
  destruct Hpre as [k Hk]. unfold emitted. rewrite Hk.
  rewrite skipn_length_app. reflexivity.
Qed.

Lemma crossing_emits (st : State) (addrFrom addrTo : ADDRINT) :
  isMyAddress E addrTo = true ->
  getSecByAddr E (addr_to_rva E addrTo)
    <> getSecByAddr E (lastKnownSectionOffset st) ->
  exists calls,
    forallb is_call calls = true
    /\ emitted (_SaveTransitions E addrFrom addrTo) st
       = (calls
          ++ (if isMyAddress E addrFrom
              then [logNewSectionCalled
                      (addr_to_rva E addrFrom)
                      (sec_name (getSecByAddr E (addr_to_rva E addrFrom)))
                      (sec_name (getSecByAddr E (addr_to_rva E addrTo)))]
              else [])
          ++ [logSectionChange
                (addr_to_rva E addrTo)
                (sec_name (getSecByAddr E (addr_to_rva E addrTo)))])%list.
Proof.
  intros Hto Hcross.
  pose proof (isMyAddress_mapped E addrTo Hto) as Hmapped.
  apply (same_section_false) in Hcross.
  unfold_step.
  rewrite Hto. rewrite andb_false_r. simpl.
  destruct (IMG_FindByAddress E addrTo) as [img|] eqn:Himg;
    [|discriminate Hmapped].
  destruct (isMyAddress E addrFrom) eqn:Hfrom.
  - rewrite (isMyAddress_mapped E addrFrom Hfrom). rewrite andb_false_r.
    simpl. rewrite Hcross. simpl.
    exists []. split; [reflexivity|].
    rewrite <- app_assoc. apply skipn_length_app.
  - destruct (truthy (m_FollowShellcode E)
              && negb (IMG_Valid (IMG_FindByAddress E addrFrom))); simpl.
    + destruct (negb (GetPageOfAddr E addrFrom =? UNKNOWN_ADDR E)
                && (GetPageOfAddr E addrFrom =? lastShellc st)); simpl;
        rewrite Hcross; simpl.
      * exists [logCall (GetPageOfAddr E addrFrom) addrFrom false
                        (IMG_Name img) (get_func_at E addrTo)].
        split; [reflexivity|].
        rewrite <- app_assoc. apply skipn_length_app.
      * exists []. split; [reflexivity|]. apply skipn_length_app.
    + rewrite Hcross. simpl.
      exists []. split; [reflexivity|]. apply skipn_length_app.
Qed.

Lemma count_after_calls (p : TraceRecord -> bool)
  (calls rest : list TraceRecord) :
  (forall r, is_call r = true -> p r = false) ->
  forallb is_call calls = true ->
  count p (calls ++ rest) = count p rest.
Proof.
  intros Hp Hcalls. unfold count. rewrite filter_app.
  assert (Hnone : filter p calls = []).
  { induction calls as [|r calls IH]; [reflexivity|].
    simpl in Hcalls. apply andb_true_iff in Hcalls. destruct Hcalls as [Hr Hc].
    simpl. rewrite (Hp r Hr). apply IH. exact Hc. }
  rewrite Hnone. reflexivity.
Qed.

Lemma call_is_no_section_change (r : TraceRecord) :
  is_call r = true -> is_section_change r = false.
Proof. destruct r; simpl; congruence. Qed.

Lemma call_is_no_section_entry (r : TraceRecord) :
  is_call r = true -> is_section_entry r = false.
Proof. destruct r; simpl; congruence. Qed.

Lemma crossing_step (st : State) (addrFrom addrTo : ADDRINT) :
  isMyAddress E addrTo = true ->
  getSecByAddr E (addr_to_rva E addrTo)
    <> getSecByAddr E (lastKnownSectionOffset st) ->
  emitted (_SaveTransitions E addrFrom addrTo) st
  = (followed_call E st addrFrom addrTo
     ++ (if isMyAddress E addrFrom
         then [logNewSectionCalled
                 (addr_to_rva E addrFrom)
                 (match getSecByAddr E (addr_to_rva E addrFrom) with
                  | Some sec => name sec
                  | None => "?"%string
                  end)
                 (match getSecByAddr E (addr_to_rva E addrTo) with
                  | Some sec => name sec
                  | None => "?"%string
                  end)]
         else [])
     ++ [logSectionChange
           (addr_to_rva E addrTo)
           (match getSecByAddr E (addr_to_rva E addrTo) with
            | Some sec => name sec
            | None => "?"%string
            end)])%list
  /\ lastKnownSectionOffset (exec (_SaveTransitions E addrFrom addrTo) st)
     = addr_to_rva E addrTo
  /\ lastShellc (exec (_SaveTransitions E addrFrom addrTo) st)
     = lastShellc st.
Proof.
  intros Hto Hcross.
  pose proof (isMyAddress_mapped E addrTo Hto) as Hmapped.
  apply (same_section_false) in Hcross.
  unfold followed_call. unfold_step. unfold sec_name.
  rewrite Hto. rewrite andb_false_r. simpl.
  destruct (IMG_FindByAddress E addrTo) as [img|] eqn:Himg;
    [|discriminate Hmapped].
  destruct (isMyAddress E addrFrom) eqn:Hfrom.
  - rewrite (isMyAddress_mapped E addrFrom Hfrom). rewrite andb_false_r.
    simpl. rewrite Hcross. simpl.
    split; [|split; reflexivity].
    rewrite <- app_assoc. apply skipn_length_app.
  - destruct (truthy (m_FollowShellcode E)
              && negb (IMG_Valid (IMG_FindByAddress E addrFrom))); simpl.
    + destruct (negb (GetPageOfAddr E addrFrom =? UNKNOWN_ADDR E)
                && (GetPageOfAddr E addrFrom =? lastShellc st)); simpl;
        rewrite Hcross; simpl.
      * split; [|split; reflexivity].
        rewrite <- app_assoc. apply skipn_length_app.
      * split; [|split; reflexivity]. apply skipn_length_app.
    + rewrite Hcross. simpl.
      split; [|split; reflexivity]. apply skipn_length_app.
Qed.

Lemma followed_call_is_call (st : State) (addrFrom addrTo : ADDRINT) :
  forallb is_call (followed_call E st addrFrom addrTo) = true
  /\ (List.length (followed_call E st addrFrom addrTo) <= 1)%nat
  /\ (isMyAddress E addrFrom = true ->
      followed_call E st addrFrom addrTo = []).
Proof.
  unfold followed_call. split; [|split].
  - destruct (_ && _ && _ && _); [|reflexivity].
    destruct (IMG_FindByAddress E addrTo); reflexivity.
  - destruct (_ && _ && _ && _); [|simpl; lia].
    destruct (IMG_FindByAddress E addrTo); simpl; lia.
  - intros Hfrom. rewrite (isMyAddress_mapped E addrFrom Hfrom).
    rewrite andb_false_r. reflexivity.
Qed.

(** C2: when the target of an edge is in the traced module and the section
    of its offset differs from the section of the cursor, the records the
    edge adds are, in this order: the call-out of the followed page, if the
    edge starts there; when the origin is in the traced module, one
    section-entry record with the offset of the origin, the name of the
    section of the origin and the name of the section of the target; and one
    section-change record with the offset of the target and the name of its
    section.  A name is the name of the section found at the offset, and
    ["?"] when no section is found.  So there is exactly one section-change
    record, the last record of the edge, and exactly one section-entry
    record right before it when the origin is traced, none otherwise; with a
    traced origin these are all the records.  The cursor moves to the offset
    of the target. *)
Theorem section_change_on_crossing
  (st : State) (addrFrom addrTo : ADDRINT) :
  isMyAddress E addrTo = true ->
  getSecByAddr E (addr_to_rva E addrTo)
    <> getSecByAddr E (lastKnownSectionOffset st) ->
  let rva := addr_to_rva E addrTo in
  let rvaFrom := addr_to_rva E addrFrom in
  let curr_name := match getSecByAddr E rva with
                   | Some sec => name sec
                   | None => "?"%string
                   end in
  let prev_name := match getSecByAddr E rvaFrom with
                   | Some sec => name sec
                   | None => "?"%string
                   end in
  let out := emitted (_SaveTransitions E addrFrom addrTo) st in
  out = (followed_call E st addrFrom addrTo
         ++ (if isMyAddress E addrFrom
             then [logNewSectionCalled rvaFrom prev_name curr_name]
             else [])
         ++ [logSectionChange rva curr_name])%list
  /\ forallb is_call (followed_call E st addrFrom addrTo) = true
  /\ (isMyAddress E addrFrom = true ->
      out = [logNewSectionCalled rvaFrom prev_name curr_name;
             logSectionChange rva curr_name])
  /\ count is_section_change out = 1%nat
  /\ count is_section_entry out
     = (if isMyAddress E addrFrom then 1%nat else 0%nat)
  /\ (forall sec, getSecByAddr E rva = Some sec -> curr_name = name sec)
  /\ (forall sec, getSecByAddr E rvaFrom = Some sec -> prev_name = name sec)
  /\ (getSecByAddr E rva = None -> curr_name = "?"%string)
  /\ (getSecByAddr E rvaFrom = None -> prev_name = "?"%string)
  /\ lastKnownSectionOffset (exec (_SaveTransitions E addrFrom addrTo) st)
     = rva.
Proof.
  intros Hto Hcross rva rvaFrom curr_name prev_name out.
  destruct (crossing_step st addrFrom addrTo Hto Hcross) as [Hout [Hcur _]].
  fold rva rvaFrom curr_name prev_name out in Hout.
  destruct (followed_call_is_call st addrFrom addrTo) as [Hcalls [_ Hnone]].
  split; [exact Hout|]. split; [exact Hcalls|].
  split; [|split; [|split; [|split; [|split; [|split; [|split]]]]]].
  - intros Hfrom. rewrite Hout, (Hnone Hfrom), Hfrom. reflexivity.
  - rewrite Hout.
    rewrite (count_after_calls _ _ _ call_is_no_section_change Hcalls).
    destruct (isMyAddress E addrFrom); reflexivity.
  - rewrite Hout.
    rewrite (count_after_calls _ _ _ call_is_no_section_entry Hcalls).
    destruct (isMyAddress E addrFrom); reflexivity.
  - intros sec Hs. subst curr_name. rewrite Hs. reflexivity.
  - intros sec Hs. subst prev_name. rewrite Hs. reflexivity.
  - intros Hn. subst curr_name. rewrite Hn. reflexivity.
  - intros Hn. subst prev_name. rewrite Hn. reflexivity.
  - exact Hcur.
Qed.

Lemma cursor_after_step (st : State) (addrFrom addrTo : ADDRINT) :
  isMyAddress E addrTo = true ->
  getSecByAddr E (addr_to_rva E addrTo)
  = getSecByAddr E (lastKnownSectionOffset
                      (exec (_SaveTransitions E addrFrom addrTo) st)).
Proof.
  intros Hto. unfold_step. rewrite Hto. rewrite andb_false_r. simpl.
  repeat split_cond; try reflexivity;
    match goal with
    | H : same_section _ _ = true |- _ =>
        apply same_section_true in H; exact H
    end.
Qed.

Lemma no_section_record_without_crossing
  (st : State) (addrFrom addrTo : ADDRINT) :
  getSecByAddr E (addr_to_rva E addrTo)
  = getSecByAddr E (lastKnownSectionOffset st) ->
  count is_section_change (emitted (_SaveTransitions E addrFrom addrTo) st)
  = 0%nat.
Proof.
  intros Hsame. apply same_section_true in Hsame. unfold_step.
  repeat split_cond;
    repeat (simpl in *; rewrite Hsame in * );
    try discriminate;
    repeat rewrite <- app_assoc;
    first [ rewrite skipn_length_app; reflexivity
          | rewrite skipn_all; reflexivity ].
Qed.

Lemma at_most_one_section_change (st : State) (addrFrom addrTo : ADDRINT) :
  (count is_section_change (emitted (_SaveTransitions E addrFrom addrTo) st)
   <= 1)%nat.
Proof.
  unfold_step.
  repeat split_cond;
    repeat rewrite <- app_assoc;
    first [ rewrite skipn_length_app | rewrite skipn_all ];
    unfold count; simpl; lia.
Qed.

(** C4: an edge from the traced module to an address outside it, handled
    twice in a row, adds its call-out record both times; an edge into the
    traced module adds no section-change record the second time, because
    the cursor then lies in the section of the target, so the two runs
    together add at most one, and exactly one when the first run crosses a
    section boundary. *)
Theorem replay_edge (st : State) (addrFrom addrTo : ADDRINT) :
  let step := _SaveTransitions E addrFrom addrTo in
  let st1 := exec step st in
  (isMyAddress E addrFrom = true -> isMyAddress E addrTo = false ->
     exists r, is_call r = true
               /\ emitted step st = [r] /\ emitted step st1 = [r])
  /\ (isMyAddress E addrTo = true ->
        count is_section_change (emitted step st1) = 0%nat
        /\ (count is_section_change (emitted step st ++ emitted step st1)
            <= 1)%nat
        /\ (getSecByAddr E (addr_to_rva E addrTo)
              <> getSecByAddr E (lastKnownSectionOffset st) ->
            count is_section_change (emitted step st) = 1%nat)).
Proof.
  intros step st1. split.
  - intros Hfrom Hto.
    pose proof (isMyAddress_mapped E addrFrom Hfrom) as Hmapped.
    destruct (IMG_FindByAddress E addrTo) as [img|] eqn:Himg.
    + exists (logCall 0 (addr_to_rva E addrFrom) true
                      (IMG_Name img) (get_func_at E addrTo)).
      split; [reflexivity|].
      subst st1 step. unfold emitted, exec.
      rewrite !(call_out_step _ addrFrom addrTo img Hfrom Hto Himg). simpl.
      split; apply skipn_length_app.
    + exists (logCallPage 0 (addr_to_rva E addrFrom)
                          (GetPageOfAddr E addrTo) addrTo).
      split; [reflexivity|].
      subst st1 step. unfold_step.
      rewrite Hfrom, Hto, Himg, Hmapped. simpl.
      rewrite andb_false_r. simpl.
      split; apply skipn_length_app.
  - intros Hto.
    assert (Hsecond : count is_section_change (emitted step st1) = 0%nat).
    { apply no_section_record_without_crossing.
      apply cursor_after_step. exact Hto. }
    split; [exact Hsecond|]. split.
    + unfold count in *. rewrite filter_app, length_app, Hsecond.
      pose proof (at_most_one_section_change st addrFrom addrTo) as Hle.
      unfold count in Hle. fold step in Hle. lia.
    + intros Hcross.
      destruct (crossing_emits st addrFrom addrTo Hto Hcross)
        as [calls [Hcalls Hout]].
      fold step in Hout. rewrite Hout.
      rewrite (count_after_calls _ _ _ call_is_no_section_change Hcalls).
      destruct (isMyAddress E addrFrom); reflexivity.
Qed.

Lemma lastShellc_step (st : State) (addrFrom addrTo : ADDRINT) :
  lastShellc (exec (_SaveTransitions E addrFrom addrTo) st)
  = if assigns E st addrFrom addrTo then GetPageOfAddr E addrTo
    else lastShellc st.
Proof.
  unfold assigns, leaves_to_unmapped, hops_from_followed.
  destruct (isMyAddress E addrFrom) eqn:Hfrom.
  - rewrite (isMyAddress_mapped E addrFrom Hfrom).
    unfold_step. rewrite Hfrom, (isMyAddress_mapped E addrFrom Hfrom).
    simpl. rewrite !andb_false_r. simpl.
    repeat split_cond; reflexivity.
  - unfold_step. rewrite Hfrom. simpl.
    destruct (m_FollowShellcode E =? SHELLC_FOLLOW_RECURSIVE) eqn:Hrec.
    + apply Z.eqb_eq in Hrec. rewrite Hrec. simpl.
      repeat split_cond; reflexivity.
    + rewrite !andb_false_r. simpl.
      repeat split_cond; reflexivity.
Qed.

Lemma run_app (l k : list (ADDRINT * ADDRINT)) (st : State) :
  run E (l ++ k) st = run E k (run E l st).
Proof.
  revert st. induction l as [|[f t] l IH]; intros st; simpl; auto.
Qed.

(** C3: [lastShellc] changes only at the two assignments of
    [_SaveTransitions], where it becomes the page of the target of the
    edge: the call from the traced module to an address outside every
    image, and the hop from the followed page to another page outside every
    image under [SHELLC_FOLLOW_RECURSIVE].  From a start at [UNKNOWN_ADDR]
    it is therefore [UNKNOWN_ADDR] as long as no edge of the session
    assigns it, and in every state reached it is [UNKNOWN_ADDR] or the page
    of the target of an earlier edge that assigned it.  It is one address,
    so it names one page at a time. *)
Theorem lastShellc_invariant :
  (forall st addrFrom addrTo,
      lastShellc (exec (_SaveTransitions E addrFrom addrTo) st)
      = if assigns E st addrFrom addrTo then GetPageOfAddr E addrTo
        else lastShellc st)
  /\ (forall edges st0,
        lastShellc st0 = UNKNOWN_ADDR E ->
        lastShellc (run E edges st0) = UNKNOWN_ADDR E
        \/ exists pre addrFrom addrTo post,
            edges = (pre ++ (addrFrom, addrTo) :: post)%list
            /\ assigns E (run E pre st0) addrFrom addrTo = true
            /\ lastShellc (run E edges st0) = GetPageOfAddr E addrTo)
  /\ (forall edges st0,
        lastShellc st0 = UNKNOWN_ADDR E ->
        (forall pre addrFrom addrTo post,
            edges = (pre ++ (addrFrom, addrTo) :: post)%list ->
            assigns E (run E pre st0) addrFrom addrTo = false) ->
        lastShellc (run E edges st0) = UNKNOWN_ADDR E).
Proof.
  split; [exact lastShellc_step|]. split.
  - intros edges st0 Hinit.
    induction edges as [|[f t] edges IH] using rev_ind; [left; exact Hinit|].
    rewrite run_app. simpl. rewrite lastShellc_step.
    destruct (assigns E (run E edges st0) f t) eqn:Ha.
    + right. exists edges, f, t, []. repeat split; assumption.
    + destruct IH as [IH | [pre [f' [t' [post [Heq [Ha' Hl]]]]]]].
      * left. exact IH.
      * right. exists pre, f', t', (post ++ [(f, t)])%list.
        split; [|split; assumption].
        rewrite Heq. rewrite <- app_assoc. reflexivity.
  - intros edges st0 Hinit.
    induction edges as [|[f t] edges IH] using rev_ind; intros Hnone;
      [exact Hinit|].
    rewrite run_app. simpl. rewrite lastShellc_step.
    rewrite (Hnone edges f t [] eq_refl).
    apply IH. intros pre f' t' post Heq.
    apply (Hnone pre f' t' (post ++ [(f, t)])%list).
    rewrite Heq. rewrite <- app_assoc. reflexivity.
Qed.
End Classifier.

Lemma call_out_to_known_module_witness :
  isMyAddress (demo_env 0) 0x400500 = true
  /\ isMyAddress (demo_env 0) 0x70001000 = false
  /\ IMG_FindByAddress (demo_env 0) 0x70001000 = Some img_kernel32
  /\ emitted (_SaveTransitions (demo_env 0) 0x400500 0x70001000) demo_state =
       [logCall 0 0x500 true "kernel32.dll" "CreateFileW"].
Proof.
  split; [reflexivity|]. split; [reflexivity|]. split; [reflexivity|].
  exact (proj1 (call_out_to_known_module (demo_env 0) demo_state
                  0x400500 0x70001000 img_kernel32
                  eq_refl eq_refl eq_refl)).
Defined.

(** The scenario of the spec: from [.text] at [0x400500] to [.data]
    at [0x401200]. *)
Example text_to_data :
  emitted (_SaveTransitions (demo_env 0) 0x400500 0x401200) demo_state =
    [logNewSectionCalled 0x500 ".text" ".data";
     logSectionChange 0x1200 ".data"].
Proof. reflexivity. Qed.

Lemma section_change_on_crossing_witness :
  isMyAddress (demo_env 0) 0x401200 = true
  /\ getSecByAddr (demo_env 0) (addr_to_rva (demo_env 0) 0x401200)
     <> getSecByAddr (demo_env 0) (lastKnownSectionOffset demo_state)
  /\ emitted (_SaveTransitions (demo_env 0) 0x400500 0x401200) demo_state
     = [logNewSectionCalled 0x500 ".text" ".data";
        logSectionChange 0x1200 ".data"]
  /\ emitted (_SaveTransitions (demo_env 0) 0x70001000 0x401200) demo_state
     = [logSectionChange 0x1200 ".data"]
  /\ isMyAddress (demo_env 1) 0x401200 = true
  /\ getSecByAddr (demo_env 1) (addr_to_rva (demo_env 1) 0x401200)
     <> getSecByAddr (demo_env 1) (lastKnownSectionOffset following_0x5000)
  /\ emitted (_SaveTransitions (demo_env 1) 0x5020 0x401200) following_0x5000
     = [logCall 0x5000 0x5020 false "target.exe" "?";
        logSectionChange 0x1200 ".data"]
  /\ isMyAddress gap_env 0x402800 = true
  /\ getSecByAddr gap_env (addr_to_rva gap_env 0x402800)
     <> getSecByAddr gap_env (lastKnownSectionOffset demo_state)
  /\ emitted (_SaveTransitions gap_env 0x400500 0x402800) demo_state
     = [logNewSectionCalled 0x500 ".text" "?"; logSectionChange 0x2800 "?"].
Proof.
  assert (Hto : isMyAddress (demo_env 0) 0x401200 = true) by reflexivity.
  assert (Hcross :
            getSecByAddr (demo_env 0) (addr_to_rva (demo_env 0) 0x401200)
            <> getSecByAddr (demo_env 0) (lastKnownSectionOffset demo_state))
    by (vm_compute; discriminate).
  assert (Hto1 : isMyAddress (demo_env 1) 0x401200 = true) by reflexivity.
  assert (Hcross1 :
            getSecByAddr (demo_env 1) (addr_to_rva (demo_env 1) 0x401200)
            <> getSecByAddr (demo_env 1)
                 (lastKnownSectionOffset following_0x5000))
    by (vm_compute; discriminate).
  assert (Hto2 : isMyAddress gap_env 0x402800 = true) by reflexivity.
  assert (Hcross2 :
            getSecByAddr gap_env (addr_to_rva gap_env 0x402800)
            <> getSecByAddr gap_env (lastKnownSectionOffset demo_state))
    by (vm_compute; discriminate).
  split; [exact Hto|]. split; [exact Hcross|].
  split;
    [exact (proj1 (section_change_on_crossing (demo_env 0) demo_state
                     0x400500 0x401200 Hto Hcross))|].
  split;
    [exact (proj1 (section_change_on_crossing (demo_env 0) demo_state
                     0x70001000 0x401200 Hto Hcross))|].
  split; [exact Hto1|]. split; [exact Hcross1|].
  split;
    [exact (proj1 (section_change_on_crossing (demo_env 1) following_0x5000
                     0x5020 0x401200 Hto1 Hcross1))|].
  split; [exact Hto2|]. split; [exact Hcross2|].
  exact (proj1 (section_change_on_crossing gap_env demo_state
                  0x400500 0x402800 Hto2 Hcross2)).
Defined.

Lemma replay_edge_witness :
  (isMyAddress (demo_env 0) 0x400500 = true
   /\ isMyAddress (demo_env 0) 0x70001000 = false
   /\ exists r,
       is_call r = true
       /\ emitted (_SaveTransitions (demo_env 0) 0x400500 0x70001000)
                  demo_state = [r]
       /\ emitted (_SaveTransitions (demo_env 0) 0x400500 0x70001000)
                  (exec (_SaveTransitions (demo_env 0) 0x400500 0x70001000)
                        demo_state) = [r])
  /\ (isMyAddress (demo_env 0) 0x401200 = true
      /\ count is_section_change
           (emitted (_SaveTransitions (demo_env 0) 0x400500 0x401200)
                    (exec (_SaveTransitions (demo_env 0) 0x400500 0x401200)
                          demo_state)) = 0%nat).
Proof.
  split.
  - split; [reflexivity|]. split; [reflexivity|].
    apply (proj1 (replay_edge (demo_env 0) demo_state 0x400500 0x70001000));
      reflexivity.
  - split; [reflexivity|].
    apply (proj2 (replay_edge (demo_env 0) demo_state 0x400500 0x401200)).
    reflexivity.
Defined.

(** A session that calls a page outside every image at [0x5000], and hops
    from there to [0x9000] under recursive following. *)
Example follow_two_pages :
  lastShellc (run (demo_env 2) [(0x400500, 0x5010)] demo_state) = 0x5000
  /\ lastShellc (run (demo_env 2) [(0x400500, 0x5010); (0x5020, 0x9000)]
                     demo_state) = 0x9000
  /\ lastShellc (run (demo_env 1) [(0x400500, 0x5010); (0x5020, 0x9000)]
                     demo_state) = 0x5000.
Proof. repeat split. Qed.

Lemma lastShellc_invariant_witness :
  lastShellc demo_state = UNKNOWN_ADDR (demo_env 2)
  /\ (lastShellc (run (demo_env 2) [(0x400500, 0x5010)] demo_state)
      = UNKNOWN_ADDR (demo_env 2)
      \/ exists pre addrFrom addrTo post,
          [(0x400500, 0x5010)] = (pre ++ (addrFrom, addrTo) :: post)%list
          /\ assigns (demo_env 2) (run (demo_env 2) pre demo_state)
                     addrFrom addrTo = true
          /\ lastShellc (run (demo_env 2) [(0x400500, 0x5010)] demo_state)
             = GetPageOfAddr (demo_env 2) addrTo)
  /\ (forall pre addrFrom addrTo post,
         [(0x400500, 0x70001000)] = (pre ++ (addrFrom, addrTo) :: post)%list ->
         assigns (demo_env 2) (run (demo_env 2) pre demo_state)
                 addrFrom addrTo = false)
  /\ lastShellc (run (demo_env 2) [(0x400500, 0x70001000)] demo_state)
     = UNKNOWN_ADDR (demo_env 2).
Proof.
  assert (Hinit : lastShellc demo_state = UNKNOWN_ADDR (demo_env 2))
    by reflexivity.
  assert (Hnone : forall pre addrFrom addrTo post,
             [(0x400500, 0x70001000)]
             = (pre ++ (addrFrom, addrTo) :: post)%list ->
             assigns (demo_env 2) (run (demo_env 2) pre demo_state)
                     addrFrom addrTo = false).
  { intros pre addrFrom addrTo post Heq.
    destruct pre as [|e pre].
    - simpl in Heq. injection Heq as Hf Ht Hp. subst. reflexivity.
    - simpl in Heq. injection Heq as He Hp.
      destruct pre; discriminate Hp. }
  split; [exact Hinit|]. split.
  - apply (proj1 (proj2 (lastShellc_invariant (demo_env 2)))). exact Hinit.
  - split; [exact Hnone|].
    apply (proj2 (proj2 (lastShellc_invariant (demo_env 2)))); assumption.
Defined.

(** ** The guard of the argument dump *)

Section Probe.
Variable E : Env.
Variable hex : ADDRINT -> wstring.
Variable mem : Memory.

(** C5, as the code has it: the arguments of a watched call are written
    exactly when the call site is in the traced module, or following is on
    and the call site is outside every image on a page that is known.  The
    page last followed is not consulted, so every site the transition
    classifier acts on passes, and so does any other page outside the
    images. *)
Theorem argument_dump_guard
  (st : State) (Address : ADDRINT) (name : string) (argCount : Z)
  (a1 a2 a3 a4 a5 a6 a7 a8 a9 a10 : ADDRINT) :
  let dump := _LogFunctionArgs E hex mem Address name argCount
                               a1 a2 a3 a4 a5 a6 a7 a8 a9 a10 st in
  let written :=
    firstn (Nat.min (Z.to_nat argCount) argsMax)
           [a1; a2; a3; a4; a5; a6; a7; a8; a9; a10] in
  isWatchedAddress E Address
  = (isMyAddress E Address
     || (truthy (m_FollowShellcode E)
         && negb (IMG_Valid (IMG_FindByAddress E Address))
         && negb (GetPageOfAddr E Address =? UNKNOWN_ADDR E)))
  /\ (isWatchedAddress E Address = false -> dump = Some st)
  /\ (isWatchedAddress E Address = true ->
      dump = option_map
               (fun w => append_log (logLine (narrow w)) st)
               (args_lines hex mem 0 written))
  /\ (classifier_eligible E st Address = true ->
      isWatchedAddress E Address = true).
Proof.
  intros dump written.
  assert (Hguard : isWatchedAddress E Address
    = (isMyAddress E Address
       || (truthy (m_FollowShellcode E)
           && negb (IMG_Valid (IMG_FindByAddress E Address))
           && negb (GetPageOfAddr E Address =? UNKNOWN_ADDR E)))).
  { unfold isWatchedAddress.
    destruct (isMyAddress E Address); [reflexivity|]. simpl.
    destruct (truthy (m_FollowShellcode E)
              && negb (IMG_Valid (IMG_FindByAddress E Address)));
      [|reflexivity].
    simpl.
    destruct (negb (GetPageOfAddr E Address =? UNKNOWN_ADDR E));
      reflexivity. }
  split; [exact Hguard|]. split; [|split].
  - intros Hw. subst dump. unfold _LogFunctionArgs. rewrite Hw. reflexivity.
  - intros Hw. subst dump written. unfold _LogFunctionArgs. rewrite Hw.
    simpl negb. cbv iota.
    destruct (args_lines hex mem 0 _); reflexivity.
  - intros He. rewrite Hguard. unfold classifier_eligible in He.
    destruct (isMyAddress E Address); [reflexivity|]. simpl in *.
    apply andb_true_iff in He. destruct He as [He _].
    exact He.
Qed.
End Probe.

Lemma argument_dump_guard_witness :
  isWatchedAddress (demo_env 0) 0x70001000 = false
  /\ _LogFunctionArgs (demo_env 0) demo_hex demo_mem 0x70001000
       "CreateFileW" 3 0x1000 0 0 0 0 0 0 0 0 0 demo_state
     = Some demo_state.
Proof.
  split; [reflexivity|].
  apply (argument_dump_guard (demo_env 0) demo_hex demo_mem demo_state
           0x70001000 "CreateFileW" 3 0x1000 0 0 0 0 0 0 0 0 0).
  reflexivity.
Defined.

(** C5, as stated, fails: under [SHELLC_FOLLOW_FIRST] with page [0x5000]
    followed, a watched call whose return address [0x9004] is on another page
    outside every image is not a site the transition classifier acts on, and
    its argument is written all the same. *)
Lemma dump_from_page_not_followed :
  classifier_eligible (demo_env SHELLC_FOLLOW_FIRST) following_0x5000 0x9004
  = false
  /\ GetPageOfAddr (demo_env SHELLC_FOLLOW_FIRST) 0x9004
     <> lastShellc following_0x5000
  /\ _LogFunctionArgs (demo_env SHELLC_FOLLOW_FIRST) demo_hex demo_mem 0x9004
                      "CreateFileW" 1 0 0 0 0 0 0 0 0 0 0 following_0x5000
     = Some (append_log
               (logLine (String "009"%char
                           ("Arg[0] = 0" ++ String "010"%char EmptyString)))
               following_0x5000).
Proof.
  split; [reflexivity|]. split; [vm_compute; discriminate|].
  vm_compute. reflexivity.
Qed.

(** ** The timer *)

Lemma UINT64_range (z : Z) : 0 <= UINT64 z < 2 ^ 64.
Proof. unfold UINT64. apply Z.mod_pos_bound. lia. Qed.

Lemma lor_range (n a b : Z) :
  0 <= n -> 0 <= a < 2 ^ n -> 0 <= b < 2 ^ n -> 0 <= Z.lor a b < 2 ^ n.
Proof.
  intros Hn Ha Hb. split; [apply Z.lor_nonneg; lia|].
  destruct (Z.eq_dec (Z.lor a b) 0) as [Hz|Hnz].
  - rewrite Hz. apply Z.pow_pos_nonneg; lia.
  - assert (Hpos : 0 < Z.lor a b).
    { pose proof (proj2 (Z.lor_nonneg a b) (conj (proj1 Ha) (proj1 Hb))). lia. }
    apply Z.log2_lt_pow2; [exact Hpos|].
    rewrite Z.log2_lor by lia.
    destruct (Z.eq_dec a 0) as [Ha0|Ha0], (Z.eq_dec b 0) as [Hb0|Hb0].
    + subst. simpl in Hnz. contradiction.
    + subst a. rewrite Z.max_r by (simpl; apply Z.log2_nonneg).
      apply Z.log2_lt_pow2; lia.
    + subst b. rewrite Z.max_l by (simpl; apply Z.log2_nonneg).
      apply Z.log2_lt_pow2; lia.
    + apply Z.max_lub_lt; apply Z.log2_lt_pow2; lia.
Qed.

Lemma seed_of_halves (edx eax : Z) :
  0 <= edx < 2 ^ 32 -> 0 <= eax < 2 ^ 32 ->
  Z.lor (UINT64 (Z.shiftl (UINT64 edx) 32)) (UINT64 eax) = edx * 2 ^ 32 + eax.
Proof.
  intros Hd Ha. unfold UINT64.
  rewrite (Z.mod_small edx) by lia.
  rewrite (Z.mod_small eax) by lia.
  rewrite Z.shiftl_mul_pow2 by lia.
  rewrite (Z.mod_small (edx * 2 ^ 32)) by nia.
  assert (Hland : Z.land (edx * 2 ^ 32) eax = 0).
  { apply Z.bits_inj'. intros n Hn. rewrite Z.land_spec, Z.bits_0.
    destruct (Z.lt_ge_cases n 32) as [Hlt|Hge].
    - rewrite Z.mul_pow2_bits_low by lia. reflexivity.
    - destruct (Z.eq_dec eax 0) as [Hz|Hnz].
      + subst eax. rewrite Z.bits_0. apply andb_false_r.
      + rewrite (Z.bits_above_log2 eax n); [apply andb_false_r | lia |].
        assert (Z.log2 eax < 32) by (apply Z.log2_lt_pow2; lia). lia. }
  rewrite <- Z.lxor_lor by exact Hland.
  symmetry. apply Z.add_nocarry_lxor. exact Hland.
Qed.

Lemma low_half (t : Z) :
  0 <= t < 2 ^ 64 -> Z.shiftr (UINT64 (Z.shiftl t 32)) 32 = t mod 2 ^ 32.
Proof.
  intros Ht. unfold UINT64.
  rewrite Z.shiftl_mul_pow2, Z.shiftr_div_pow2 by lia.
  replace (2 ^ 64) with (2 ^ 32 * 2 ^ 32) by reflexivity.
  rewrite Z.mul_mod_distr_r by lia.
  apply Z.div_mul. lia.
Qed.

Lemma setTimer_range (ctxt : CONTEXT) (isEax : bool) (Timer : Z) :
  0 <= snd (_setTimer ctxt isEax Timer) < 2 ^ 64.
Proof.
  unfold _setTimer. cbn [snd]. destruct (Timer =? 0).
  - apply lor_range; [lia | apply UINT64_range | apply UINT64_range].
  - apply UINT64_range.
Qed.

Lemma setTimer_next (ctxt : CONTEXT) (isEax : bool) (Timer : Z) :
  Timer <> 0 -> snd (_setTimer ctxt isEax Timer) = (Timer + 100) mod 2 ^ 64.
Proof.
  intros Ht. unfold _setTimer. cbn [snd].
  destruct (Timer =? 0) eqn:Hz; [apply Z.eqb_eq in Hz; contradiction|].
  reflexivity.
Qed.

Lemma setTimer_result (ctxt : CONTEXT) (isEax : bool) (Timer : Z) :
  fst (_setTimer ctxt isEax Timer)
  = (if isEax then snd (_setTimer ctxt isEax Timer) mod 2 ^ 32
     else snd (_setTimer ctxt isEax Timer) / 2 ^ 32).
Proof.
  pose proof (setTimer_range ctxt isEax Timer) as Hrange.
  unfold _setTimer in *. cbn [fst snd] in *.
  destruct isEax.
  - apply low_half. exact Hrange.
  - apply Z.shiftr_div_pow2. lia.
Qed.

(** One run of [_setTimer]; each [rdtsc] makes two, one for each register.
    A run that finds the counter at 0 seeds it from the register pair, which
    for 32-bit halves is [edx * 2^32 + eax]; this is the first run, and any
    later run that finds 0 again.  A run that finds another value adds
    exactly 100 modulo [2^64], whatever the registers hold.  The run hands
    back the low 32 bits of the new value for [REG_GAX] and the high 32 bits
    for [REG_GDX]. *)
Lemma setTimer_reads (ctxt : CONTEXT) (isEax : bool) (Timer : Z) :
  let Timer' := snd (_setTimer ctxt isEax Timer) in
  let result := fst (_setTimer ctxt isEax Timer) in
  (Timer = 0 -> Timer' = timer_seed ctxt)
  /\ (0 <= REG_GDX ctxt < 2 ^ 32 -> 0 <= REG_GAX ctxt < 2 ^ 32 ->
      timer_seed ctxt = REG_GDX ctxt * 2 ^ 32 + REG_GAX ctxt)
  /\ (Timer <> 0 -> Timer' = (Timer + 100) mod 2 ^ 64)
  /\ 0 <= Timer' < 2 ^ 64
  /\ result = (if isEax then Timer' mod 2 ^ 32 else Timer' / 2 ^ 32)
  /\ (forall ctxt2 isEax2,
         Timer' <> 0 ->
         snd (_setTimer ctxt2 isEax2 Timer') = (Timer' + 100) mod 2 ^ 64).
Proof.
  intros Timer' result.
  split; [|split; [|split; [|split; [|split]]]].
  - intros Hz. subst Timer' Timer. reflexivity.
  - intros Hd Ha. unfold timer_seed.
    exact (seed_of_halves (REG_GDX ctxt) (REG_GAX ctxt) Hd Ha).
  - apply setTimer_next.
  - apply setTimer_range.
  - apply setTimer_result.
  - intros ctxt2 isEax2 Hnz. apply setTimer_next. exact Hnz.
Qed.

Lemma setTimer_reads_witness :
  (0 <= REG_GDX demo_ctxt < 2 ^ 32)
  /\ (0 <= REG_GAX demo_ctxt < 2 ^ 32)
  /\ timer_seed demo_ctxt = REG_GDX demo_ctxt * 2 ^ 32 + REG_GAX demo_ctxt
  /\ snd (_setTimer demo_ctxt false 0) = timer_seed demo_ctxt
  /\ 0x10000009C <> 0
  /\ snd (_setTimer demo_ctxt true 0x10000009C) = (0x10000009C + 100) mod 2 ^ 64.
Proof.
  assert (Hd : 0 <= REG_GDX demo_ctxt < 2 ^ 32) by (unfold demo_ctxt; simpl; lia).
  assert (Ha : 0 <= REG_GAX demo_ctxt < 2 ^ 32) by (unfold demo_ctxt; simpl; lia).
  assert (Hnz : 0x10000009C <> 0) by discriminate.
  split; [exact Hd|]. split; [exact Ha|].
  split; [exact (proj1 (proj2 (setTimer_reads demo_ctxt false 0)) Hd Ha)|].
  split; [exact (proj1 (setTimer_reads demo_ctxt false 0) eq_refl)|].
  split; [exact Hnz|].
  exact (proj1 (proj2 (proj2 (setTimer_reads demo_ctxt true 0x10000009C))) Hnz).
Defined.

(** When the first [rdtsc] sees both registers at 0, its two runs of
    [_setTimer] leave the counter at 0, so the first run of the next [rdtsc]
    seeds the counter again, from the registers it sees. *)
Example timer_seeded_twice :
  snd (_setTimer ctxt_zero false 0) = 0
  /\ snd (rdtsc_after ctxt_zero 0) = 0
  /\ snd (_setTimer ctxt_seven false (snd (rdtsc_after ctxt_zero 0)))
     = timer_seed ctxt_seven
  /\ snd (_setTimer ctxt_seven false (snd (rdtsc_after ctxt_zero 0)))
       - snd (rdtsc_after ctxt_zero 0) = 7
  /\ snd (_setTimer ctxt_seven false (snd (rdtsc_after ctxt_zero 0)))
       - snd (rdtsc_after ctxt_zero 0) <> 100.
Proof. vm_compute. repeat split; discriminate. Qed.

(** The same happens when the counter wraps to 0. *)
Example timer_wraps_to_zero :
  let ctxt := mk_context 0x400500 0xFFFFFF9C 0xFFFFFFFF in
  let Timer1 := snd (_setTimer ctxt false 0) in
  let Timer2 := snd (_setTimer ctxt false Timer1) in
  let Timer3 := snd (_setTimer (mk_context 0x400600 7 0) false Timer2) in
  Timer1 = 2 ^ 64 - 100 /\ Timer2 = 0 /\ Timer3 = 7.
Proof. vm_compute. repeat split. Qed.

(** Each [rdtsc] runs [_setTimer] twice, so it moves a counter that is not
    0 on by 200, and the high half it delivers is taken 100 before the low
    half. *)
Lemma rdtsc_after_two_reads (ctxt : CONTEXT) (Timer : Z) :
  Timer <> 0 -> (Timer + 100) mod 2 ^ 64 <> 0 ->
  let (ctxt', Timer') := rdtsc_after ctxt Timer in
  Timer' = ((Timer + 100) mod 2 ^ 64 + 100) mod 2 ^ 64
  /\ REG_GDX ctxt' = ((Timer + 100) mod 2 ^ 64) / 2 ^ 32
  /\ REG_GAX ctxt' = Timer' mod 2 ^ 32.
Proof.
  intros Hnz Hnz'. unfold rdtsc_after, AlterRdtscValueEdx, AlterRdtscValueEax.
  pose proof (setTimer_next ctxt false Timer Hnz) as Hs1.
  pose proof (setTimer_result ctxt false Timer) as Hres1.
  destruct (_setTimer ctxt false Timer) as [edx Timer1].
  cbn [fst snd] in Hs1, Hres1. subst Timer1.
  match goal with
  | |- context [_setTimer ?c true ?t] =>
      pose proof (setTimer_next c true t Hnz') as Hs2;
      pose proof (setTimer_result c true t) as Hres2;
      destruct (_setTimer c true t) as [eax Timer2]
  end.
  cbn [fst snd] in Hs2, Hres2. subst Timer2.
  cbn [REG_GDX REG_GAX REG_INST_PTR].
  repeat split; assumption.
Qed.

Lemma rdtsc_after_adds_200 (ctxt : CONTEXT) (Timer : Z) :
  0 < Timer -> Timer + 200 < 2 ^ 64 ->
  snd (rdtsc_after ctxt Timer) = Timer + 200
  /\ REG_GDX (fst (rdtsc_after ctxt Timer)) = (Timer + 100) / 2 ^ 32
  /\ REG_GAX (fst (rdtsc_after ctxt Timer)) = (Timer + 200) mod 2 ^ 32.
Proof.
  intros Hpos Hmax.
  assert (Hnz : Timer <> 0) by lia.
  assert (H1 : (Timer + 100) mod 2 ^ 64 = Timer + 100)
    by (apply Z.mod_small; lia).
  assert (Hnz' : (Timer + 100) mod 2 ^ 64 <> 0) by lia.
  pose proof (rdtsc_after_two_reads ctxt Timer Hnz Hnz') as H.
  destruct (rdtsc_after ctxt Timer) as [ctxt' Timer'].
  cbn [fst snd]. destruct H as [HT [Hd Ha]].
  rewrite H1 in HT, Hd.
  assert (HT' : Timer' = Timer + 200).
  { rewrite HT. rewrite Z.mod_small by lia. lia. }
  rewrite Hd, Ha, HT'. repeat split.
Qed.

(** The first [rdtsc], which finds the counter at 0: the routine for
    [REG_GDX] seeds the counter and the routine for [REG_GAX] adds 100 to
    it. *)
Lemma rdtsc_after_seeds (ctxt : CONTEXT) :
  0 <= REG_GDX ctxt < 2 ^ 32 -> 0 <= REG_GAX ctxt < 2 ^ 32 ->
  0 < REG_GDX ctxt * 2 ^ 32 + REG_GAX ctxt ->
  REG_GDX ctxt * 2 ^ 32 + REG_GAX ctxt + 100 < 2 ^ 64 ->
  snd (rdtsc_after ctxt 0) = REG_GDX ctxt * 2 ^ 32 + REG_GAX ctxt + 100
  /\ REG_GDX (fst (rdtsc_after ctxt 0)) = REG_GDX ctxt
  /\ REG_GAX (fst (rdtsc_after ctxt 0))
     = (REG_GDX ctxt * 2 ^ 32 + REG_GAX ctxt + 100) mod 2 ^ 32.
Proof.
  intros Hd Ha Hpos Hmax.
  pose proof (seed_of_halves (REG_GDX ctxt) (REG_GAX ctxt) Hd Ha) as Hseed.
  assert (Hs1 : snd (_setTimer ctxt false 0)
                = REG_GDX ctxt * 2 ^ 32 + REG_GAX ctxt) by exact Hseed.
  pose proof (setTimer_result ctxt false 0) as Hr1. cbv iota in Hr1.
  unfold rdtsc_after, AlterRdtscValueEdx, AlterRdtscValueEax.
  destruct (_setTimer ctxt false 0) as [edx Timer1].
  cbn [fst snd] in Hs1, Hr1. subst Timer1.
  assert (Hnz : REG_GDX ctxt * 2 ^ 32 + REG_GAX ctxt <> 0) by lia.
  match goal with
  | |- context [_setTimer ?c true ?t] =>
      pose proof (setTimer_next c true t Hnz) as Hs2;
      pose proof (setTimer_result c true t) as Hr2;
      destruct (_setTimer c true t) as [eax Timer2]
  end.
  cbn [fst snd] in Hs2, Hr2. cbv iota in Hr2.
  cbn [fst snd REG_GDX REG_GAX REG_INST_PTR].
  change (2 ^ 32) with 4294967296 in *.
  change (2 ^ 64) with 18446744073709551616 in *.
  assert (Hsmall : (REG_GDX ctxt * 4294967296 + REG_GAX ctxt + 100)
                     mod 18446744073709551616
                   = REG_GDX ctxt * 4294967296 + REG_GAX ctxt + 100)
    by (apply Z.mod_small; lia).
  rewrite Hsmall in Hs2. subst Timer2.
  split; [reflexivity|]. split.
  - rewrite Hr1.
    rewrite Z.div_add_l by lia. rewrite Z.div_small by lia. lia.
  - exact Hr2.
Qed.

(** C6: the code does not step the counter by 100 for each read.
    [InstrumentInstruction] inserts two calls after every [rdtsc], one for
    each result register, and each call runs [_setTimer], which steps the
    counter.  So an [rdtsc] that finds the counter at a value [Timer] other
    than 0 leaves it at [Timer + 200], and the next [rdtsc] at
    [Timer + 400]: two reads in a row differ by 200 and never by 100 in the
    counter, and by 200 in the value the program reads from the register
    pair when no half carries.  The two halves of one read are not halves of
    one counter value either: the high half is the one of [Timer + 100] and
    the low half the one of [Timer + 200], so when the low half wraps in
    between the program reads [2^32] less than the counter.  The first
    [rdtsc], which finds the counter at 0, hands back the high half of the
    seed and the low half of the seed plus 100. *)
Theorem rdtsc_steps_by_200 (ctxt ctxt2 : CONTEXT) (Timer : Z) :
  0 < Timer -> Timer + 400 < 2 ^ 64 ->
  let first := rdtsc_after ctxt Timer in
  let second := rdtsc_after ctxt2 (snd first) in
  let value := fun c : CONTEXT => REG_GDX c * 2 ^ 32 + REG_GAX c in
  snd first = Timer + 200
  /\ snd second = Timer + 400
  /\ snd second - snd first = 200
  /\ snd second - snd first <> 100
  /\ REG_GDX (fst first) = (Timer + 100) / 2 ^ 32
  /\ REG_GAX (fst first) = (Timer + 200) mod 2 ^ 32
  /\ REG_GDX (fst second) = (Timer + 300) / 2 ^ 32
  /\ REG_GAX (fst second) = (Timer + 400) mod 2 ^ 32
  /\ ((Timer + 100) mod 2 ^ 32 + 300 < 2 ^ 32 ->
      value (fst first) = Timer + 200
      /\ value (fst second) = Timer + 400
      /\ value (fst second) - value (fst first) = 200)
  /\ (2 ^ 32 <= (Timer + 100) mod 2 ^ 32 + 100 ->
      value (fst first) = snd first - 2 ^ 32)
  /\ (forall ctxt0 : CONTEXT,
        0 <= REG_GDX ctxt0 < 2 ^ 32 -> 0 <= REG_GAX ctxt0 < 2 ^ 32 ->
        0 < value ctxt0 -> value ctxt0 + 100 < 2 ^ 64 ->
        snd (rdtsc_after ctxt0 0) = value ctxt0 + 100
        /\ REG_GDX (fst (rdtsc_after ctxt0 0)) = REG_GDX ctxt0
        /\ REG_GAX (fst (rdtsc_after ctxt0 0))
           = (value ctxt0 + 100) mod 2 ^ 32).
Proof.
  intros Hpos Hmax first second value.
  destruct (rdtsc_after_adds_200 ctxt Timer Hpos ltac:(lia))
    as [HT1 [Hd1 Ha1]].
  fold first in HT1, Hd1, Ha1.
  assert (H2 : snd second = Timer + 200 + 200
               /\ REG_GDX (fst second) = (Timer + 200 + 100) / 2 ^ 32
               /\ REG_GAX (fst second) = (Timer + 200 + 200) mod 2 ^ 32).
  { subst second. rewrite HT1.
    apply rdtsc_after_adds_200; lia. }
  destruct H2 as [HT2 [Hd2 Ha2]].
  replace (Timer + 200 + 200) with (Timer + 400) in HT2, Ha2 by lia.
  replace (Timer + 200 + 100) with (Timer + 300) in Hd2 by lia.
  split; [exact HT1|]. split; [exact HT2|].
  split; [lia|]. split; [lia|].
  split; [exact Hd1|]. split; [exact Ha1|].
  split; [exact Hd2|]. split; [exact Ha2|].
  subst value. cbv beta.
  rewrite Hd1, Ha1, Hd2, Ha2, HT1.
  change (2 ^ 32) with 4294967296 in *.
  change (2 ^ 64) with 18446744073709551616 in *.
  pose proof (Z.div_mod (Timer + 100) 4294967296 ltac:(lia)) as Hdm.
  pose proof (Z.mod_pos_bound (Timer + 100) 4294967296 ltac:(lia)) as Hb.
  split; [|split].
  - intros Hc.
    assert (E1 : (Timer + 200) mod 4294967296
                 = (Timer + 100) mod 4294967296 + 100).
    { replace (Timer + 200)
        with (((Timer + 100) mod 4294967296 + 100)
              + ((Timer + 100) / 4294967296) * 4294967296) at 1 by lia.
      rewrite Z.mod_add by lia. apply Z.mod_small. lia. }
    assert (E2 : (Timer + 400) mod 4294967296
                 = (Timer + 100) mod 4294967296 + 300).
    { replace (Timer + 400)
        with (((Timer + 100) mod 4294967296 + 300)
              + ((Timer + 100) / 4294967296) * 4294967296) at 1 by lia.
      rewrite Z.mod_add by lia. apply Z.mod_small. lia. }
    assert (E3 : (Timer + 300) / 4294967296 = (Timer + 100) / 4294967296).
    { replace (Timer + 300)
        with (((Timer + 100) mod 4294967296 + 200)
              + ((Timer + 100) / 4294967296) * 4294967296) by lia.
      rewrite Z.div_add by lia. rewrite Z.div_small by lia. lia. }
    rewrite E1, E2, E3. lia.
  - intros Hc.
    replace (Timer + 200)
      with ((((Timer + 100) mod 4294967296) + 100 - 4294967296)
            + ((Timer + 100) / 4294967296 + 1) * 4294967296) at 1 by lia.
    rewrite Z.mod_add by lia. rewrite Z.mod_small by lia. lia.
  - intros ctxt0 Hd Ha Hseed Hfit. apply rdtsc_after_seeds; assumption.
Qed.

Lemma rdtsc_steps_by_200_witness :
  0 < 0x10000009C
  /\ 0x10000009C + 400 < 2 ^ 64
  /\ snd (rdtsc_after ctxt_seven 0x10000009C) = 0x10000009C + 200
  /\ snd (rdtsc_after demo_ctxt (snd (rdtsc_after ctxt_seven 0x10000009C)))
       - snd (rdtsc_after ctxt_seven 0x10000009C) = 200
  /\ snd (rdtsc_after demo_ctxt (snd (rdtsc_after ctxt_seven 0x10000009C)))
       - snd (rdtsc_after ctxt_seven 0x10000009C) <> 100
  /\ 0 < 0xFFFFFF8C
  /\ 0xFFFFFF8C + 400 < 2 ^ 64
  /\ 2 ^ 32 <= (0xFFFFFF8C + 100) mod 2 ^ 32 + 100
  /\ REG_GDX (fst (rdtsc_after demo_ctxt 0xFFFFFF8C)) * 2 ^ 32
     + REG_GAX (fst (rdtsc_after demo_ctxt 0xFFFFFF8C))
     = snd (rdtsc_after demo_ctxt 0xFFFFFF8C) - 2 ^ 32.
Proof.
  assert (Ha1 : 0 < 0x10000009C) by reflexivity.
  assert (Ha2 : 0x10000009C + 400 < 2 ^ 64) by reflexivity.
  assert (Hb1 : 0 < 0xFFFFFF8C) by reflexivity.
  assert (Hb2 : 0xFFFFFF8C + 400 < 2 ^ 64) by reflexivity.
  assert (Hb3 : 2 ^ 32 <= (0xFFFFFF8C + 100) mod 2 ^ 32 + 100)
    by (vm_compute; discriminate).
  pose proof (rdtsc_steps_by_200 ctxt_seven demo_ctxt 0x10000009C Ha1 Ha2)
    as Ha.
  pose proof (rdtsc_steps_by_200 demo_ctxt demo_ctxt 0xFFFFFF8C Hb1 Hb2)
    as Hb.
  cbv zeta in Ha, Hb.
  split; [exact Ha1|]. split; [exact Ha2|].
  split; [exact (proj1 Ha)|].
  split; [exact (proj1 (proj2 (proj2 Ha)))|].
  split; [exact (proj1 (proj2 (proj2 (proj2 Ha))))|].
  split; [exact Hb1|]. split; [exact Hb2|]. split; [exact Hb3|].
  exact (proj1 (proj2 (proj2 (proj2 (proj2 (proj2 (proj2 (proj2
           (proj2 (proj2 Hb))))))))) Hb3).
Defined.

Example rdtsc_halves_disagree :
  rdtsc_after (mk_context 0x400500 0xFFFFFFF0 0) 0
  = (mk_context 0x400500 0x54 0, 0x100000054).
Proof. reflexivity. Qed.

(** ** The value classifier *)

Section Values.
Variable hex : ADDRINT -> wstring.
Variable mem : Memory.

(** C7: what [paramToStr] writes, and where it writes nothing.  A null
    argument gives ["0"]; an address that cannot be read gives the bare
    pointer value, as the stream writes it in hexadecimal.  At an address
    that can be read, with [L1] the leading run of printable bytes: for
    [L1 > 1] the routine streams the bytes from the address up to the first
    zero byte, between two double quotes (unit 34); for [L1 = 1], when the
    run [L2] of printable 16-bit units is at least [L1], it streams the
    units up to the first zero unit, between [L] and a double quote, and a
    double quote; for [L1 = 1] and [L2 = 0], and for [L1 = 0], it writes the
    pointer value after the mark [ptr].  The string streamed is not cut at
    the printable run nor at the end of readable memory: the bytes
    [41 42 01 43 00] are written as the four units before the zero, and for
    the bytes [41 42 01] with no readable byte after them, where [L1 = 2],
    the stream reads past readable memory and no value is written at all;
    nor is one written when the scan for [L1] itself leaves readable
    memory.
    The bytes of [C:\a.txt] and a zero have [L1 = 8] and give the quoted
    string; the bytes [61 00 62 00] and a zero unit have [L1 = 1] and
    [L2 = 2] and give the quoted wide string [ab]. *)
Theorem paramToStr_outcomes (arg1 : ADDRINT) :
  paramToStr hex mem 0 = Some [48]
  /\ (arg1 <> 0 -> PIN_CheckReadAccess mem arg1 = false ->
      paramToStr hex mem arg1 = Some (hex arg1))
  /\ (arg1 <> 0 -> PIN_CheckReadAccess mem arg1 = true ->
      forall L1, getAsciiLen (mem arg1) kMaxStr = Some L1 ->
        ((1 < L1)%nat ->
         (forall s, c_str (mem arg1) = Some s ->
                    paramToStr hex mem arg1 = Some (34 :: s ++ [34])%list)
         /\ (c_str (mem arg1) = None -> paramToStr hex mem arg1 = None))
        /\ (L1 = 1%nat ->
            forall L2,
              getAsciiLenW (wchars_of (mem arg1)) kMaxStr = Some L2 ->
              ((L1 <= L2)%nat ->
               (forall s, c_str (wchars_of (mem arg1)) = Some s ->
                          paramToStr hex mem arg1
                          = Some (76 :: 34 :: s ++ [34])%list)
               /\ (c_str (wchars_of (mem arg1)) = None ->
                   paramToStr hex mem arg1 = None))
              /\ (L2 = 0%nat ->
                  paramToStr hex mem arg1
                  = Some (112 :: 116 :: 114 :: 32 :: hex arg1)))
        /\ (L1 = 0%nat ->
            paramToStr hex mem arg1
            = Some (112 :: 116 :: 114 :: 32 :: hex arg1)))
  /\ (arg1 <> 0 -> mem arg1 = (bytes_of "C:\a.txt" ++ [0])%list ->
      getAsciiLen (mem arg1) kMaxStr = Some 8%nat
      /\ paramToStr hex mem arg1
         = Some [34; 67; 58; 92; 97; 46; 116; 120; 116; 34])
  /\ (arg1 <> 0 -> mem arg1 = [0x61; 0; 0x62; 0; 0; 0] ->
      getAsciiLen (mem arg1) kMaxStr = Some 1%nat
      /\ getAsciiLenW (wchars_of (mem arg1)) kMaxStr = Some 2%nat
      /\ paramToStr hex mem arg1 = Some [76; 34; 97; 98; 34])
  /\ (arg1 <> 0 -> mem arg1 = [0x41; 0x42; 0x01; 0x43; 0] ->
      getAsciiLen (mem arg1) kMaxStr = Some 2%nat
      /\ paramToStr hex mem arg1 = Some [34; 65; 66; 1; 67; 34])
  /\ (arg1 <> 0 -> mem arg1 = [0x41; 0x42; 0x01] ->
      PIN_CheckReadAccess mem arg1 = true
      /\ getAsciiLen (mem arg1) kMaxStr = Some 2%nat
      /\ paramToStr hex mem arg1 = None)
  /\ (arg1 <> 0 -> PIN_CheckReadAccess mem arg1 = true ->
      getAsciiLen (mem arg1) kMaxStr = None ->
      paramToStr hex mem arg1 = None).
Proof.
  split; [reflexivity|].
  split; [|split; [|split; [|split; [|split; [|split]]]]].
  - intros Hnz Hr. apply Z.eqb_neq in Hnz.
    unfold paramToStr. rewrite Hnz, Hr. reflexivity.
  - intros Hnz Hr L1 Hlen. apply Z.eqb_neq in Hnz.
    unfold paramToStr. rewrite Hnz, Hr, Hlen. cbn [negb].
    split; [|split].
    + intros Hgt.
      destruct (Nat.eqb_spec L1 1) as [Heq|_]; [lia|].
      apply Nat.ltb_lt in Hgt. rewrite Hgt.
      split; [intros s Hs|intros Hs]; rewrite Hs; reflexivity.
    + intros Heq L2 Hw. subst L1. cbn [Nat.eqb].
      rewrite Hw. split.
      * intros Hle. apply Nat.leb_le in Hle. rewrite Hle.
        split; [intros s Hs|intros Hs]; rewrite Hs; reflexivity.
      * intros Hz. subst L2. reflexivity.
    + intros Heq. subst L1. reflexivity.
  - intros Hnz Hmem. apply Z.eqb_neq in Hnz.
    unfold paramToStr, PIN_CheckReadAccess. rewrite Hnz, Hmem.
    split; reflexivity.
  - intros Hnz Hmem. apply Z.eqb_neq in Hnz.
    unfold paramToStr, PIN_CheckReadAccess. rewrite Hnz, Hmem.
    repeat split.
  - intros Hnz Hmem. apply Z.eqb_neq in Hnz.
    unfold paramToStr, PIN_CheckReadAccess. rewrite Hnz, Hmem.
    split; reflexivity.
  - intros Hnz Hmem. apply Z.eqb_neq in Hnz.
    unfold paramToStr, PIN_CheckReadAccess. rewrite Hnz, Hmem.
    repeat split.
  - intros Hnz Hr Hlen. apply Z.eqb_neq in Hnz.
    unfold paramToStr. rewrite Hnz, Hr, Hlen. reflexivity.
Qed.
End Values.

Lemma paramToStr_outcomes_witness :
  paramToStr demo_hex demo_mem 0 = Some [48]
  /\ 0xDEAD0000 <> 0
  /\ PIN_CheckReadAccess demo_mem 0xDEAD0000 = false
  /\ paramToStr demo_hex demo_mem 0xDEAD0000
     = Some [48; 120; 100; 101; 97; 100; 48; 48; 48; 48]
  /\ 0x1000 <> 0
  /\ demo_mem 0x1000 = (bytes_of "C:\a.txt" ++ [0])%list
  /\ paramToStr demo_hex demo_mem 0x1000
     = Some [34; 67; 58; 92; 97; 46; 116; 120; 116; 34]
  /\ 0x2000 <> 0
  /\ demo_mem 0x2000 = [0x61; 0; 0x62; 0; 0; 0]
  /\ paramToStr demo_hex demo_mem 0x2000 = Some [76; 34; 97; 98; 34]
  /\ 0x10FFD <> 0
  /\ last_bytes 0x10FFD = [0x41; 0x42; 0x01]
  /\ PIN_CheckReadAccess last_bytes 0x10FFD = true
  /\ getAsciiLen (last_bytes 0x10FFD) kMaxStr = Some 2%nat
  /\ paramToStr demo_hex last_bytes 0x10FFD = None.
Proof.
  assert (H1 : 0xDEAD0000 <> 0) by discriminate.
  assert (H2 : 0x1000 <> 0) by discriminate.
  assert (H3 : 0x2000 <> 0) by discriminate.
  assert (H4 : 0x10FFD <> 0) by discriminate.
  split; [exact (proj1 (paramToStr_outcomes demo_hex demo_mem 0))|].
  split; [exact H1|]. split; [reflexivity|].
  split;
    [exact (proj1 (proj2 (paramToStr_outcomes demo_hex demo_mem 0xDEAD0000))
                  H1 eq_refl)|].
  split; [exact H2|]. split; [reflexivity|].
  split;
    [exact (proj2 (proj1 (proj2 (proj2 (proj2
              (paramToStr_outcomes demo_hex demo_mem 0x1000)))) H2 eq_refl))|].
  split; [exact H3|]. split; [reflexivity|].
  split;
    [exact (proj2 (proj2 (proj1 (proj2 (proj2 (proj2 (proj2
              (paramToStr_outcomes demo_hex demo_mem 0x2000)))))
                                 H3 eq_refl)))|].
  split; [exact H4|]. split; [reflexivity|].
  exact (proj1 (proj2 (proj2 (proj2 (proj2 (proj2 (proj2
           (paramToStr_outcomes demo_hex last_bytes 0x10FFD)))))))
               H4 eq_refl).
Defined.

(** A printable byte that is no low half of a printable unit: [L1 = 1],
    [L2 = 0], and the value is written as a pointer. *)
Example one_byte_is_a_pointer :
  paramToStr demo_hex (fun _ => [0x61; 0x01; 0; 0]) 0x3000
  = Some (L "ptr 0x3000").
Proof. reflexivity. Qed.

(** ** The watch list *)

Lemma chars_equal_i_lower (a b : string) :
  String.length a = String.length b ->
  (chars_equal_i a b = true <-> lower a = lower b).
Proof.
  revert b. induction a as [|c a IH]; intros [|d b] Hlen; simpl in *;
    try discriminate; [split; reflexivity|].
  injection Hlen as Hlen.
  destruct (Ascii.eqb_spec (tolower c) (tolower d)) as [Heq|Hne].
  - rewrite Heq. rewrite (IH b Hlen). split; [congruence|].
    intros H. injection H as H. exact H.
  - split; [discriminate|]. intros H. injection H as Hc _. contradiction.
Qed.

Lemma lower_length (a : string) : String.length (lower a) = String.length a.
Proof. induction a; simpl; congruence. Qed.

Lemma iequals_lower (a b : string) : iequals a b = true <-> lower a = lower b.
Proof.
  unfold iequals, isStrEqualI.
  destruct (Nat.eqb_spec (String.length a) (String.length b)) as [Hlen|Hlen];
    simpl.
  - apply chars_equal_i_lower. exact Hlen.
  - split; [discriminate|]. intros H. exfalso. apply Hlen.
    rewrite <- (lower_length a), <- (lower_length b), H. reflexivity.
Qed.

Lemma iequals_of_lower (a b a' b' : string) :
  lower a = lower a' -> lower b = lower b' -> iequals a b = iequals a' b'.
Proof.
  intros Ha Hb.
  destruct (iequals a b) eqn:H1, (iequals a' b') eqn:H2; try reflexivity.
  - apply iequals_lower in H1.
    assert (H : iequals a' b' = true) by (apply iequals_lower; congruence).
    congruence.
  - apply iequals_lower in H2.
    assert (H : iequals a b = true) by (apply iequals_lower; congruence).
    congruence.
Qed.

Lemma same_key_lower (x y : WFuncInfo) :
  same_key x y = true
  <-> lower (dllName x) = lower (dllName y)
      /\ lower (funcName x) = lower (funcName y).
Proof.
  unfold same_key. rewrite andb_true_iff, !iequals_lower. reflexivity.
Qed.

Lemma update_max (this func_info : WFuncInfo) :
  snd (update this func_info)
  = mk_func (dllName this) (funcName this)
            (Z.max (paramCount this) (paramCount func_info)).
Proof.
  unfold update. destruct this as [d f p]. simpl.
  destruct (Z.ltb_spec p (paramCount func_info)); simpl.
  - rewrite Z.max_r by lia. reflexivity.
  - rewrite Z.max_l by lia. reflexivity.
Qed.

Lemma findFunc_Some (funcs : list WFuncInfo) (d f : string) (i : nat) :
  findFunc funcs d f = Some i ->
  exists found,
    nth_error funcs i = Some found
    /\ iequals (dllName found) d && iequals (funcName found) f = true.
Proof.
  revert i. induction funcs as [|x funcs IH]; intros i H; simpl in H;
    [discriminate|].
  destruct (iequals (dllName x) d && iequals (funcName x) f) eqn:Hx.
  - injection H as <-. exists x. split; [reflexivity | exact Hx].
  - destruct (findFunc funcs d f) as [j|]; [|discriminate].
    injection H as <-. apply (IH j eq_refl).
Qed.

Lemma findFunc_None (funcs : list WFuncInfo) (d f : string) :
  findFunc funcs d f = None <->
  forall x, In x funcs ->
            iequals (dllName x) d && iequals (funcName x) f = false.
Proof.
  induction funcs as [|y funcs IH]; simpl.
  - split; [intros _ x []|reflexivity].
  - destruct (iequals (dllName y) d && iequals (funcName y) f) eqn:Hy.
    + split; [discriminate|]. intros H. specialize (H y (or_introl eq_refl)).
      congruence.
    + destruct (findFunc funcs d f) as [j|]; simpl.
      * split; [discriminate|]. intros H.
        assert (Hn : Some j = None).
        { apply (proj2 IH). intros x Hx. apply H. right. exact Hx. }
        discriminate Hn.
      * split; [|reflexivity]. intros _ x [<-|Hx]; [exact Hy|].
        apply (proj1 IH eq_refl). exact Hx.
Qed.

Lemma findFunc_names (funcs funcs' : list WFuncInfo) (d f : string) :
  names funcs = names funcs' -> findFunc funcs d f = findFunc funcs' d f.
Proof.
  revert funcs'. induction funcs as [|x funcs IH]; intros [|y funcs'] H;
    simpl in *; try discriminate; [reflexivity|].
  injection H as Hd Hf Hrest. rewrite Hd, Hf, (IH funcs' Hrest). reflexivity.
Qed.

Lemma findFunc_lower (funcs : list WFuncInfo) (d f d' f' : string) :
  lower d = lower d' -> lower f = lower f' ->
  findFunc funcs d f = findFunc funcs d' f'.
Proof.
  intros Hd Hf. induction funcs as [|x funcs IH]; simpl; [reflexivity|].
  rewrite (iequals_of_lower (dllName x) d (dllName x) d' eq_refl Hd).
  rewrite (iequals_of_lower (funcName x) f (funcName x) f' eq_refl Hf).
  rewrite IH. reflexivity.
Qed.

Lemma findFunc_app_last (funcs : list WFuncInfo) (x : WFuncInfo)
  (d f : string) :
  findFunc funcs d f = None ->
  iequals (dllName x) d && iequals (funcName x) f = true ->
  findFunc (funcs ++ [x]) d f = Some (List.length funcs).
Proof.
  intros Hnone Hx. induction funcs as [|y funcs IH]; simpl in *.
  - rewrite Hx. reflexivity.
  - destruct (iequals (dllName y) d && iequals (funcName y) f);
      [discriminate|].
    destruct (findFunc funcs d f); [discriminate|].
    rewrite (IH eq_refl). reflexivity.
Qed.

Lemma set_nth_names (funcs : list WFuncInfo) (i : nat) (x x' : WFuncInfo) :
  nth_error funcs i = Some x ->
  dllName x' = dllName x -> funcName x' = funcName x ->
  names (set_nth i x' funcs) = names funcs.
Proof.
  revert i. induction funcs as [|y funcs IH]; intros [|i] H Hd Hf; simpl in *;
    try discriminate.
  - injection H as ->. unfold names. simpl. rewrite Hd, Hf. reflexivity.
  - unfold names in *. simpl. rewrite (IH i H Hd Hf). reflexivity.
Qed.

Lemma set_nth_same (funcs : list WFuncInfo) (i : nat) (x : WFuncInfo) :
  nth_error funcs i <> None -> nth_error (set_nth i x funcs) i = Some x.
Proof.
  revert i. induction funcs as [|y funcs IH]; intros [|i] H; simpl in *;
    try congruence. apply IH. exact H.
Qed.

Lemma set_nth_other (funcs : list WFuncInfo) (i j : nat) (x : WFuncInfo) :
  i <> j -> nth_error (set_nth i x funcs) j = nth_error funcs j.
Proof.
  revert i j. induction funcs as [|y funcs IH]; intros [|i] [|j] H; simpl;
    try reflexivity; try congruence.
  apply IH. congruence.
Qed.

Lemma set_nth_twice (funcs : list WFuncInfo) (i : nat) (x y : WFuncInfo) :
  set_nth i y (set_nth i x funcs) = set_nth i y funcs.
Proof.
  revert i. induction funcs as [|z funcs IH]; intros [|i]; simpl;
    try reflexivity. rewrite IH. reflexivity.
Qed.

Lemma set_nth_app_last (funcs : list WFuncInfo) (x y : WFuncInfo) :
  set_nth (List.length funcs) y (funcs ++ [x]) = (funcs ++ [y])%list.
Proof. induction funcs as [|z funcs IH]; simpl; congruence. Qed.

Lemma set_nth_widened (funcs : list WFuncInfo) (i : nat) (x x' : WFuncInfo) :
  nth_error funcs i = Some x -> widened x x' ->
  Forall2 widened funcs (set_nth i x' funcs).
Proof.
  assert (Hrefl : forall l, Forall2 widened l l).
  { induction l; constructor; [unfold widened; repeat split; lia | assumption]. }
  revert i. induction funcs as [|y funcs IH]; intros [|i] H Hw; simpl in *;
    try discriminate.
  - injection H as ->. constructor; [exact Hw | apply Hrefl].
  - constructor; [unfold widened; repeat split; lia | apply (IH i H Hw)].
Qed.

Section WatchList.
Variable isValid : WFuncInfo -> bool.

Lemma appendFunc_found (funcs : list WFuncInfo) (func_info found : WFuncInfo)
  (i : nat) :
  isValid func_info = true ->
  findFunc funcs (dllName func_info) (funcName func_info) = Some i ->
  nth_error funcs i = Some found ->
  appendFunc isValid funcs func_info
  = (true, set_nth i (mk_func (dllName found) (funcName found)
                              (Z.max (paramCount found)
                                     (paramCount func_info))) funcs).
Proof.
  intros Hv Hf Hn. unfold appendFunc. rewrite Hv, Hf, Hn. simpl.
  rewrite update_max. reflexivity.
Qed.

Lemma appendFunc_new (funcs : list WFuncInfo) (func_info : WFuncInfo) :
  isValid func_info = true ->
  findFunc funcs (dllName func_info) (funcName func_info) = None ->
  appendFunc isValid funcs func_info = (true, (funcs ++ [func_info])%list).
Proof. intros Hv Hf. unfold appendFunc. rewrite Hv, Hf. reflexivity. Qed.

Lemma Forall2_widened_refl (l : list WFuncInfo) : Forall2 widened l l.
Proof.
  induction l; constructor; [unfold widened; repeat split; lia | assumption].
Qed.

Lemma appendFunc_never_narrows (funcs : list WFuncInfo)
  (func_info : WFuncInfo) :
  Forall2 widened funcs
          (firstn (List.length funcs)
                  (snd (appendFunc isValid funcs func_info))).
Proof.
  unfold appendFunc. destruct (isValid func_info); simpl.
  2:{ rewrite firstn_all. apply Forall2_widened_refl. }
  destruct (findFunc funcs (dllName func_info) (funcName func_info))
    as [i|] eqn:Hf; simpl.
  - destruct (findFunc_Some _ _ _ _ Hf) as [found [Hn _]]. rewrite Hn. simpl.
    rewrite update_max.
    assert (Hlen : forall l k x, List.length (set_nth k x l) = List.length l).
    { induction l as [|y l IHl]; intros [|k] x; simpl; auto. }
    rewrite <- (Hlen funcs i (mk_func (dllName found) (funcName found)
                  (Z.max (paramCount found) (paramCount func_info)))) at 1.
    rewrite firstn_all.
    apply (set_nth_widened funcs i found); [exact Hn|].
    unfold widened. simpl. repeat split; lia.
  - rewrite firstn_app, firstn_all, Nat.sub_diag. simpl.
    rewrite app_nil_r. apply Forall2_widened_refl.
Qed.

Lemma appendFunc_commutes (funcs : list WFuncInfo) (a b : WFuncInfo) :
  isValid a = true -> isValid b = true -> same_key a b = true ->
  map paramCount
      (snd (appendFunc isValid (snd (appendFunc isValid funcs a)) b))
  = map paramCount
        (snd (appendFunc isValid (snd (appendFunc isValid funcs b)) a)).
Proof.
  intros Ha Hb Hk.
  pose proof (proj1 (same_key_lower a b) Hk) as [Hd Hf].
  assert (Hk' : same_key b a = true)
    by (apply same_key_lower; split; congruence).
  pose proof (findFunc_lower funcs _ _ _ _ Hd Hf) as Hsame.
  destruct (findFunc funcs (dllName a) (funcName a)) as [i|] eqn:Hfa.
  - destruct (findFunc_Some _ _ _ _ Hfa) as [x [Hn _]].
    assert (Hstep : forall p q : WFuncInfo,
      isValid p = true -> isValid q = true ->
      findFunc funcs (dllName p) (funcName p) = Some i ->
      findFunc funcs (dllName q) (funcName q) = Some i ->
      snd (appendFunc isValid (snd (appendFunc isValid funcs p)) q)
      = set_nth i (mk_func (dllName x) (funcName x)
                     (Z.max (Z.max (paramCount x) (paramCount p))
                            (paramCount q))) funcs).
    { intros p q Hp Hq Hfp Hfq.
      rewrite (appendFunc_found funcs p x i Hp Hfp Hn). simpl.
      set (x1 := mk_func (dllName x) (funcName x)
                         (Z.max (paramCount x) (paramCount p))).
      assert (Hnames : names (set_nth i x1 funcs) = names funcs)
        by (apply (set_nth_names funcs i x x1 Hn); reflexivity).
      rewrite (appendFunc_found (set_nth i x1 funcs) q x1 i Hq).
      - simpl. rewrite set_nth_twice. reflexivity.
      - rewrite (findFunc_names _ _ _ _ Hnames). exact Hfq.
      - apply set_nth_same. congruence. }
    rewrite (Hstep a b Ha Hb Hfa (eq_sym Hsame)).
    rewrite (Hstep b a Hb Ha (eq_sym Hsame) Hfa).
    f_equal. f_equal. f_equal. lia.
  - assert (Hstep : forall p q : WFuncInfo,
      isValid p = true -> isValid q = true -> same_key p q = true ->
      findFunc funcs (dllName p) (funcName p) = None ->
      findFunc funcs (dllName q) (funcName q) = None ->
      snd (appendFunc isValid (snd (appendFunc isValid funcs p)) q)
      = (funcs ++ [mk_func (dllName p) (funcName p)
                     (Z.max (paramCount p) (paramCount q))])%list).
    { intros p q Hp Hq Hpq Hfp Hfq.
      rewrite (appendFunc_new funcs p Hp Hfp). simpl.
      rewrite (appendFunc_found (funcs ++ [p]) q p (List.length funcs) Hq).
      - simpl. apply set_nth_app_last.
      - apply findFunc_app_last; [exact Hfq | exact Hpq].
      - rewrite nth_error_app2 by lia. rewrite Nat.sub_diag. reflexivity. }
    rewrite (Hstep a b Ha Hb Hk Hfa (eq_sym Hsame)).
    rewrite (Hstep b a Hb Ha Hk' (eq_sym Hsame) Hfa).
    rewrite !map_app. simpl. f_equal. f_equal. lia.
Qed.

(** C8: an accepted entry whose key matches an entry of the list, case
    ignored, is merged into the first such entry, whose count becomes the
    larger of the two; the names in the list stay as they are, so no second
    entry for the key appears.  Whatever is added, no entry of the list gets
    a smaller count.  Adding two accepted entries with matching keys gives
    the same counts in either order; [("k32.dll","CreateFileW",3)] and
    [("k32.dll","CreateFileW",7)] give the single entry with count 7. *)
Theorem appendFunc_widens (funcs : list WFuncInfo) (func_info : WFuncInfo) :
  (isValid func_info = true ->
   forall x, In x funcs -> same_key x func_info = true ->
     exists i found,
       nth_error funcs i = Some found
       /\ same_key found func_info = true
       /\ appendFunc isValid funcs func_info
          = (true, set_nth i (mk_func (dllName found) (funcName found)
                                (Z.max (paramCount found)
                                       (paramCount func_info))) funcs)
       /\ nth_error (snd (appendFunc isValid funcs func_info)) i
          = Some (mk_func (dllName found) (funcName found)
                    (Z.max (paramCount found) (paramCount func_info)))
       /\ names (snd (appendFunc isValid funcs func_info)) = names funcs
       /\ List.length (snd (appendFunc isValid funcs func_info))
          = List.length funcs)
  /\ Forall2 widened funcs
             (firstn (List.length funcs)
                     (snd (appendFunc isValid funcs func_info)))
  /\ (forall other,
         isValid func_info = true -> isValid other = true ->
         same_key func_info other = true ->
         map paramCount
             (snd (appendFunc isValid
                     (snd (appendFunc isValid funcs func_info)) other))
         = map paramCount
               (snd (appendFunc isValid
                       (snd (appendFunc isValid funcs other)) func_info)))
  /\ (isValid CreateFileW_3 = true -> isValid CreateFileW_7 = true ->
      snd (appendFunc isValid
             (snd (appendFunc isValid [] CreateFileW_3)) CreateFileW_7)
      = [CreateFileW_7]
      /\ snd (appendFunc isValid
                (snd (appendFunc isValid [] CreateFileW_7)) CreateFileW_3)
         = [CreateFileW_7]).
Proof.
  split; [|split; [|split]].
  - intros Hv x Hin Hx.
    destruct (findFunc funcs (dllName func_info) (funcName func_info))
      as [i|] eqn:Hf.
    + destruct (findFunc_Some _ _ _ _ Hf) as [found [Hn Hk]].
      exists i, found.
      pose proof (appendFunc_found funcs func_info found i Hv Hf Hn) as Hrun.
      split; [exact Hn|]. split; [exact Hk|]. split; [exact Hrun|].
      rewrite Hrun. simpl. split; [|split].
      * apply set_nth_same. congruence.
      * apply (set_nth_names funcs i found); [exact Hn| |]; reflexivity.
      * rewrite <- (length_map (fun w => (dllName w, funcName w))).
        rewrite <- (length_map (fun w => (dllName w, funcName w)) funcs).
        fold (names funcs).
        fold (names (set_nth i
                  (mk_func (dllName found) (funcName found)
                     (Z.max (paramCount found) (paramCount func_info)))
                  funcs)).
        rewrite (set_nth_names funcs i found); [reflexivity|exact Hn| |];
          reflexivity.
    + exfalso. pose proof (proj1 (findFunc_None _ _ _) Hf x Hin) as Hno.
      unfold same_key in Hx. congruence.
  - apply appendFunc_never_narrows.
  - intros other Hv Ho Hk. apply appendFunc_commutes; assumption.
  - intros H3 H7. unfold appendFunc. simpl. rewrite H3, H7. simpl.
    split; reflexivity.
Qed.
End WatchList.

Lemma appendFunc_widens_witness :
  has_names CreateFileW_7 = true
  /\ has_names CreateFileW_3 = true
  /\ In CreateFileW_3 [CreateFileW_3]
  /\ same_key CreateFileW_3 CreateFileW_7 = true
  /\ snd (appendFunc has_names
            (snd (appendFunc has_names [] CreateFileW_3)) CreateFileW_7)
     = [CreateFileW_7]
  /\ snd (appendFunc has_names
            (snd (appendFunc has_names [] CreateFileW_7)) CreateFileW_3)
     = [CreateFileW_7]
  /\ map paramCount
         (snd (appendFunc has_names
                 (snd (appendFunc has_names [CreateFileW_3] CreateFileW_7))
                 CreateFileW_3))
     = map paramCount
           (snd (appendFunc has_names
                   (snd (appendFunc has_names [CreateFileW_3] CreateFileW_3))
                   CreateFileW_7))
  /\ exists i found,
       nth_error [CreateFileW_3] i = Some found
       /\ nth_error (snd (appendFunc has_names [CreateFileW_3] CreateFileW_7)) i
          = Some (mk_func (dllName found) (funcName found)
                    (Z.max (paramCount found) (paramCount CreateFileW_7))).
Proof.
  assert (H7 : has_names CreateFileW_7 = true) by reflexivity.
  assert (H3 : has_names CreateFileW_3 = true) by reflexivity.
  assert (Hin : In CreateFileW_3 [CreateFileW_3]) by (left; reflexivity).
  assert (Hk : same_key CreateFileW_3 CreateFileW_7 = true) by reflexivity.
  assert (Hk' : same_key CreateFileW_7 CreateFileW_3 = true) by reflexivity.
  pose proof (appendFunc_widens has_names [CreateFileW_3] CreateFileW_7) as H.
  destruct H as [Hmerge [_ [Hcomm Hex]]].
  split; [exact H7|]. split; [exact H3|]. split; [exact Hin|].
  split; [exact Hk|].
  split; [exact (proj1 (Hex H3 H7))|].
  split; [exact (proj2 (Hex H3 H7))|].
  split; [exact (Hcomm CreateFileW_3 H7 H3 Hk')|].
  destruct (Hmerge H7 CreateFileW_3 Hin Hk)
    as [i [found [Hn [_ [_ [Hnth _]]]]]].
  exists i, found. split; [exact Hn | exact Hnth].
Defined.

(** ** Reading the watch list *)

Lemma extract_line_shorter (delim : ascii) (room : option nat)
  (l : list ascii) :
  let '(_, r, e) := extract_line delim room l in
  match e with
  | at_delimiter => (List.length r < List.length l)%nat
  | at_eof => r = []
  | at_capacity => room <> None
  end.
Proof.
  revert room. induction l as [|c l IH]; intros room; simpl; [reflexivity|].
  destruct (Ascii.eqb c delim); [simpl; lia|].
  destruct room as [[|k]|].
  - discriminate.
  - specialize (IH (Some k)).
    destruct (extract_line delim (Some k) l) as [[s r] e].
    destruct e; [exact IH | simpl; lia | discriminate].
  - specialize (IH None).
    destruct (extract_line delim None l) as [[s r] e].
    destruct e; [exact IH | simpl; lia | exact IH].
Qed.

(** The loop of [split_list] ends within the iterations it is given. *)
Lemma split_loop_ends (fuel : nat) (f : istream) (delimiter : ascii)
  (args : list string) :
  (List.length (unread f) + 2 <= fuel)%nat ->
  split_loop fuel f delimiter args <> None.
Proof.
  revert f args. induction fuel as [|n IH]; intros f args Hfuel; [lia|].
  simpl. unfold getline.
  destruct (good f); simpl; [|discriminate].
  pose proof (extract_line_shorter delimiter None (unread f)) as Hex.
  destruct (extract_line delimiter None (unread f)) as [[s r] e].
  destruct e; simpl.
  - subst r. destruct s; [discriminate|].
    destruct n as [|n]; [simpl in Hfuel; lia|]. simpl. discriminate.
  - apply IH. simpl. lia.
  - discriminate.
Qed.

Lemma split_list_ends (sline : string) (delimiter : ascii)
  (args : list string) :
  split_loop (String.length sline + 2) (open_stream sline) delimiter args
  = Some (split_list sline delimiter args).
Proof.
  unfold split_list.
  destruct (split_loop (String.length sline + 2) (open_stream sline)
                       delimiter args) eqn:H; [reflexivity|].
  exfalso. revert H. apply split_loop_ends. simpl.
  assert (Hlen : List.length (list_ascii_of_string sline)
                 = String.length sline).
  { clear. induction sline; simpl; congruence. }
  rewrite Hlen. lia.
Qed.

Section Loader.
Variable isValid : WFuncInfo -> bool.

Lemma loadList_loop_step (n : nat) (f : istream) (funcs : list WFuncInfo) :
  eofbit f = false ->
  loadList_loop isValid (S n) f funcs
  = let r := getline f "010"%char (Some (MAX_LINE - 1)%nat) in
    let l := load new_WFuncInfo (string_of_buffer (fst r)) ";"%char in
    loadList_loop isValid n (snd r)
      (if fst l then snd (appendFunc isValid funcs (snd l)) else funcs).
Proof.
  intros Heof. cbn [loadList_loop]. rewrite Heof. cbv zeta.
  destruct (getline f "010"%char (Some (MAX_LINE - 1)%nat)) as [line f'].
  cbn [fst snd].
  destruct (load new_WFuncInfo (string_of_buffer line) ";"%char)
    as [loaded func_info].
  reflexivity.
Qed.

(** Once the fail bit is set without the end bit, no later [getline]
    reads anything and the end is never seen. *)
Lemma loadList_loop_stuck (fuel : nat) (f : istream)
  (funcs : list WFuncInfo) :
  failbit f = true -> eofbit f = false ->
  loadList_loop isValid fuel f funcs = None.
Proof.
  revert f funcs. induction fuel as [|n IH]; intros f funcs Hfail Heof;
    [reflexivity|].
  rewrite loadList_loop_step by exact Heof. cbv zeta.
  assert (Hg : getline f "010"%char (Some (MAX_LINE - 1)%nat)
               = (EmptyString, mk_istream (unread f) (eofbit f) true)).
  { unfold getline, good. rewrite Hfail, Heof. reflexivity. }
  rewrite Hg. cbn [fst snd string_of_buffer].
  change (fst (load new_WFuncInfo EmptyString ";"%char)) with false.
  cbv iota. apply IH; [reflexivity | exact Heof].
Qed.

(** What the loader does right: a file that cannot be opened leaves the
    list as it is and the answer is 0; a line with fewer than three fields
    is not loaded; a count that, after its leading spaces, starts with
    neither a digit nor a sign reads as 0. *)
Lemma loadList_parts (fuel : nat) (funcs : list WFuncInfo)
  (this : WFuncInfo) (sline field : string) :
  loadList isValid fuel None funcs = Some (O, funcs)
  /\ ((List.length (split_list sline ";"%char []) < 3)%nat ->
      load this sline ";"%char = (false, this))
  /\ ((List.length (split_list sline ";"%char []) >= 3)%nat ->
      fst (load this sline ";"%char) = true)
  /\ (match skip_spaces field with
      | String c _ =>
          digit_value c = None /\ c <> "+"%char /\ c <> "-"%char
      | EmptyString => True
      end -> parse_paramCount field = 0).
Proof.
  split; [reflexivity|]. split; [|split].
  - intros Hlt. unfold load. apply Nat.ltb_lt in Hlt. rewrite Hlt.
    reflexivity.
  - intros Hge. unfold load.
    destruct (Nat.ltb_spec (List.length (split_list sline ";"%char [])) 3);
      [lia | reflexivity].
  - unfold parse_paramCount. destruct (skip_spaces field) as [|c r];
      [reflexivity|].
    intros [Hd _]. simpl. rewrite Hd. reflexivity.
Qed.

Lemma list_ascii_of_string_app (a b : string) :
  list_ascii_of_string (a ++ b)
  = (list_ascii_of_string a ++ list_ascii_of_string b)%list.
Proof. induction a as [|c a IH]; simpl; congruence. Qed.

Lemma extract_line_whole (line : string) (room : nat) (rest : list ascii) :
  ~ In "010"%char (list_ascii_of_string line) ->
  (String.length line <= room)%nat ->
  extract_line "010"%char (Some room)
               (list_ascii_of_string line ++ "010"%char :: rest)
  = (line, rest, at_delimiter).
Proof.
  revert room. induction line as [|c line IH]; intros room Hnl Hlen; simpl.
  - reflexivity.
  - simpl in Hnl, Hlen.
    destruct (Ascii.eqb_spec c "010"%char) as [Hc|Hc];
      [exfalso; apply Hnl; left; exact Hc|].
    destruct room as [|k]; [lia|].
    rewrite (IH k); [reflexivity| |lia].
    intros Hin. apply Hnl. right. exact Hin.
Qed.

(** On a file whose lines all fit the buffer the loop ends, and the list
    is the one obtained by handling the lines one after the other; a line
    with fewer than three fields leaves the list as it is. *)
Lemma loadList_lines (lines : list string) (funcs : list WFuncInfo)
  (fuel : nat) :
  Forall fits_buffer lines ->
  (List.length lines + 2 <= fuel)%nat ->
  loadList_loop isValid fuel (open_stream (file_of_lines lines)) funcs
  = Some (fold_left (load_line isValid) lines funcs).
Proof.
  intros Hfit. revert funcs fuel.
  induction Hfit as [|line lines [Hlen Hnl] Hfit IH]; intros funcs fuel Hfuel.
  - destruct fuel as [|[|n]]; simpl in Hfuel; try lia. reflexivity.
  - destruct fuel as [|n]; simpl in Hfuel; [lia|].
    rewrite loadList_loop_step by reflexivity. cbv zeta.
    assert (Hg : getline (open_stream (file_of_lines (line :: lines)))
                         "010"%char (Some (MAX_LINE - 1)%nat)
                 = (line, open_stream (file_of_lines lines))).
    { unfold getline, open_stream, good. cbn [eofbit failbit unread negb andb].
      cbn [file_of_lines fold_right]. fold (file_of_lines lines).
      rewrite list_ascii_of_string_app. unfold newline_char.
      cbn [append list_ascii_of_string].
      rewrite extract_line_whole; [reflexivity | exact Hnl|].
      unfold MAX_LINE in *. lia. }
    rewrite Hg. cbn [fst snd].
    rewrite (IH _ n) by lia. cbn [fold_left]. unfold load_line.
    destruct (load new_WFuncInfo (string_of_buffer line) ";"%char)
      as [loaded func_info].
    reflexivity.
Qed.

Lemma load_line_skips (funcs : list WFuncInfo) (line : string) :
  (List.length (split_list (string_of_buffer line) ";"%char []) < 3)%nat ->
  load_line isValid funcs line = funcs.
Proof.
  intros Hlt. unfold load_line, load. apply Nat.ltb_lt in Hlt. rewrite Hlt.
  reflexivity.
Qed.

(** C9 against the code: a file whose first line has fewer than three
    fields and 300 characters is read and never left: [getline] fills its
    buffer of 300, sets the fail bit, and every later call reads nothing
    while the end of the file is never reported, so the entry on the next
    line is not loaded, whatever the number of iterations.  With a short
    line in its place the loop ends and the entry is loaded. *)
Theorem loadList_long_line_never_ends :
  (forall fuel,
      loadList isValid fuel (Some file_with_long_line) [] = None)
  /\ (isValid CreateFileW_3 = true ->
      forall fuel,
        loadList isValid (4 + fuel) (Some file_with_short_line) []
        = Some (1%nat, [CreateFileW_3])).
Proof.
  split.
  - intros fuel. unfold loadList.
    assert (Hloop : loadList_loop isValid fuel
                      (open_stream file_with_long_line) [] = None).
    { destruct fuel as [|n]; [reflexivity|].
      rewrite loadList_loop_step by reflexivity. cbv zeta.
      set (r := getline (open_stream file_with_long_line) "010"%char
                        (Some (MAX_LINE - 1)%nat)).
      assert (Hfail : failbit (snd r) = true) by (vm_compute; reflexivity).
      assert (Heof : eofbit (snd r) = false) by (vm_compute; reflexivity).
      assert (Hload : fst (load new_WFuncInfo (string_of_buffer (fst r))
                                ";"%char) = false)
        by (vm_compute; reflexivity).
      rewrite Hload. apply loadList_loop_stuck; assumption. }
    rewrite Hloop. reflexivity.
  - intros Hv fuel. unfold loadList.
    assert (Hloop : loadList_loop isValid (4 + fuel)
                      (open_stream file_with_short_line) []
                    = Some [CreateFileW_3]).
    { change (4 + fuel)%nat with (S (S (S (S fuel)))).
      rewrite loadList_loop_step by reflexivity. cbv zeta.
      set (r1 := getline (open_stream file_with_short_line) "010"%char
                         (Some (MAX_LINE - 1)%nat)).
      assert (H1 : fst (load new_WFuncInfo (string_of_buffer (fst r1))
                             ";"%char) = false)
        by (vm_compute; reflexivity).
      rewrite H1.
      rewrite loadList_loop_step by (vm_compute; reflexivity). cbv zeta.
      set (r2 := getline (snd r1) "010"%char (Some (MAX_LINE - 1)%nat)).
      assert (H2 : load new_WFuncInfo (string_of_buffer (fst r2)) ";"%char
                   = (true, CreateFileW_3))
        by (vm_compute; reflexivity).
      rewrite H2. cbn [fst snd].
      assert (Happ : snd (appendFunc isValid [] CreateFileW_3)
                     = [CreateFileW_3]).
      { unfold appendFunc. rewrite Hv. reflexivity. }
      rewrite Happ.
      rewrite loadList_loop_step by (vm_compute; reflexivity). cbv zeta.
      set (r3 := getline (snd r2) "010"%char (Some (MAX_LINE - 1)%nat)).
      assert (H3 : fst (load new_WFuncInfo (string_of_buffer (fst r3))
                             ";"%char) = false)
        by (vm_compute; reflexivity).
      rewrite H3.
      assert (Heof : eofbit (snd r3) = true) by (vm_compute; reflexivity).
      destruct fuel; cbn [loadList_loop]; rewrite Heof; reflexivity. }
    rewrite Hloop. reflexivity.
Qed.
End Loader.

Lemma loadList_long_line_never_ends_witness :
  has_names CreateFileW_3 = true
  /\ loadList has_names 4 (Some file_with_short_line) []
     = Some (1%nat, [CreateFileW_3])
  /\ loadList has_names 1000 (Some file_with_long_line) [] = None.
Proof.
  split; [reflexivity|]. split.
  - exact (proj2 (loadList_long_line_never_ends has_names) eq_refl O).
  - exact (proj1 (loadList_long_line_never_ends has_names) 1000%nat).
Defined.

(** * Further properties of the watch list *)

Section Splitting.
Variable delimiter : ascii.

Lemma string_of_chars_inv (s : string) :
  string_of_list_ascii (list_ascii_of_string s) = s.
Proof. induction s; simpl; congruence. Qed.

Lemma string_app_assoc (a b c : string) :
  ((a ++ b) ++ c = a ++ (b ++ c))%string.
Proof. induction a; simpl; congruence. Qed.

Lemma string_app_length (a b : string) :
  String.length (a ++ b) = (String.length a + String.length b)%nat.
Proof. induction a; simpl; auto. Qed.

Lemma list_ascii_length (s : string) :
  List.length (list_ascii_of_string s) = String.length s.
Proof. induction s; simpl; congruence. Qed.

(** What one extraction without a bound takes: the characters up to the
    first delimiter, or all of them when there is none. *)
Lemma extract_line_splits (l : list ascii) :
  let '(tok, r, e) := extract_line delimiter None l in
  lacks delimiter tok
  /\ match e with
     | at_delimiter => l = (list_ascii_of_string tok ++ delimiter :: r)%list
     | at_eof => l = list_ascii_of_string tok /\ r = []
     | at_capacity => False
     end.
Proof.
  induction l as [|c l IH]; simpl.
  - split; [intros []|split; reflexivity].
  - destruct (Ascii.eqb_spec c delimiter) as [Hc|Hc].
    + subst c. split; [intros []|reflexivity].
    + destruct (extract_line delimiter None l) as [[tok r] e].
      destruct IH as [Hl He]. split.
      * intros [Hin|Hin]; [congruence | exact (Hl Hin)].
      * destruct e; simpl.
        -- destruct He as [He Hr]. split; congruence.
        -- congruence.
        -- exact He.
Qed.

Lemma extract_line_field (f : string) (rest : list ascii) :
  lacks delimiter f ->
  extract_line delimiter None
               (list_ascii_of_string f ++ delimiter :: rest)
  = (f, rest, at_delimiter).
Proof.
  induction f as [|c f IH]; intros Hl; simpl.
  - rewrite Ascii.eqb_refl. reflexivity.
  - destruct (Ascii.eqb_spec c delimiter) as [Hc|Hc];
      [exfalso; apply Hl; left; exact Hc|].
    rewrite IH; [reflexivity|]. intros Hin. apply Hl. right. exact Hin.
Qed.

Lemma extract_line_last (f : string) :
  lacks delimiter f ->
  extract_line delimiter None (list_ascii_of_string f) = (f, [], at_eof).
Proof.
  induction f as [|c f IH]; intros Hl; simpl; [reflexivity|].
  destruct (Ascii.eqb_spec c delimiter) as [Hc|Hc];
    [exfalso; apply Hl; left; exact Hc|].
  rewrite IH; [reflexivity|]. intros Hin. apply Hl. right. exact Hin.
Qed.

Lemma join_cons (f g : string) (rest : list string) :
  join delimiter (f :: g :: rest)
  = (f ++ String delimiter (join delimiter (g :: rest)))%string.
Proof. reflexivity. Qed.

(** The loop on the fields of a line put together: it gives the fields
    back, after what the vector held. *)
Lemma split_loop_join (fields args : list string) (fuel : nat) :
  Forall (lacks delimiter) fields ->
  last fields "x"%string <> EmptyString ->
  (String.length (join delimiter fields) + 2 <= fuel)%nat ->
  split_loop fuel (open_stream (join delimiter fields)) delimiter args
  = Some (args ++ fields)%list.
Proof.
  intros Hl. revert args fuel.
  induction Hl as [|f fields Hf Hl IH]; intros args fuel Hlast Hfuel.
  - destruct fuel as [|n]; [simpl in Hfuel; lia|]. simpl.
    rewrite app_nil_r. reflexivity.
  - destruct fuel as [|n]; [lia|].
    destruct fields as [|g fields].
    + (* the last field *)
      simpl in Hlast.
      cbn [split_loop]. unfold getline, open_stream, good.
      cbn [unread eofbit failbit negb andb join].
      rewrite (extract_line_last f Hf).
      destruct f as [|c f]; [contradiction|]. cbn [failbit].
      destruct n as [|n]; [simpl in Hfuel; lia|]. reflexivity.
    + rewrite join_cons in *.
      cbn [split_loop]. unfold getline, open_stream, good.
      cbn [unread eofbit failbit negb andb].
      rewrite list_ascii_of_string_app. cbn [list_ascii_of_string].
      rewrite (extract_line_field f _ Hf). cbn [failbit].
      fold (open_stream (join delimiter (g :: fields))).
      rewrite (IH (args ++ [f])%list n).
      * rewrite <- app_assoc. reflexivity.
      * exact Hlast.
      * assert (Hlen : forall a b, String.length (a ++ b)
                                   = (String.length a + String.length b)%nat).
        { clear. induction a; simpl; auto. }
        rewrite Hlen in Hfuel. cbn [String.length] in Hfuel. lia.
Qed.

(** The loop on any line: the fields it gives lack the delimiter, and put
    together they are the line, or the line without its final delimiter. *)
Lemma split_loop_any (fuel : nat) (l : list ascii) (args : list string) :
  (List.length l + 2 <= fuel)%nat ->
  exists fields,
    split_loop fuel (mk_istream l false false) delimiter args
    = Some (args ++ fields)%list
    /\ Forall (lacks delimiter) fields
    /\ (fields = [] -> l = [])
    /\ (l = list_ascii_of_string (join delimiter fields)
        \/ l = (list_ascii_of_string (join delimiter fields)
                ++ [delimiter])%list).
Proof.
  revert l args. induction fuel as [|n IH]; intros l args Hfuel; [lia|].
  cbn [split_loop]. unfold getline, good.
  cbn [unread eofbit failbit negb andb].
  pose proof (extract_line_splits l) as Hex.
  destruct (extract_line delimiter None l) as [[tok r] e].
  destruct Hex as [Hlacks He]. destruct e; [| |contradiction].
  - destruct He as [Hl Hr]. subst r.
    destruct tok as [|c tok]; cbn [failbit].
    + exists []. rewrite app_nil_r. simpl in Hl. subst l.
      repeat split; auto.
    + destruct n as [|n]; [subst l; simpl in Hfuel; lia|].
      exists [String c tok]. cbn [split_loop]. unfold getline, good.
      cbn [unread eofbit failbit negb andb].
      split; [reflexivity|]. split; [constructor; [exact Hlacks|constructor]|].
      split; [discriminate|]. left. exact Hl.
  - cbn [failbit].
    assert (Hlen : (List.length r + 2 <= n)%nat).
    { subst l. rewrite length_app in Hfuel. simpl in Hfuel. lia. }
    destruct (IH r (args ++ [tok])%list Hlen)
      as [fields [Hrun [Hf [Hnil Hjoin]]]].
    exists (tok :: fields). rewrite Hrun, <- app_assoc.
    split; [reflexivity|]. split; [constructor; assumption|].
    split; [discriminate|].
    destruct fields as [|g fields].
    + rewrite (Hnil eq_refl) in He. right. exact He.
    + rewrite join_cons, list_ascii_of_string_app.
      cbn [list_ascii_of_string].
      destruct Hjoin as [Hj|Hj]; [left|right]; rewrite He, Hj;
        [reflexivity|].
      rewrite <- app_assoc. reflexivity.
Qed.
End Splitting.

(** X1: [split_list] gives back the fields of a line that is made of them
    with the delimiter between, behind what the vector already held, when no
    field holds the delimiter and the last field is not empty. *)
Theorem split_list_join (delimiter : ascii) (fields args : list string) :
  Forall (lacks delimiter) fields ->
  last fields "x"%string <> EmptyString ->
  split_list (join delimiter fields) delimiter args = (args ++ fields)%list.
Proof.
  intros Hl Hlast. unfold split_list.
  rewrite (split_loop_join delimiter fields args _ Hl Hlast); [reflexivity|].
  lia.
Qed.

Lemma split_list_join_witness :
  Forall (lacks ";"%char) ["k32.dll"; "CreateFileW"; "7"]%string
  /\ last ["k32.dll"; "CreateFileW"; "7"]%string "x"%string <> EmptyString
  /\ split_list "k32.dll;CreateFileW;7" ";"%char ["kept"%string]
     = ["kept"; "k32.dll"; "CreateFileW"; "7"]%string.
Proof.
  assert (Hl : Forall (lacks ";"%char) ["k32.dll"; "CreateFileW"; "7"]%string).
  { repeat constructor; unfold lacks; simpl; intuition discriminate. }
  assert (Hlast : last ["k32.dll"; "CreateFileW"; "7"]%string "x"%string
                  <> EmptyString) by discriminate.
  split; [exact Hl|]. split; [exact Hlast|].
  exact (split_list_join ";"%char ["k32.dll"; "CreateFileW"; "7"]%string
           ["kept"%string] Hl Hlast).
Defined.

(** X2: whatever the line, no field that [split_list] gives holds the
    delimiter, and the fields put together with the delimiter between are
    the line itself or the line without its last character, a delimiter: a
    delimiter at the very end opens no field, and nothing else is lost. *)
Theorem split_list_keeps_text (delimiter : ascii) (sline : string) :
  Forall (lacks delimiter) (split_list sline delimiter [])
  /\ (sline = join delimiter (split_list sline delimiter [])
      \/ sline = (join delimiter (split_list sline delimiter [])
                  ++ String delimiter EmptyString)%string).
Proof.
  destruct (split_loop_any delimiter (String.length sline + 2)
              (list_ascii_of_string sline) [])
    as [fields [Hrun [Hf [_ Hjoin]]]].
  { rewrite list_ascii_length. lia. }
  unfold split_list, open_stream. rewrite Hrun. simpl.
  split; [exact Hf|].
  destruct Hjoin as [Hj|Hj]; [left|right].
  - rewrite <- (string_of_chars_inv sline), Hj. apply string_of_chars_inv.
  - rewrite <- (string_of_chars_inv sline), Hj.
    rewrite <- (string_of_chars_inv
                  (join delimiter fields ++ String delimiter EmptyString)).
    rewrite list_ascii_of_string_app. reflexivity.
Qed.



(** X4: [update] answers true exactly when the count of its argument is
    the larger one; the object keeps its names and gets the larger count; a
    second [update] with the same argument changes nothing and answers
    false; two updates give the same object in either order. *)
Theorem update_widens (this a b : WFuncInfo) :
  (fst (update this a) = true <-> paramCount this < paramCount a)
  /\ dllName (snd (update this a)) = dllName this
  /\ funcName (snd (update this a)) = funcName this
  /\ paramCount (snd (update this a))
     = Z.max (paramCount this) (paramCount a)
  /\ update (snd (update this a)) a = (false, snd (update this a))
  /\ snd (update (snd (update this a)) b)
     = snd (update (snd (update this b)) a).
Proof.
  split; [|split; [|split; [|split; [|split]]]].
  - unfold update. destruct (Z.ltb_spec (paramCount this) (paramCount a));
      simpl; split; intros; try lia; try discriminate; reflexivity.
  - rewrite update_max. reflexivity.
  - rewrite update_max. reflexivity.
  - rewrite update_max. reflexivity.
  - rewrite update_max. unfold update. cbn [paramCount].
    destruct (Z.ltb_spec (Z.max (paramCount this) (paramCount a))
                         (paramCount a)); [lia|reflexivity].
  - rewrite !update_max. cbn [dllName funcName paramCount].
    f_equal. lia.
Qed.

(** X5: [findFunc] finds the first entry whose two names match: the entry
    at the position it gives matches and none before it does; it gives
    nothing exactly when no entry of the list matches. *)
Theorem findFunc_first (funcs : list WFuncInfo) (d f : string) :
  (forall i,
      findFunc funcs d f = Some i ->
      (exists found,
          nth_error funcs i = Some found
          /\ iequals (dllName found) d && iequals (funcName found) f = true)
      /\ forall j x,
          (j < i)%nat -> nth_error funcs j = Some x ->
          iequals (dllName x) d && iequals (funcName x) f = false)
  /\ (findFunc funcs d f = None <->
      forall x, In x funcs ->
                iequals (dllName x) d && iequals (funcName x) f = false).
Proof.
  split; [|apply findFunc_None].
  intros i Hi. split; [apply (findFunc_Some _ _ _ _ Hi)|].
  revert i Hi. induction funcs as [|y funcs IH]; intros i Hi j x Hj Hx;
    simpl in Hi; [discriminate|].
  destruct (iequals (dllName y) d && iequals (funcName y) f) eqn:Hy.
  - injection Hi as <-. lia.
  - destruct (findFunc funcs d f) as [k|] eqn:Hk; [|discriminate].
    injection Hi as <-.
    destruct j as [|j]; simpl in Hx.
    + injection Hx as <-. exact Hy.
    + apply (IH k eq_refl j x); [lia | exact Hx].
Qed.

Lemma findFunc_first_witness :
  findFunc [mk_func "a.dll" "f" 1; CreateFileW_3; CreateFileW_7]
           "K32.DLL" "createfilew" = Some 1%nat
  /\ forall j x,
      (j < 1)%nat ->
      nth_error [mk_func "a.dll" "f" 1; CreateFileW_3; CreateFileW_7] j
      = Some x ->
      iequals (dllName x) "K32.DLL" && iequals (funcName x) "createfilew"
      = false.
Proof.
  split; [reflexivity|].
  exact (proj2 (proj1 (findFunc_first
                         [mk_func "a.dll" "f" 1; CreateFileW_3; CreateFileW_7]
                         "K32.DLL" "createfilew") 1%nat eq_refl)).
Defined.

Lemma iequals_refl (a : string) : iequals a a = true.
Proof. apply iequals_lower. reflexivity. Qed.

Lemma same_key_refl (x : WFuncInfo) : same_key x x = true.
Proof. unfold same_key. rewrite !iequals_refl. reflexivity. Qed.

Lemma set_nth_length (funcs : list WFuncInfo) (i : nat) (x : WFuncInfo) :
  List.length (set_nth i x funcs) = List.length funcs.
Proof.
  revert i. induction funcs as [|y funcs IH]; intros [|i]; simpl; auto.
Qed.

Lemma unique_keys_names (funcs funcs' : list WFuncInfo) :
  names funcs = names funcs' -> unique_keys funcs -> unique_keys funcs'.
Proof.
  unfold unique_keys. intros Hn Hu. revert funcs' Hn.
  induction Hu as [|x funcs Hx Hu IH]; intros [|y funcs'] Hn;
    try discriminate; [constructor|].
  unfold names in Hn. simpl in Hn. injection Hn as Hd Hf Hrest.
  constructor; [|apply IH; exact Hrest].
  clear IH Hu. revert funcs' Hrest.
  induction Hx as [|z funcs Hz Hx IH]; intros [|w funcs'] Hrest;
    try discriminate; constructor.
  - simpl in Hrest. injection Hrest as Hd' Hf' _.
    unfold same_key in *. rewrite <- Hd, <- Hf, <- Hd', <- Hf'. exact Hz.
  - simpl in Hrest. injection Hrest as _ _ Hrest. apply IH. exact Hrest.
Qed.

Lemma unique_keys_app_last (funcs : list WFuncInfo) (e : WFuncInfo) :
  unique_keys funcs ->
  (forall x, In x funcs -> same_key x e = false) ->
  unique_keys (funcs ++ [e]).
Proof.
  unfold unique_keys. intros Hu He.
  induction Hu as [|x funcs Hx Hu IH]; simpl.
  - constructor; constructor.
  - constructor.
    + apply Forall_app. split; [exact Hx|].
      constructor; [|constructor]. apply He. left. reflexivity.
    + apply IH. intros y Hy. apply He. right. exact Hy.
Qed.

Section WatchListMore.
Variable isValid : WFuncInfo -> bool.

(** X6: [appendFunc] answers true exactly for an entry that [isValid]
    accepts; an entry that is not accepted leaves the list as it is; an
    accepted one makes the list longer by one, itself at the end, when no
    entry has its key, and leaves the length and all the names as they are
    otherwise. *)
Theorem appendFunc_outcome (funcs : list WFuncInfo) (func_info : WFuncInfo) :
  fst (appendFunc isValid funcs func_info) = isValid func_info
  /\ (isValid func_info = false ->
      snd (appendFunc isValid funcs func_info) = funcs)
  /\ (isValid func_info = true ->
      findFunc funcs (dllName func_info) (funcName func_info) = None ->
      snd (appendFunc isValid funcs func_info) = (funcs ++ [func_info])%list)
  /\ (isValid func_info = true ->
      findFunc funcs (dllName func_info) (funcName func_info) <> None ->
      names (snd (appendFunc isValid funcs func_info)) = names funcs
      /\ List.length (snd (appendFunc isValid funcs func_info))
         = List.length funcs).
Proof.
  split; [|split; [|split]].
  - unfold appendFunc. destruct (isValid func_info); simpl; [|reflexivity].
    destruct (findFunc funcs (dllName func_info) (funcName func_info));
      [|reflexivity].
    destruct (nth_error funcs n); reflexivity.
  - intros Hv. unfold appendFunc. rewrite Hv. reflexivity.
  - intros Hv Hf. rewrite (appendFunc_new isValid funcs func_info Hv Hf).
    reflexivity.
  - intros Hv Hf.
    destruct (findFunc funcs (dllName func_info) (funcName func_info))
      as [i|] eqn:Hi; [|contradiction].
    destruct (findFunc_Some _ _ _ _ Hi) as [found [Hn _]].
    rewrite (appendFunc_found isValid funcs func_info found i Hv Hi Hn).
    cbn [snd]. split.
    + apply (set_nth_names funcs i found); [exact Hn| |]; reflexivity.
    + apply set_nth_length.
Qed.

(** X7: after an accepted entry is added, [findFunc] finds an entry for its
    names, and the count of that entry is at least the count added. *)
Theorem appendFunc_then_findFunc
  (funcs : list WFuncInfo) (func_info : WFuncInfo) :
  isValid func_info = true ->
  exists i found,
    findFunc (snd (appendFunc isValid funcs func_info))
             (dllName func_info) (funcName func_info) = Some i
    /\ nth_error (snd (appendFunc isValid funcs func_info)) i = Some found
    /\ same_key found func_info = true
    /\ paramCount func_info <= paramCount found.
Proof.
  intros Hv.
  destruct (findFunc funcs (dllName func_info) (funcName func_info))
    as [i|] eqn:Hi.
  - destruct (findFunc_Some _ _ _ _ Hi) as [found [Hn Hk]].
    rewrite (appendFunc_found isValid funcs func_info found i Hv Hi Hn).
    cbn [snd].
    exists i, (mk_func (dllName found) (funcName found)
                       (Z.max (paramCount found) (paramCount func_info))).
    split; [|split; [|split]].
    + rewrite (findFunc_names _ funcs); [exact Hi|].
      apply (set_nth_names funcs i found); [exact Hn| |]; reflexivity.
    + apply set_nth_same. congruence.
    + exact Hk.
    + cbn [paramCount]. lia.
  - rewrite (appendFunc_new isValid funcs func_info Hv Hi). cbn [snd].
    exists (List.length funcs), func_info.
    split; [|split; [|split]].
    + apply findFunc_app_last; [exact Hi | apply same_key_refl].
    + rewrite nth_error_app2 by lia. rewrite Nat.sub_diag. reflexivity.
    + apply same_key_refl.
    + lia.
Qed.

(** X8: adding an accepted entry a second time changes nothing. *)
Theorem appendFunc_twice (funcs : list WFuncInfo) (func_info : WFuncInfo) :
  isValid func_info = true ->
  appendFunc isValid (snd (appendFunc isValid funcs func_info)) func_info
  = (true, snd (appendFunc isValid funcs func_info)).
Proof.
  intros Hv.
  destruct (findFunc funcs (dllName func_info) (funcName func_info))
    as [i|] eqn:Hi.
  - destruct (findFunc_Some _ _ _ _ Hi) as [found [Hn Hk]].
    rewrite (appendFunc_found isValid funcs func_info found i Hv Hi Hn).
    cbn [snd].
    set (x1 := mk_func (dllName found) (funcName found)
                       (Z.max (paramCount found) (paramCount func_info))).
    rewrite (appendFunc_found isValid (set_nth i x1 funcs) func_info x1 i Hv).
    + rewrite set_nth_twice. subst x1. cbn [dllName funcName paramCount].
      do 3 f_equal. lia.
    + rewrite (findFunc_names _ funcs); [exact Hi|].
      apply (set_nth_names funcs i found); [exact Hn| |]; reflexivity.
    + apply set_nth_same. congruence.
  - rewrite (appendFunc_new isValid funcs func_info Hv Hi). cbn [snd].
    rewrite (appendFunc_found isValid (funcs ++ [func_info]) func_info
               func_info (List.length funcs) Hv).
    + rewrite set_nth_app_last. rewrite Z.max_id.
      destruct func_info; reflexivity.
    + apply findFunc_app_last; [exact Hi | apply same_key_refl].
    + rewrite nth_error_app2 by lia. rewrite Nat.sub_diag. reflexivity.
Qed.

Lemma appendFunc_unique (funcs : list WFuncInfo) (func_info : WFuncInfo) :
  unique_keys funcs ->
  unique_keys (snd (appendFunc isValid funcs func_info)).
Proof.
  intros Hu. unfold appendFunc.
  destruct (isValid func_info); [|exact Hu]. cbn [negb].
  destruct (findFunc funcs (dllName func_info) (funcName func_info))
    as [i|] eqn:Hi.
  - destruct (findFunc_Some _ _ _ _ Hi) as [found [Hn _]]. rewrite Hn.
    cbn [snd]. rewrite update_max.
    apply (unique_keys_names funcs); [|exact Hu].
    symmetry. apply (set_nth_names funcs i found); [exact Hn| |]; reflexivity.
  - cbn [snd]. apply unique_keys_app_last; [exact Hu|].
    intros x Hx. exact (proj1 (findFunc_None _ _ _) Hi x Hx).
Qed.

(** X9: a list in which no entry has the key of an earlier one stays so
    when an entry is added, whatever the entry; in particular every list
    built from the empty one by [appendFunc] has one entry for a key. *)
Theorem appendFunc_keeps_keys_unique (entries : list WFuncInfo)
  (funcs : list WFuncInfo) :
  unique_keys funcs ->
  unique_keys
    (fold_left (fun l e => snd (appendFunc isValid l e)) entries funcs)
  /\ unique_keys
       (fold_left (fun l e => snd (appendFunc isValid l e)) entries []).
Proof.
  assert (Hfold : forall es l, unique_keys l ->
            unique_keys
              (fold_left (fun l e => snd (appendFunc isValid l e)) es l)).
  { induction es as [|e es IH]; intros l Hl; simpl; [exact Hl|].
    apply IH. apply appendFunc_unique. exact Hl. }
  intros Hu. split; [apply Hfold; exact Hu|].
  apply Hfold. constructor.
Qed.
End WatchListMore.

Lemma appendFunc_outcome_witness :
  has_names new_WFuncInfo = false
  /\ snd (appendFunc has_names [CreateFileW_3] new_WFuncInfo)
     = [CreateFileW_3]
  /\ has_names CreateFileW_7 = true
  /\ findFunc [] (dllName CreateFileW_7) (funcName CreateFileW_7) = None
  /\ snd (appendFunc has_names [] CreateFileW_7) = [CreateFileW_7]
  /\ findFunc [CreateFileW_3] (dllName CreateFileW_7) (funcName CreateFileW_7)
     <> None
  /\ List.length (snd (appendFunc has_names [CreateFileW_3] CreateFileW_7))
     = 1%nat.
Proof.
  assert (Hfound : findFunc [CreateFileW_3] (dllName CreateFileW_7)
                            (funcName CreateFileW_7) <> None)
    by (vm_compute; discriminate).
  split; [reflexivity|].
  split;
    [exact (proj1 (proj2 (appendFunc_outcome has_names [CreateFileW_3]
                            new_WFuncInfo)) eq_refl)|].
  split; [reflexivity|]. split; [reflexivity|].
  split;
    [exact (proj1 (proj2 (proj2 (appendFunc_outcome has_names []
                                   CreateFileW_7))) eq_refl eq_refl)|].
  split; [exact Hfound|].
  exact (proj2 (proj2 (proj2 (proj2 (appendFunc_outcome has_names
                  [CreateFileW_3] CreateFileW_7))) eq_refl Hfound)).
Defined.

Lemma appendFunc_then_findFunc_witness :
  has_names CreateFileW_7 = true
  /\ exists i found,
      findFunc (snd (appendFunc has_names [CreateFileW_3] CreateFileW_7))
               (dllName CreateFileW_7) (funcName CreateFileW_7) = Some i
      /\ nth_error (snd (appendFunc has_names [CreateFileW_3] CreateFileW_7)) i
         = Some found
      /\ same_key found CreateFileW_7 = true
      /\ paramCount CreateFileW_7 <= paramCount found.
Proof.
  split; [reflexivity|].
  exact (appendFunc_then_findFunc has_names [CreateFileW_3] CreateFileW_7
           eq_refl).
Defined.

Lemma appendFunc_twice_witness :
  has_names CreateFileW_7 = true
  /\ appendFunc has_names
       (snd (appendFunc has_names [CreateFileW_3] CreateFileW_7)) CreateFileW_7
     = (true, snd (appendFunc has_names [CreateFileW_3] CreateFileW_7)).
Proof.
  split; [reflexivity|].
  exact (appendFunc_twice has_names [CreateFileW_3] CreateFileW_7 eq_refl).
Defined.

Lemma appendFunc_keeps_keys_unique_witness :
  unique_keys [CreateFileW_3]
  /\ unique_keys
       (fold_left (fun l e => snd (appendFunc has_names l e))
                  [CreateFileW_7; mk_func "K32.DLL" "createfilew" 9]
                  [CreateFileW_3]).
Proof.
  assert (Hu : unique_keys [CreateFileW_3]) by (repeat constructor).
  split; [exact Hu|].
  exact (proj1 (appendFunc_keeps_keys_unique has_names
                  [CreateFileW_7; mk_func "K32.DLL" "createfilew" 9]
                  [CreateFileW_3] Hu)).
Defined.

(** * Further properties of the loader *)

Lemma extract_line_tail (tail : string) (room : nat) :
  ~ In "010"%char (list_ascii_of_string tail) ->
  (String.length tail <= room)%nat ->
  extract_line "010"%char (Some room) (list_ascii_of_string tail)
  = (tail, [], at_eof).
Proof.
  revert room. induction tail as [|c tail IH]; intros room Hnl Hlen; simpl;
    [reflexivity|].
  simpl in Hnl, Hlen.
  destruct (Ascii.eqb_spec c "010"%char) as [Hc|Hc];
    [exfalso; apply Hnl; left; exact Hc|].
  destruct room as [|k]; [lia|].
  rewrite (IH k); [reflexivity| |lia].
  intros Hin. apply Hnl. right. exact Hin.
Qed.

Lemma widened_chain (a b c : list WFuncInfo) :
  Forall2 widened a (firstn (List.length a) b) ->
  Forall2 widened b (firstn (List.length b) c) ->
  Forall2 widened a (firstn (List.length a) c).
Proof.
  revert b c. induction a as [|x a IH]; intros b c Hab Hbc; simpl;
    [constructor|].
  destruct b as [|y b]; simpl in Hab; [inversion Hab|].
  destruct c as [|z c]; simpl in Hbc; [inversion Hbc|].
  inversion Hab as [|? ? ? ? Hxy Hab']; subst.
  inversion Hbc as [|? ? ? ? Hyz Hbc']; subst.
  constructor; [|apply (IH b c); assumption].
  unfold widened in *. destruct Hxy as [? [? ?]], Hyz as [? [? ?]].
  repeat split; try congruence; lia.
Qed.

Section LoaderMore.
Variable isValid : WFuncInfo -> bool.

Lemma loadList_loop_tail (tail : string) (funcs : list WFuncInfo)
  (fuel : nat) :
  fits_buffer tail -> (2 <= fuel)%nat ->
  loadList_loop isValid fuel (open_stream tail) funcs
  = Some (load_line isValid funcs tail).
Proof.
  intros [Hlen Hnl] Hfuel.
  destruct fuel as [|[|n]]; try lia.
  rewrite loadList_loop_step by reflexivity. cbv zeta.
  assert (Hg : getline (open_stream tail) "010"%char
                       (Some (MAX_LINE - 1)%nat)
               = (tail, mk_istream [] true
                          (match tail with
                           | EmptyString => true
                           | _ => false
                           end))).
  { unfold getline, open_stream, good. cbn [eofbit failbit unread negb andb].
    rewrite extract_line_tail; [reflexivity | exact Hnl|].
    unfold MAX_LINE in *. lia. }
  rewrite Hg. cbn [fst snd loadList_loop eofbit]. unfold load_line.
  destruct (load new_WFuncInfo (string_of_buffer tail) ";"%char)
    as [loaded func_info].
  reflexivity.
Qed.

Lemma loadList_loop_lines_tail (lines : list string) (tail : string)
  (funcs : list WFuncInfo) (fuel : nat) :
  Forall fits_buffer lines -> fits_buffer tail ->
  (List.length lines + 2 <= fuel)%nat ->
  loadList_loop isValid fuel (open_stream (file_of_lines lines ++ tail)) funcs
  = Some (fold_left (load_line isValid) (lines ++ [tail]) funcs).
Proof.
  intros Hfit Htail. revert funcs fuel.
  induction Hfit as [|line lines [Hlen Hnl] Hfit IH]; intros funcs fuel Hfuel.
  - simpl in *. apply loadList_loop_tail; assumption.
  - destruct fuel as [|n]; simpl in Hfuel; [lia|].
    rewrite loadList_loop_step by reflexivity. cbv zeta.
    assert (Hg : getline (open_stream (file_of_lines (line :: lines) ++ tail))
                         "010"%char (Some (MAX_LINE - 1)%nat)
                 = (line, open_stream (file_of_lines lines ++ tail))).
    { unfold getline, open_stream, good. cbn [eofbit failbit unread negb andb].
      cbn [file_of_lines fold_right]. fold (file_of_lines lines).
      rewrite !string_app_assoc.
      rewrite list_ascii_of_string_app. unfold newline_char.
      cbn [append list_ascii_of_string].
      rewrite extract_line_whole; [reflexivity | exact Hnl|].
      unfold MAX_LINE in *. lia. }
    rewrite Hg. cbn [fst snd].
    rewrite (IH _ n) by lia. cbn [app fold_left]. unfold load_line.
    destruct (load new_WFuncInfo (string_of_buffer line) ";"%char)
      as [loaded func_info].
    reflexivity.
Qed.

(** X10: on a file whose lines all fit the buffer of 300 characters, the
    last one with or without its newline, [loadList] ends within two
    iterations more than there are newlines, and answers the length of the
    list it leaves: the list obtained by handling the lines one after the
    other, in the order of the file.  A line with fewer than three fields
    leaves the list as it is. *)
Theorem loadList_well_formed (lines : list string) (tail : string)
  (funcs : list WFuncInfo) (fuel : nat) :
  Forall fits_buffer lines -> fits_buffer tail ->
  (List.length lines + 2 <= fuel)%nat ->
  loadList isValid fuel (Some (file_of_lines lines ++ tail)%string) funcs
  = Some (List.length
            (fold_left (load_line isValid) (lines ++ [tail]) funcs),
          fold_left (load_line isValid) (lines ++ [tail]) funcs)
  /\ forall l line,
      (List.length (split_list (string_of_buffer line) ";"%char []) < 3)%nat ->
      load_line isValid l line = l.
Proof.
  intros Hfit Htail Hfuel. split.
  - unfold loadList.
    rewrite (loadList_loop_lines_tail lines tail funcs fuel Hfit Htail Hfuel).
    reflexivity.
  - intros l line Hlt. unfold load_line, load.
    apply Nat.ltb_lt in Hlt. rewrite Hlt. reflexivity.
Qed.

Lemma loadList_loop_keeps (fuel : nat) (f : istream)
  (funcs result : list WFuncInfo) :
  loadList_loop isValid fuel f funcs = Some result ->
  (unique_keys funcs -> unique_keys result)
  /\ Forall2 widened funcs (firstn (List.length funcs) result).
Proof.
  revert f funcs.
  induction fuel as [|n IH]; intros f funcs Hrun; [discriminate|].
  cbn [loadList_loop] in Hrun.
  destruct (eofbit f).
  - injection Hrun as <-. split; [auto|].
    rewrite firstn_all. apply Forall2_widened_refl.
  - destruct (getline f "010"%char (Some (MAX_LINE - 1)%nat)) as [line f'].
    destruct (load new_WFuncInfo (string_of_buffer line) ";"%char)
      as [loaded func_info].
    destruct loaded.
    + destruct (IH _ _ Hrun) as [Hu Hw]. split.
      * intros Hfu. apply Hu. apply appendFunc_unique. exact Hfu.
      * apply (widened_chain funcs
                 (snd (appendFunc isValid funcs func_info)) result);
          [apply appendFunc_never_narrows | exact Hw].
    + apply (IH _ _ Hrun).
Qed.

(** X11: whenever [loadList] ends, whatever the file holds, it answers the
    length of the list; every entry that was in the list is still at its
    place, with its names and a count that is not smaller; and if no entry of
    the list had the key of an earlier one, none has afterwards. *)
Theorem loadList_keeps (fuel : nat) (file : option string)
  (funcs result : list WFuncInfo) (count : nat) :
  loadList isValid fuel file funcs = Some (count, result) ->
  (file = None -> count = O /\ result = funcs)
  /\ (file <> None -> count = List.length result)
  /\ (unique_keys funcs -> unique_keys result)
  /\ Forall2 widened funcs (firstn (List.length funcs) result).
Proof.
  intros Hrun. unfold loadList in Hrun.
  destruct file as [content|].
  - destruct (loadList_loop isValid fuel (open_stream content) funcs)
      as [r|] eqn:Hloop; [|discriminate].
    simpl in Hrun. injection Hrun as <- <-.
    destruct (loadList_loop_keeps _ _ _ _ Hloop) as [Hu Hw].
    split; [discriminate|]. split; [reflexivity|]. split; assumption.
  - injection Hrun as <- <-.
    split; [intros _; split; reflexivity|]. split; [contradiction|].
    split; [auto|]. rewrite firstn_all. apply Forall2_widened_refl.
Qed.
End LoaderMore.

Lemma loadList_well_formed_witness :
  Forall fits_buffer ["no fields here"; "k32.dll;CreateFileW;3"]%string
  /\ fits_buffer "K32.DLL;createfilew;7"
  /\ (List.length ["no fields here"; "k32.dll;CreateFileW;3"]%string + 2
      <= 4)%nat
  /\ loadList has_names 4
       (Some (file_of_lines ["no fields here"; "k32.dll;CreateFileW;3"]
              ++ "K32.DLL;createfilew;7")%string) []
     = Some (1%nat, [CreateFileW_7]).
Proof.
  assert (Hfits : forall s,
             (String.length s <? MAX_LINE)%nat = true ->
             forallb (fun c => negb (Ascii.eqb c "010"%char))
                     (list_ascii_of_string s) = true ->
             fits_buffer s).
  { intros s Hlen Hnl. split; [apply Nat.ltb_lt; exact Hlen|].
    intros Hin. rewrite forallb_forall in Hnl. specialize (Hnl _ Hin).
    rewrite Ascii.eqb_refl in Hnl. discriminate. }
  assert (H1 : Forall fits_buffer
                      ["no fields here"; "k32.dll;CreateFileW;3"]%string)
    by (repeat constructor; apply Hfits; reflexivity).
  assert (H2 : fits_buffer "K32.DLL;createfilew;7")
    by (apply Hfits; reflexivity).
  assert (H3 : (List.length ["no fields here"; "k32.dll;CreateFileW;3"]%string
                + 2 <= 4)%nat) by (simpl; lia).
  split; [exact H1|]. split; [exact H2|]. split; [exact H3|].
  exact (proj1 (loadList_well_formed has_names
                  ["no fields here"; "k32.dll;CreateFileW;3"]%string
                  "K32.DLL;createfilew;7" [] 4 H1 H2 H3)).
Defined.

Lemma loadList_keeps_witness :
  loadList has_names 4 (Some file_with_short_line) [CreateFileW_7]
  = Some (1%nat, [CreateFileW_7])
  /\ unique_keys [CreateFileW_7]
  /\ unique_keys [CreateFileW_7]
  /\ Forall2 widened [CreateFileW_7]
             (firstn (List.length [CreateFileW_7]) [CreateFileW_7]).
Proof.
  assert (Hrun : loadList has_names 4 (Some file_with_short_line)
                          [CreateFileW_7]
                 = Some (1%nat, [CreateFileW_7])) by (vm_compute; reflexivity).
  assert (Hu : unique_keys [CreateFileW_7]) by (repeat constructor).
  pose proof (loadList_keeps has_names 4 (Some file_with_short_line)
                [CreateFileW_7] [CreateFileW_7] 1 Hrun) as H.
  split; [exact Hrun|]. split; [exact Hu|].
  split; [exact (proj1 (proj2 (proj2 H)) Hu)|].
  exact (proj2 (proj2 (proj2 H))).
Defined.

(** * Further properties of the tracer *)

(** X12: [isStrEqualI] is an equivalence of strings: it holds exactly when
    the two strings are the same once their capital letters are folded, so
    every string equals itself, the order of the arguments does not matter,
    and two strings that equal a third equal each other; strings of different
    lengths are never equal. *)
Theorem isStrEqualI_equivalence :
  (forall a b, isStrEqualI a b = true <-> lower a = lower b)
  /\ (forall a, isStrEqualI a a = true)
  /\ (forall a b, isStrEqualI a b = isStrEqualI b a)
  /\ (forall a b c,
         isStrEqualI a b = true -> isStrEqualI b c = true ->
         isStrEqualI a c = true)
  /\ (forall a b,
         String.length a <> String.length b -> isStrEqualI a b = false).
Proof.
  assert (Hlow : forall a b, isStrEqualI a b = true <-> lower a = lower b)
    by exact iequals_lower.
  split; [exact Hlow|]. split; [|split; [|split]].
  - intros a. apply Hlow. reflexivity.
  - intros a b.
    destruct (isStrEqualI a b) eqn:Hab, (isStrEqualI b a) eqn:Hba;
      try reflexivity.
    + apply Hlow in Hab. symmetry in Hab. apply Hlow in Hab. congruence.
    + apply Hlow in Hba. symmetry in Hba. apply Hlow in Hba. congruence.
  - intros a b c Hab Hbc. apply Hlow. apply Hlow in Hab, Hbc. congruence.
  - intros a b Hlen. unfold isStrEqualI.
    destruct (Nat.eqb_spec (String.length a) (String.length b));
      [contradiction | reflexivity].
Qed.

Lemma isStrEqualI_equivalence_witness :
  isStrEqualI "CPUID" "CpuId" = true
  /\ isStrEqualI "CpuId" "cpuid" = true
  /\ isStrEqualI "CPUID" "cpuid" = true
  /\ String.length "cpuid" <> String.length "cpu"
  /\ isStrEqualI "cpuid" "cpu" = false.
Proof.
  assert (Hlen : String.length "cpuid" <> String.length "cpu")
    by discriminate.
  split; [reflexivity|]. split; [reflexivity|].
  split;
    [exact (proj1 (proj2 (proj2 (proj2 isStrEqualI_equivalence)))
                  "CPUID"%string "CpuId"%string "cpuid"%string
                  eq_refl eq_refl)|].
  split; [exact Hlen|].
  exact (proj2 (proj2 (proj2 (proj2 isStrEqualI_equivalence)))
               "cpuid"%string "cpu"%string Hlen).
Defined.

(** X13: [ConvertShcOption] never gives a value above
    [SHELLC_FOLLOW_RECURSIVE]; it gives [SHELLC_FOLLOW_RECURSIVE] exactly for
    the flags from 2 on, [SHELLC_DO_NOT_FOLLOW] exactly for the flag 0, so
    following is on for every other flag; converting twice is converting
    once. *)
Theorem ConvertShcOption_range (value : Z) :
  ConvertShcOption value <= SHELLC_FOLLOW_RECURSIVE
  /\ (ConvertShcOption value = SHELLC_FOLLOW_RECURSIVE <-> 2 <= value)
  /\ (ConvertShcOption value = SHELLC_DO_NOT_FOLLOW <-> value = 0)
  /\ truthy (ConvertShcOption value) = truthy value
  /\ ConvertShcOption (ConvertShcOption value) = ConvertShcOption value.
Proof.
  unfold ConvertShcOption, SHELLC_OPTIONS_COUNT, SHELLC_FOLLOW_RECURSIVE,
    SHELLC_DO_NOT_FOLLOW, truthy.
  rewrite Z.geb_leb.
  destruct (Z.leb_spec 3 value) as [Hge|Hlt].
  - repeat split; lia.
  - rewrite Z.geb_leb.
    destruct (Z.leb_spec 3 value) as [Hge|_]; [lia|].
    repeat split; lia.
Qed.

Section ClassifierMore.
Variable E : Env.

(** X14: every follow mode other than [SHELLC_DO_NOT_FOLLOW] and
    [SHELLC_FOLLOW_RECURSIVE] is handled as [SHELLC_FOLLOW_FIRST]: this is
    what a negative flag, which [ConvertShcOption] lets through, turns on.
    The edge routine and the guard of the argument dump do the same under
    both. *)
Theorem other_modes_follow_first
  (mode : t_shellc_options) (st : State) (addrFrom addrTo : ADDRINT) :
  mode <> SHELLC_DO_NOT_FOLLOW -> mode <> SHELLC_FOLLOW_RECURSIVE ->
  _SaveTransitions (with_follow mode E) addrFrom addrTo st
  = _SaveTransitions (with_follow SHELLC_FOLLOW_FIRST E) addrFrom addrTo st
  /\ isWatchedAddress (with_follow mode E) addrFrom
     = isWatchedAddress (with_follow SHELLC_FOLLOW_FIRST E) addrFrom.
Proof.
  intros H0 H2.
  assert (Ht : truthy mode = true).
  { unfold truthy. destruct (Z.eqb_spec mode 0); [contradiction|reflexivity]. }
  assert (Hr : (mode =? SHELLC_FOLLOW_RECURSIVE) = false)
    by (apply Z.eqb_neq; exact H2).
  split.
  - unfold _SaveTransitions.
    change (m_FollowShellcode (with_follow mode E)) with mode.
    change (m_FollowShellcode (with_follow SHELLC_FOLLOW_FIRST E))
      with SHELLC_FOLLOW_FIRST.
    rewrite Ht, Hr. reflexivity.
  - unfold isWatchedAddress.
    change (m_FollowShellcode (with_follow mode E)) with mode.
    change (m_FollowShellcode (with_follow SHELLC_FOLLOW_FIRST E))
      with SHELLC_FOLLOW_FIRST.
    rewrite Ht. reflexivity.
Qed.

(** X15: an edge between addresses outside the traced module leaves the
    state and the log as they are when it starts in a known image, whatever
    the mode, and also when following is off, wherever it starts. *)
Theorem foreign_edge_does_nothing
  (st : State) (addrFrom addrTo : ADDRINT) :
  isMyAddress E addrFrom = false ->
  isMyAddress E addrTo = false ->
  IMG_Valid (IMG_FindByAddress E addrFrom) = true
  \/ m_FollowShellcode E = SHELLC_DO_NOT_FOLLOW ->
  _SaveTransitions E addrFrom addrTo st = (tt, st).
Proof.
  intros Hfrom Hto Hwhy. unfold_step. rewrite Hfrom, Hto. simpl.
  destruct Hwhy as [Hmapped|Hoff].
  - rewrite Hmapped. rewrite andb_false_r. reflexivity.
  - rewrite Hoff. reflexivity.
Qed.

(** X16: an edge from the traced module to an address outside every image
    makes the page of the target the page followed and adds exactly one
    record, the call-out made by the page overload of [logCall] with the
    offset of the origin, that page and the target; the cursor stays. *)
Theorem call_out_to_unmapped (st : State) (addrFrom addrTo : ADDRINT) :
  isMyAddress E addrFrom = true ->
  isMyAddress E addrTo = false ->
  IMG_FindByAddress E addrTo = None ->
  _SaveTransitions E addrFrom addrTo st
  = (tt, append_log (logCallPage 0 (addr_to_rva E addrFrom)
                                 (GetPageOfAddr E addrTo) addrTo)
                    (set_lastShellc (GetPageOfAddr E addrTo) st)).
Proof.
  intros Hfrom Hto Himg.
  pose proof (isMyAddress_mapped E addrFrom Hfrom) as Hmapped.
  unfold_step. rewrite Hfrom, Hto, Himg. simpl.
  rewrite Hmapped. simpl. rewrite andb_false_r. reflexivity.
Qed.

(** X17: an edge never removes or changes a record of the log, and adds at
    most two: at most one call-out and at most one section-change record. *)
Theorem edge_adds_at_most_two (st : State) (addrFrom addrTo : ADDRINT) :
  traceLog (exec (_SaveTransitions E addrFrom addrTo) st)
  = (traceLog st ++ emitted (_SaveTransitions E addrFrom addrTo) st)%list
  /\ (List.length (emitted (_SaveTransitions E addrFrom addrTo) st) <= 2)%nat
  /\ (count is_call (emitted (_SaveTransitions E addrFrom addrTo) st)
      <= 1)%nat
  /\ (count is_section_change
            (emitted (_SaveTransitions E addrFrom addrTo) st) <= 1)%nat.
Proof.
  split; [apply SaveTransitions_appends|].
  split; [|split; [|apply at_most_one_section_change]].
  - destruct (isMyAddress E addrFrom) eqn:Hfrom.
    + pose proof (isMyAddress_mapped E addrFrom Hfrom) as Hmapped.
      unfold_step. rewrite Hfrom, Hmapped. simpl.
      rewrite !andb_false_r. simpl.
      repeat split_cond; repeat rewrite <- app_assoc;
        first [ rewrite skipn_length_app | rewrite skipn_all ]; simpl; lia.
    + unfold_step. rewrite Hfrom. simpl.
      repeat split_cond; repeat rewrite <- app_assoc;
        first [ rewrite skipn_length_app | rewrite skipn_all ]; simpl; lia.
  - destruct (isMyAddress E addrFrom) eqn:Hfrom.
    + pose proof (isMyAddress_mapped E addrFrom Hfrom) as Hmapped.
      unfold_step. rewrite Hfrom, Hmapped. simpl.
      rewrite !andb_false_r. simpl.
      repeat split_cond; repeat rewrite <- app_assoc;
        first [ rewrite skipn_length_app | rewrite skipn_all ];
        unfold count; simpl; lia.
    + unfold_step. rewrite Hfrom. simpl.
      repeat split_cond; repeat rewrite <- app_assoc;
        first [ rewrite skipn_length_app | rewrite skipn_all ];
        unfold count; simpl; lia.
Qed.

(** X18: while following is off the page last called is only written,
    never read: the records an edge adds and the cursor it leaves are the same
    whatever that page is. *)
Theorem lastShellc_unread_when_off
  (st : State) (page : ADDRINT) (addrFrom addrTo : ADDRINT) :
  m_FollowShellcode E = SHELLC_DO_NOT_FOLLOW ->
  emitted (_SaveTransitions E addrFrom addrTo) (set_lastShellc page st)
  = emitted (_SaveTransitions E addrFrom addrTo) st
  /\ lastKnownSectionOffset
       (exec (_SaveTransitions E addrFrom addrTo) (set_lastShellc page st))
     = lastKnownSectionOffset (exec (_SaveTransitions E addrFrom addrTo) st).
Proof.
  intros Hoff. unfold_step. rewrite Hoff. simpl.
  split; repeat split_cond; reflexivity.
Qed.

(** X19: under a follow mode that is on, an edge that starts outside every
    image, on the page followed, and ends in a known image outside the traced
    module adds exactly one record, the call-out with that page as base, the
    address of the origin and the name and symbol of the target, and changes
    nothing else; an edge that starts outside every image on another page
    and ends outside the traced module does nothing. *)
Theorem edge_from_unmapped_page
  (st : State) (addrFrom addrTo : ADDRINT) :
  truthy (m_FollowShellcode E) = true ->
  IMG_FindByAddress E addrFrom = None ->
  isMyAddress E addrTo = false ->
  (forall img,
      GetPageOfAddr E addrFrom <> UNKNOWN_ADDR E ->
      GetPageOfAddr E addrFrom = lastShellc st ->
      IMG_FindByAddress E addrTo = Some img ->
      _SaveTransitions E addrFrom addrTo st
      = (tt, append_log (logCall (GetPageOfAddr E addrFrom) addrFrom false
                                 (IMG_Name img) (get_func_at E addrTo)) st))
  /\ (GetPageOfAddr E addrFrom <> lastShellc st ->
      _SaveTransitions E addrFrom addrTo st = (tt, st)).
Proof.
  intros Hon Hfrom Hto.
  assert (Hmy : isMyAddress E addrFrom = false).
  { destruct (isMyAddress E addrFrom) eqn:H; [|reflexivity].
    apply isMyAddress_mapped in H. rewrite Hfrom in H. discriminate. }
  split.
  - intros img Hknown Hpage Himg.
    apply Z.eqb_neq in Hknown. apply Z.eqb_eq in Hpage.
    unfold_step. rewrite Hmy, Hto, Hon, Hfrom, Himg. simpl.
    rewrite Hknown, Hpage. reflexivity.
  - intros Hother. apply Z.eqb_neq in Hother.
    unfold_step. rewrite Hmy, Hto, Hon, Hfrom. simpl.
    rewrite Hother, andb_false_r. reflexivity.
Qed.
End ClassifierMore.

Lemma other_modes_follow_first_witness :
  ConvertShcOption (-1) <> SHELLC_DO_NOT_FOLLOW
  /\ ConvertShcOption (-1) <> SHELLC_FOLLOW_RECURSIVE
  /\ _SaveTransitions (with_follow (ConvertShcOption (-1)) (demo_env 0))
                      0x5020 0x70001000 following_0x5000
     = _SaveTransitions (with_follow SHELLC_FOLLOW_FIRST (demo_env 0))
                        0x5020 0x70001000 following_0x5000.
Proof.
  assert (H0 : ConvertShcOption (-1) <> SHELLC_DO_NOT_FOLLOW)
    by discriminate.
  assert (H2 : ConvertShcOption (-1) <> SHELLC_FOLLOW_RECURSIVE)
    by discriminate.
  split; [exact H0|]. split; [exact H2|].
  exact (proj1 (other_modes_follow_first (demo_env 0) (ConvertShcOption (-1))
                  following_0x5000 0x5020 0x70001000 H0 H2)).
Defined.

Lemma foreign_edge_does_nothing_witness :
  isMyAddress (demo_env 2) 0x70001000 = false
  /\ isMyAddress (demo_env 2) 0x70002000 = false
  /\ IMG_Valid (IMG_FindByAddress (demo_env 2) 0x70001000) = true
  /\ _SaveTransitions (demo_env 2) 0x70001000 0x70002000 following_0x5000
     = (tt, following_0x5000)
  /\ m_FollowShellcode (demo_env 0) = SHELLC_DO_NOT_FOLLOW
  /\ _SaveTransitions (demo_env 0) 0x5020 0x9000 following_0x5000
     = (tt, following_0x5000).
Proof.
  split; [reflexivity|]. split; [reflexivity|]. split; [reflexivity|].
  split;
    [exact (foreign_edge_does_nothing (demo_env 2) following_0x5000
              0x70001000 0x70002000 eq_refl eq_refl (or_introl eq_refl))|].
  split; [reflexivity|].
  exact (foreign_edge_does_nothing (demo_env 0) following_0x5000
           0x5020 0x9000 eq_refl eq_refl (or_intror eq_refl)).
Defined.

Lemma call_out_to_unmapped_witness :
  isMyAddress (demo_env 0) 0x400500 = true
  /\ isMyAddress (demo_env 0) 0x5010 = false
  /\ IMG_FindByAddress (demo_env 0) 0x5010 = None
  /\ _SaveTransitions (demo_env 0) 0x400500 0x5010 demo_state
     = (tt, mk_state 0x5000 0 [logCallPage 0 0x500 0x5000 0x5010]).
Proof.
  split; [reflexivity|]. split; [reflexivity|]. split; [reflexivity|].
  exact (call_out_to_unmapped (demo_env 0) demo_state 0x400500 0x5010
           eq_refl eq_refl eq_refl).
Defined.

Lemma lastShellc_unread_when_off_witness :
  m_FollowShellcode (demo_env 0) = SHELLC_DO_NOT_FOLLOW
  /\ emitted (_SaveTransitions (demo_env 0) 0x5020 0x70001000)
             (set_lastShellc 0x5000 demo_state)
     = emitted (_SaveTransitions (demo_env 0) 0x5020 0x70001000) demo_state.
Proof.
  split; [reflexivity|].
  exact (proj1 (lastShellc_unread_when_off (demo_env 0) demo_state 0x5000
                  0x5020 0x70001000 eq_refl)).
Defined.

Lemma edge_from_unmapped_page_witness :
  truthy (m_FollowShellcode (demo_env 1)) = true
  /\ IMG_FindByAddress (demo_env 1) 0x5020 = None
  /\ isMyAddress (demo_env 1) 0x70001000 = false
  /\ GetPageOfAddr (demo_env 1) 0x5020 <> UNKNOWN_ADDR (demo_env 1)
  /\ GetPageOfAddr (demo_env 1) 0x5020 = lastShellc following_0x5000
  /\ IMG_FindByAddress (demo_env 1) 0x70001000 = Some img_kernel32
  /\ _SaveTransitions (demo_env 1) 0x5020 0x70001000 following_0x5000
     = (tt, append_log (logCall 0x5000 0x5020 false "kernel32.dll"
                                "CreateFileW") following_0x5000)
  /\ GetPageOfAddr (demo_env 1) 0x5020 <> lastShellc demo_state
  /\ _SaveTransitions (demo_env 1) 0x5020 0x70001000 demo_state
     = (tt, demo_state).
Proof.
  assert (Hknown : GetPageOfAddr (demo_env 1) 0x5020
                   <> UNKNOWN_ADDR (demo_env 1)) by (vm_compute; discriminate).
  assert (Hother : GetPageOfAddr (demo_env 1) 0x5020 <> lastShellc demo_state)
    by (vm_compute; discriminate).
  split; [reflexivity|]. split; [reflexivity|]. split; [reflexivity|].
  split; [exact Hknown|]. split; [reflexivity|]. split; [reflexivity|].
  split;
    [exact (proj1 (edge_from_unmapped_page (demo_env 1) following_0x5000
                     0x5020 0x70001000 eq_refl eq_refl eq_refl)
                  img_kernel32 Hknown eq_refl eq_refl)|].
  split; [exact Hother|].
  exact (proj2 (edge_from_unmapped_page (demo_env 1) demo_state
                  0x5020 0x70001000 eq_refl eq_refl eq_refl) Hother).
Defined.

(** * Further properties of the timing routines *)

Section Timing.
Variable bits : Z.
Variable E : Env.

(** X20: [RdtscCalled] and [CpuidCalled] write one record when
    [isWatchedAddress] holds of the instruction pointer and none otherwise:
    in the traced module the record has base 0 and the offset of the
    instruction, outside every image, with following on, it has the page as
    base; [CpuidCalled] adds the value of the accumulator. *)
Theorem timing_records_guard (ctxt : CONTEXT) :
  List.length (RdtscCalled bits E ctxt)
  = (if isWatchedAddress E (REG_INST_PTR ctxt) then 1%nat else 0%nat)
  /\ List.length (CpuidCalled bits E ctxt)
     = (if isWatchedAddress E (REG_INST_PTR ctxt) then 1%nat else 0%nat)
  /\ (isMyAddress E (REG_INST_PTR ctxt) = true ->
      RdtscCalled bits E ctxt
      = [logRdtsc 0 (addr_to_rva E (REG_INST_PTR ctxt))]
      /\ CpuidCalled bits E ctxt
         = [logCpuid 0 (addr_to_rva E (REG_INST_PTR ctxt)) (REG_GAX ctxt)])
  /\ (isMyAddress E (REG_INST_PTR ctxt) = false ->
      isWatchedAddress E (REG_INST_PTR ctxt) = true ->
      RdtscCalled bits E ctxt
      = [logRdtsc (GetPageOfAddr E (REG_INST_PTR ctxt))
                  (sub_addr bits (REG_INST_PTR ctxt)
                            (GetPageOfAddr E (REG_INST_PTR ctxt)))]
      /\ CpuidCalled bits E ctxt
         = [logCpuid (GetPageOfAddr E (REG_INST_PTR ctxt))
                     (sub_addr bits (REG_INST_PTR ctxt)
                               (GetPageOfAddr E (REG_INST_PTR ctxt)))
                     (REG_GAX ctxt)]).
Proof.
  unfold RdtscCalled, CpuidCalled, isWatchedAddress.
  destruct (isMyAddress E (REG_INST_PTR ctxt)) eqn:Hmy.
  - rewrite (isMyAddress_mapped E _ Hmy). rewrite andb_false_r. simpl.
    repeat split; try reflexivity; discriminate.
  - destruct (truthy (m_FollowShellcode E)
              && negb (IMG_Valid (IMG_FindByAddress E (REG_INST_PTR ctxt))));
      simpl.
    + destruct (negb (GetPageOfAddr E (REG_INST_PTR ctxt)
                      =? UNKNOWN_ADDR E)); simpl;
        repeat split; try reflexivity; discriminate.
    + repeat split; try reflexivity; discriminate.
Qed.
End Timing.

Lemma timing_records_guard_witness :
  isMyAddress (demo_env 1) 0x400500 = true
  /\ RdtscCalled 64 (demo_env 1) (mk_context 0x400500 0 0)
     = [logRdtsc 0 0x500]
  /\ isMyAddress (demo_env 1) 0x5020 = false
  /\ isWatchedAddress (demo_env 1) 0x5020 = true
  /\ CpuidCalled 64 (demo_env 1) (mk_context 0x5020 1 0)
     = [logCpuid 0x5000 0x20 1].
Proof.
  split; [reflexivity|].
  split;
    [exact (proj1 (proj1 (proj2 (proj2
              (timing_records_guard 64 (demo_env 1)
                 (mk_context 0x400500 0 0)))) eq_refl))|].
  split; [reflexivity|]. split; [reflexivity|].
  exact (proj2 (proj2 (proj2 (proj2
           (timing_records_guard 64 (demo_env 1) (mk_context 0x5020 1 0))))
           eq_refl eq_refl)).
Defined.

(** * Further properties of the timer *)

(** X21: from a counter that is not 0 and as long as it does not pass
    [2^64], any run of reads moves the counter on by 100 for each read,
    whatever the registers hold at each of them and whichever half each of
    them is for. *)
Theorem timer_reads_add (reads : list (CONTEXT * bool)) (Timer : Z) :
  0 < Timer ->
  Timer + 100 * Z.of_nat (List.length reads) < 2 ^ 64 ->
  timer_reads reads Timer = Timer + 100 * Z.of_nat (List.length reads).
Proof.
  revert Timer. induction reads as [|[ctxt isEax] reads IH];
    intros Timer Hpos Hmax.
  - simpl. lia.
  - cbn [timer_reads]. rewrite setTimer_next by lia.
    cbn [List.length] in *. rewrite Nat2Z.inj_succ in *.
    rewrite Z.mod_small by lia.
    rewrite IH by lia. lia.
Qed.

Lemma timer_reads_add_witness :
  0 < 0x10000009C
  /\ 0x10000009C + 100 * Z.of_nat
       (List.length [(ctxt_zero, false); (ctxt_seven, true);
                     (demo_ctxt, false)]) < 2 ^ 64
  /\ timer_reads [(ctxt_zero, false); (ctxt_seven, true); (demo_ctxt, false)]
                 0x10000009C
     = 0x10000009C + 300.
Proof.
  assert (Hpos : 0 < 0x10000009C) by reflexivity.
  assert (Hmax : 0x10000009C + 100 * Z.of_nat
                   (List.length [(ctxt_zero, false); (ctxt_seven, true);
                                 (demo_ctxt, false)]) < 2 ^ 64)
    by reflexivity.
  split; [exact Hpos|]. split; [exact Hmax|].
  exact (timer_reads_add
           [(ctxt_zero, false); (ctxt_seven, true); (demo_ctxt, false)]
           0x10000009C Hpos Hmax).
Defined.

(** X22: after an [rdtsc] that finds the counter at a value [Timer] that is
    not 0, and below [2^64 - 200], the counter is at [Timer + 200], the
    register for the high half holds the high half of [Timer + 100] and the
    register for the low half holds the low half of [Timer + 200].  The
    program therefore reads [Timer + 200] when the low half of [Timer + 100]
    is below [2^32 - 100], and [2^32] less than that otherwise. *)
Theorem rdtsc_program_view (ctxt : CONTEXT) (Timer : Z) :
  0 < Timer -> Timer + 200 < 2 ^ 64 ->
  snd (rdtsc_after ctxt Timer) = Timer + 200
  /\ REG_GDX (fst (rdtsc_after ctxt Timer)) = (Timer + 100) / 2 ^ 32
  /\ REG_GAX (fst (rdtsc_after ctxt Timer)) = (Timer + 200) mod 2 ^ 32
  /\ REG_INST_PTR (fst (rdtsc_after ctxt Timer)) = REG_INST_PTR ctxt
  /\ ((Timer + 100) mod 2 ^ 32 + 100 < 2 ^ 32 ->
      REG_GDX (fst (rdtsc_after ctxt Timer)) * 2 ^ 32
      + REG_GAX (fst (rdtsc_after ctxt Timer)) = Timer + 200)
  /\ (2 ^ 32 <= (Timer + 100) mod 2 ^ 32 + 100 ->
      REG_GDX (fst (rdtsc_after ctxt Timer)) * 2 ^ 32
      + REG_GAX (fst (rdtsc_after ctxt Timer)) = Timer + 200 - 2 ^ 32).
Proof.
  intros Hpos Hmax.
  assert (Hnz : Timer <> 0) by lia.
  assert (H1 : (Timer + 100) mod 2 ^ 64 = Timer + 100)
    by (apply Z.mod_small; lia).
  assert (Hnz' : (Timer + 100) mod 2 ^ 64 <> 0) by lia.
  pose proof (rdtsc_after_two_reads ctxt Timer Hnz Hnz') as H.
  assert (Hip : REG_INST_PTR (fst (rdtsc_after ctxt Timer))
                = REG_INST_PTR ctxt).
  { unfold rdtsc_after, AlterRdtscValueEdx, AlterRdtscValueEax.
    destruct (_setTimer ctxt false Timer) as [edx Timer1].
    destruct (_setTimer _ true Timer1) as [eax Timer2]. reflexivity. }
  destruct (rdtsc_after ctxt Timer) as [ctxt' Timer'].
  cbn [fst snd] in *. destruct H as [HT [Hd Ha]].
  rewrite H1 in HT, Hd.
  assert (HT' : Timer' = Timer + 200).
  { rewrite HT. rewrite Z.mod_small by lia. lia. }
  rewrite Hd, Ha, HT'.
  change (2 ^ 32) with 4294967296 in *. change (2 ^ 64) with 18446744073709551616 in *.
  repeat split; try reflexivity; try exact Hip; intros Hc;
    pose proof (Z.div_mod (Timer + 100) 4294967296 ltac:(lia)) as Hdm;
    pose proof (Z.mod_pos_bound (Timer + 100) 4294967296 ltac:(lia)) as Hb.
  - replace (Timer + 200)
      with ((((Timer + 100) mod 4294967296) + 100)
            + ((Timer + 100) / 4294967296) * 4294967296) at 1 by lia.
    rewrite Z.mod_add by lia. rewrite Z.mod_small by lia. lia.
  - replace (Timer + 200)
      with ((((Timer + 100) mod 4294967296) + 100 - 4294967296)
            + ((Timer + 100) / 4294967296 + 1) * 4294967296) at 1 by lia.
    rewrite Z.mod_add by lia. rewrite Z.mod_small by lia. lia.
Qed.

Lemma rdtsc_program_view_witness :
  0 < 1000
  /\ 1000 + 200 < 2 ^ 64
  /\ (1000 + 100) mod 2 ^ 32 + 100 < 2 ^ 32
  /\ REG_GDX (fst (rdtsc_after demo_ctxt 1000)) * 2 ^ 32
     + REG_GAX (fst (rdtsc_after demo_ctxt 1000)) = 1000 + 200
  /\ 0 < 0xFFFFFF8C
  /\ 0xFFFFFF8C + 200 < 2 ^ 64
  /\ 2 ^ 32 <= (0xFFFFFF8C + 100) mod 2 ^ 32 + 100
  /\ REG_GDX (fst (rdtsc_after demo_ctxt 0xFFFFFF8C)) * 2 ^ 32
     + REG_GAX (fst (rdtsc_after demo_ctxt 0xFFFFFF8C))
     = 0xFFFFFF8C + 200 - 2 ^ 32.
Proof.
  assert (Ha1 : 0 < 1000) by reflexivity.
  assert (Ha2 : 1000 + 200 < 2 ^ 64) by reflexivity.
  assert (Ha3 : (1000 + 100) mod 2 ^ 32 + 100 < 2 ^ 32) by reflexivity.
  assert (Hb1 : 0 < 0xFFFFFF8C) by reflexivity.
  assert (Hb2 : 0xFFFFFF8C + 200 < 2 ^ 64) by reflexivity.
  assert (Hb3 : 2 ^ 32 <= (0xFFFFFF8C + 100) mod 2 ^ 32 + 100)
    by (vm_compute; discriminate).
  split; [exact Ha1|]. split; [exact Ha2|]. split; [exact Ha3|].
  split;
    [exact (proj1 (proj2 (proj2 (proj2 (proj2
              (rdtsc_program_view demo_ctxt 1000 Ha1 Ha2))))) Ha3)|].
  split; [exact Hb1|]. split; [exact Hb2|]. split; [exact Hb3|].
  exact (proj2 (proj2 (proj2 (proj2 (proj2
           (rdtsc_program_view demo_ctxt 0xFFFFFF8C Hb1 Hb2))))) Hb3).
Defined.

(** X23: what a read hands back always fits a 32-bit register; once the
    counter is not 0 a read does not depend on the registers it sees, and the
    high half and the low half taken from the same counter make up the
    counter after the read. *)
Theorem setTimer_halves (ctxt ctxt' : CONTEXT) (isEax : bool) (Timer : Z) :
  0 <= fst (_setTimer ctxt isEax Timer) < 2 ^ 32
  /\ (Timer <> 0 ->
      _setTimer ctxt isEax Timer = _setTimer ctxt' isEax Timer)
  /\ (Timer <> 0 ->
      fst (_setTimer ctxt false Timer) * 2 ^ 32
      + fst (_setTimer ctxt' true Timer)
      = (Timer + 100) mod 2 ^ 64).
Proof.
  split; [|split].
  - rewrite setTimer_result.
    pose proof (setTimer_range ctxt isEax Timer) as Hr.
    change (2 ^ 64) with (2 ^ 32 * 2 ^ 32) in Hr.
    destruct isEax.
    + apply Z.mod_pos_bound. reflexivity.
    + split; [apply Z.div_pos; lia|].
      apply Z.div_lt_upper_bound; lia.
  - intros Hnz. unfold _setTimer.
    destruct (Z.eqb_spec Timer 0); [contradiction|reflexivity].
  - intros Hnz. rewrite !setTimer_result, !setTimer_next by exact Hnz.
    pose proof (Z.div_mod ((Timer + 100) mod 2 ^ 64) (2 ^ 32)
                          ltac:(vm_compute; discriminate)) as Hdm.
    lia.
Qed.

Lemma setTimer_halves_witness :
  0x1FFFFFFF0 <> 0
  /\ _setTimer ctxt_zero true 0x1FFFFFFF0 = _setTimer ctxt_seven true 0x1FFFFFFF0
  /\ fst (_setTimer ctxt_zero false 0x1FFFFFFF0) * 2 ^ 32
     + fst (_setTimer ctxt_seven true 0x1FFFFFFF0)
     = (0x1FFFFFFF0 + 100) mod 2 ^ 64.
Proof.
  assert (Hnz : 0x1FFFFFFF0 <> 0) by discriminate.
  split; [exact Hnz|].
  split;
    [exact (proj1 (proj2 (setTimer_halves ctxt_zero ctxt_seven true
                            0x1FFFFFFF0)) Hnz)
    |exact (proj2 (proj2 (setTimer_halves ctxt_zero ctxt_seven true
                            0x1FFFFFFF0)) Hnz)].
Defined.

(** * Further properties of the probes *)

Section Dump.
Variable E : Env.
Variable hex : ADDRINT -> wstring.
Variable mem : Memory.

(** X24: [_LogFunctionArgs] writes at most the first ten arguments: every
    count from 10 on gives what the count 10 gives.  With the count 0 a
    watched call still writes a line, the empty one.  Whatever it does, it
    leaves the page followed, the cursor and the records already in the log
    as they are, and adds at most one line. *)
Theorem LogFunctionArgs_bounds
  (st : State) (Address : ADDRINT) (name : string) (argCount : Z)
  (a1 a2 a3 a4 a5 a6 a7 a8 a9 a10 : ADDRINT) :
  (10 <= argCount ->
   _LogFunctionArgs E hex mem Address name argCount
                    a1 a2 a3 a4 a5 a6 a7 a8 a9 a10 st
   = _LogFunctionArgs E hex mem Address name 10
                      a1 a2 a3 a4 a5 a6 a7 a8 a9 a10 st)
  /\ (isWatchedAddress E Address = true ->
      _LogFunctionArgs E hex mem Address name 0
                       a1 a2 a3 a4 a5 a6 a7 a8 a9 a10 st
      = Some (append_log (logLine EmptyString) st))
  /\ (forall st',
         _LogFunctionArgs E hex mem Address name argCount
                          a1 a2 a3 a4 a5 a6 a7 a8 a9 a10 st = Some st' ->
         lastShellc st' = lastShellc st
         /\ lastKnownSectionOffset st' = lastKnownSectionOffset st
         /\ (st' = st
             \/ exists line, st' = append_log (logLine line) st)).
Proof.
  split; [|split].
  - intros Hge. unfold _LogFunctionArgs, argsMax.
    replace (Nat.min (Z.to_nat argCount) 10) with 10%nat by lia.
    reflexivity.
  - intros Hw. unfold _LogFunctionArgs. rewrite Hw. reflexivity.
  - intros st' Hrun. unfold _LogFunctionArgs in Hrun.
    destruct (negb (isWatchedAddress E Address)).
    + injection Hrun as <-. repeat split. left. reflexivity.
    + destruct (args_lines hex mem 0 _) as [w|]; [|discriminate].
      injection Hrun as <-. repeat split. right. eexists. reflexivity.
Qed.
End Dump.

Lemma LogFunctionArgs_bounds_witness :
  10 <= 4294967295
  /\ _LogFunctionArgs (demo_env 0) demo_hex demo_mem 0x400500 "CreateFileW"
       4294967295 0x1000 0x2000 0 0xDEAD0000 0 0 0 0 0 0 demo_state
     = _LogFunctionArgs (demo_env 0) demo_hex demo_mem 0x400500 "CreateFileW"
         10 0x1000 0x2000 0 0xDEAD0000 0 0 0 0 0 0 demo_state
  /\ isWatchedAddress (demo_env 0) 0x400500 = true
  /\ _LogFunctionArgs (demo_env 0) demo_hex demo_mem 0x400500 "CreateFileW"
       0 0x1000 0x2000 0 0xDEAD0000 0 0 0 0 0 0 demo_state
     = Some (append_log (logLine EmptyString) demo_state).
Proof.
  assert (Hge : 10 <= 4294967295) by discriminate.
  split; [exact Hge|].
  split;
    [exact (proj1 (LogFunctionArgs_bounds (demo_env 0) demo_hex demo_mem
                     demo_state 0x400500 "CreateFileW" 4294967295
                     0x1000 0x2000 0 0xDEAD0000 0 0 0 0 0 0) Hge)|].
  split; [reflexivity|].
  exact (proj1 (proj2 (LogFunctionArgs_bounds (demo_env 0) demo_hex demo_mem
                         demo_state 0x400500 "CreateFileW" 0
                         0x1000 0x2000 0 0xDEAD0000 0 0 0 0 0 0)) eq_refl).
Defined.

Section Probes.
Variable isValid : WFuncInfo -> bool.
Variable getDllName : string -> string.
Variable RTN_FindByName : IMG -> string -> option ADDRINT.

Lemma ImageLoad_In (funcs : list WFuncInfo) (Image : IMG) (p : Probe) :
  In p (ImageLoad isValid getDllName RTN_FindByName funcs Image) <->
  exists w rtn,
    In w funcs
    /\ iequals (getDllName (IMG_Name Image)) (dllName w) = true
    /\ RTN_FindByName Image (funcName w) = Some rtn
    /\ isValid w = true
    /\ p = mk_probe rtn (funcName w) (paramCount w mod 2 ^ 32).
Proof.
  unfold ImageLoad. rewrite in_flat_map. split.
  - intros [w [Hin Hp]]. unfold MonitorFunctionArgs in Hp.
    destruct (iequals (getDllName (IMG_Name Image)) (dllName w)) eqn:Hd;
      [|contradiction].
    destruct (RTN_FindByName Image (funcName w)) as [rtn|] eqn:Hr;
      [|contradiction].
    destruct (isValid w) eqn:Hv; [|contradiction].
    destruct Hp as [<-|[]]. exists w, rtn. repeat split; assumption.
  - intros [w [rtn [Hin [Hd [Hr [Hv ->]]]]]]. exists w. split; [exact Hin|].
    unfold MonitorFunctionArgs. rewrite Hd, Hr, Hv. left. reflexivity.
Qed.

(** X25: when an image is loaded, the probes put in are exactly those of
    the entries of the watch list whose module name matches the name of the
    image, whose function is found in the image and which [isValid] accepts,
    each with the count cut to 32 bits; there are no more probes than
    entries; and when no entry of the list has the key of an earlier one, no
    function name is given two probes. *)
Theorem ImageLoad_probes (funcs : list WFuncInfo) (Image : IMG) :
  (forall p,
      In p (ImageLoad isValid getDllName RTN_FindByName funcs Image) <->
      exists w rtn,
        In w funcs
        /\ iequals (getDllName (IMG_Name Image)) (dllName w) = true
        /\ RTN_FindByName Image (funcName w) = Some rtn
        /\ isValid w = true
        /\ p = mk_probe rtn (funcName w) (paramCount w mod 2 ^ 32))
  /\ (List.length (ImageLoad isValid getDllName RTN_FindByName funcs Image)
      <= List.length funcs)%nat
  /\ (unique_keys funcs ->
      NoDup (map probe_name
                 (ImageLoad isValid getDllName RTN_FindByName funcs Image))).
Proof.
  split; [intros p; apply ImageLoad_In|]. split.
  - unfold ImageLoad. induction funcs as [|w funcs IH]; simpl; [lia|].
    rewrite length_app.
    assert (Hone : (List.length
                      (if iequals (getDllName (IMG_Name Image)) (dllName w)
                       then MonitorFunctionArgs isValid RTN_FindByName Image w
                       else []) <= 1)%nat).
    { unfold MonitorFunctionArgs.
      destruct (iequals _ _); [|simpl; lia].
      destruct (RTN_FindByName Image (funcName w)); [|simpl; lia].
      destruct (negb (isValid w)); simpl; lia. }
    lia.
  - unfold unique_keys. intros Hu.
    induction Hu as [|w funcs Hw Hu IH]; [constructor|].
    change (ImageLoad isValid getDllName RTN_FindByName (w :: funcs) Image)
      with ((if iequals (getDllName (IMG_Name Image)) (dllName w)
             then MonitorFunctionArgs isValid RTN_FindByName Image w
             else [])
            ++ ImageLoad isValid getDllName RTN_FindByName funcs Image)%list.
    destruct (iequals (getDllName (IMG_Name Image)) (dllName w)) eqn:Hd;
      [|exact IH].
    unfold MonitorFunctionArgs.
    destruct (RTN_FindByName Image (funcName w)) as [rtn|]; [|exact IH].
    destruct (negb (isValid w)); [exact IH|].
    simpl. constructor; [|exact IH].
    intros Hin. apply in_map_iff in Hin. destruct Hin as [p [Hname Hp]].
    apply ImageLoad_In in Hp.
    destruct Hp as [w' [rtn' [Hin' [Hd' [_ [_ ->]]]]]]. simpl in Hname.
    rewrite Forall_forall in Hw. specialize (Hw w' Hin').
    unfold same_key in Hw. rewrite <- Hname, iequals_refl in Hw.
    apply iequals_lower in Hd, Hd'.
    assert (Hdd : iequals (dllName w) (dllName w') = true)
      by (apply iequals_lower; congruence).
    rewrite Hdd in Hw. discriminate.
Qed.
End Probes.

Lemma ImageLoad_probes_witness :
  unique_keys demo_watch
  /\ NoDup (map probe_name
                (ImageLoad has_names (fun path => path) demo_exports
                           demo_watch img_kernel32))
  /\ ImageLoad has_names (fun path => path) demo_exports demo_watch
               img_kernel32
     = [mk_probe 0x70001000 "CreateFileW" 3].
Proof.
  assert (Hu : unique_keys demo_watch) by (repeat constructor).
  split; [exact Hu|].
  split; [|reflexivity].
  exact (proj2 (proj2 (ImageLoad_probes has_names (fun path => path)
                         demo_exports demo_watch img_kernel32)) Hu).
Defined.

(** * Further properties of the start *)

Lemma app_after_dashes_found (pre : list string) (app : string)
  (post : list string) :
  ~ In "--"%string pre ->
  app_after_dashes (pre ++ "--"%string :: app :: post) = app.
Proof.
  induction pre as [|a pre IH]; intros Hno; [reflexivity|].
  simpl in Hno.
  change ((a :: pre) ++ "--"%string :: app :: post)%list
    with (a :: (pre ++ "--"%string :: app :: post))%list.
  destruct (pre ++ "--"%string :: app :: post)%list as [|b rest] eqn:Hrest.
  - destruct pre; discriminate Hrest.
  - cbn [app_after_dashes].
    destruct (String.eqb_spec a "--") as [Ha|Ha];
      [exfalso; apply Hno; left; exact Ha|].
    apply IH. intros Hin. apply Hno. right. exact Hin.
Qed.

Lemma app_after_dashes_none (rest : list string) :
  ~ In "--"%string (removelast rest) ->
  app_after_dashes rest = EmptyString.
Proof.
  induction rest as [|a rest IH]; intros Hno; [reflexivity|].
  destruct rest as [|b rest]; [reflexivity|].
  cbn [app_after_dashes].
  change (removelast (a :: b :: rest)) with (a :: removelast (b :: rest))
    in Hno.
  destruct (String.eqb_spec a "--") as [Ha|Ha];
    [exfalso; apply Hno; left; exact Ha|].
  apply IH. intros Hin. apply Hno. right. exact Hin.
Qed.

(** X26: the name [main] traces is the module name given on the command
    line when there is one; without it, it is the argument that follows the
    first ["--"] among the arguments after the program name, and the empty
    name when no ["--"] stands there with an argument behind it: the program
    name itself and the last argument are not looked at. *)
Theorem app_name_of_finds
  (KnobModuleName a0 app : string) (argv pre post rest : list string) :
  (KnobModuleName <> EmptyString ->
   app_name_of KnobModuleName argv = KnobModuleName)
  /\ (~ In "--"%string pre ->
      app_name_of EmptyString (a0 :: pre ++ "--"%string :: app :: post) = app)
  /\ (~ In "--"%string (removelast rest) ->
      app_name_of EmptyString (a0 :: rest) = EmptyString).
Proof.
  split; [|split].
  - intros Hk. unfold app_name_of.
    destruct KnobModuleName; [contradiction|reflexivity].
  - intros Hno. unfold app_name_of. cbn [String.length Nat.eqb tl].
    apply app_after_dashes_found. exact Hno.
  - intros Hno. unfold app_name_of. cbn [String.length Nat.eqb tl].
    apply app_after_dashes_none. exact Hno.
Qed.

Lemma app_name_of_finds_witness :
  "target.exe"%string <> EmptyString
  /\ app_name_of "target.exe" ["pin"; "--"; "other.exe"]%string
     = "target.exe"%string
  /\ ~ In "--"%string ["-t"; "TinyTracer.dll"]%string
  /\ app_name_of EmptyString
       ("--" :: ["-t"; "TinyTracer.dll"] ++ "--" :: "app.exe" :: ["arg"])%string
     = "app.exe"%string
  /\ ~ In "--"%string (removelast ["-t"; "TinyTracer.dll"; "--"]%string)
  /\ app_name_of EmptyString ("pin" :: ["-t"; "TinyTracer.dll"; "--"])%string
     = EmptyString.
Proof.
  assert (Hk : "target.exe"%string <> EmptyString) by discriminate.
  assert (H1 : ~ In "--"%string ["-t"; "TinyTracer.dll"]%string)
    by (simpl; intuition discriminate).
  assert (H2 : ~ In "--"%string
                 (removelast ["-t"; "TinyTracer.dll"; "--"]%string))
    by (simpl; intuition discriminate).
  split; [exact Hk|].
  split;
    [exact (proj1 (app_name_of_finds "target.exe" "pin" "app.exe"
                     ["pin"; "--"; "other.exe"]%string [] [] []) Hk)|].
  split; [exact H1|].
  split;
    [exact (proj1 (proj2 (app_name_of_finds EmptyString "--" "app.exe" []
                            ["-t"; "TinyTracer.dll"]%string ["arg"%string] []))
                  H1)|].
  split; [exact H2|].
  exact (proj2 (proj2 (app_name_of_finds EmptyString "pin" "app.exe" [] [] []
                         ["-t"; "TinyTracer.dll"; "--"]%string)) H2).
Defined.

(** * The loader on a line that does not fit *)

Lemma extract_line_capacity (room : nat) (l : list ascii) :
  (room < List.length l)%nat ->
  ~ In "010"%char (firstn (S room) l) ->
  exists s r, extract_line "010"%char (Some room) l = (s, r, at_capacity).
Proof.
  revert l. induction room as [|k IH]; intros l Hlen Hnl.
  - destruct l as [|c l]; [simpl in Hlen; lia|]. simpl in *.
    destruct (Ascii.eqb_spec c "010"%char) as [Hc|Hc];
      [exfalso; apply Hnl; left; exact Hc|].
    eexists. eexists. reflexivity.
  - destruct l as [|c l]; [simpl in Hlen; lia|].
    cbn [extract_line].
    change (firstn (S (S k)) (c :: l)) with (c :: firstn (S k) l) in Hnl.
    destruct (Ascii.eqb_spec c "010"%char) as [Hc|Hc];
      [exfalso; apply Hnl; left; exact Hc|].
    destruct (IH l) as [s [r Hex]].
    + simpl in Hlen. lia.
    + intros Hin. apply Hnl. right. exact Hin.
    + rewrite Hex. eexists. eexists. reflexivity.
Qed.

Section LoaderStuck.
Variable isValid : WFuncInfo -> bool.

(** X27: a line of 300 characters or more stops the loader for good,
    wherever it stands in the file: when the lines before it fit the buffer,
    [loadList] does not end within any number of iterations, whatever comes
    behind that line. *)
Theorem loadList_stuck_on_long_line
  (lines : list string) (long rest : string) (funcs : list WFuncInfo)
  (fuel : nat) :
  Forall fits_buffer lines ->
  (MAX_LINE <= String.length long)%nat ->
  ~ In "010"%char (list_ascii_of_string long) ->
  loadList isValid fuel (Some (file_of_lines lines ++ long ++ rest)%string)
           funcs = None.
Proof.
  intros Hfit Hlong Hnl. unfold loadList.
  assert (Hloop : loadList_loop isValid fuel
                    (open_stream (file_of_lines lines ++ long ++ rest)) funcs
                  = None).
  { revert funcs fuel.
    induction Hfit as [|line lines [Hlen Hnl1] Hfit IH]; intros funcs fuel.
    - destruct fuel as [|n]; [reflexivity|].
      rewrite loadList_loop_step by reflexivity. cbv zeta.
      cbn [file_of_lines fold_right append].
      destruct (extract_line_capacity (MAX_LINE - 1)
                  (list_ascii_of_string (long ++ rest))) as [s [r Hex]].
      + rewrite list_ascii_length, string_app_length.
        unfold MAX_LINE in *. lia.
      + rewrite list_ascii_of_string_app.
        replace (S (MAX_LINE - 1)) with MAX_LINE by reflexivity.
        rewrite firstn_app.
        replace (MAX_LINE - List.length (list_ascii_of_string long))%nat
          with O by (rewrite list_ascii_length; lia).
        cbn [firstn]. rewrite app_nil_r.
        intros Hin. apply Hnl.
        rewrite <- (firstn_skipn MAX_LINE (list_ascii_of_string long)).
        apply in_or_app. left. exact Hin.
      + assert (Hg : getline (open_stream (long ++ rest)) "010"%char
                             (Some (MAX_LINE - 1)%nat)
                     = (s, mk_istream r false true)).
        { unfold getline, open_stream, good.
          cbn [eofbit failbit unread negb andb]. rewrite Hex. reflexivity. }
        rewrite Hg. cbn [fst snd].
        apply loadList_loop_stuck; reflexivity.
    - destruct fuel as [|n]; [reflexivity|].
      rewrite loadList_loop_step by reflexivity. cbv zeta.
      assert (Hg : getline (open_stream (file_of_lines (line :: lines)
                                         ++ long ++ rest))
                           "010"%char (Some (MAX_LINE - 1)%nat)
                   = (line, open_stream (file_of_lines lines
                                         ++ long ++ rest))).
      { unfold getline, open_stream, good.
        cbn [eofbit failbit unread negb andb].
        cbn [file_of_lines fold_right]. fold (file_of_lines lines).
        rewrite !string_app_assoc.
        rewrite list_ascii_of_string_app. unfold newline_char.
        cbn [append list_ascii_of_string].
        rewrite extract_line_whole; [reflexivity | exact Hnl1|].
        unfold MAX_LINE in *. lia. }
      rewrite Hg. cbn [fst snd]. apply IH. }
  rewrite Hloop. reflexivity.
Qed.
End LoaderStuck.

Lemma loadList_stuck_on_long_line_witness :
  Forall fits_buffer ["k32.dll;CreateFileW;3"%string]
  /\ (MAX_LINE <= String.length long_line)%nat
  /\ ~ In "010"%char (list_ascii_of_string long_line)
  /\ loadList has_names 1000
       (Some (file_of_lines ["k32.dll;CreateFileW;3"%string]
              ++ long_line ++ newline_char)%string) []
     = None.
Proof.
  assert (H1 : Forall fits_buffer ["k32.dll;CreateFileW;3"%string]).
  { constructor; [|constructor].
    split; [apply Nat.ltb_lt; reflexivity|].
    simpl. intuition discriminate. }
  assert (H2 : (MAX_LINE <= String.length long_line)%nat)
    by (apply Nat.leb_le; vm_compute; reflexivity).
  assert (H3 : ~ In "010"%char (list_ascii_of_string long_line)).
  { unfold long_line. rewrite list_ascii_of_string_of_list_ascii.
    intros Hin. apply repeat_spec in Hin. discriminate. }
  split; [exact H1|]. split; [exact H2|]. split; [exact H3|].
  exact (loadList_stuck_on_long_line has_names
           ["k32.dll;CreateFileW;3"%string] long_line newline_char [] 1000
           H1 H2 H3).
Defined.
